(** * AICA ADPCM <-> WAV converter and the sound-effect channel manager

    A shallow embedding of the [wav2adpcm] tool (codec core, stereo
    transform, RIFF container reader and writer) and of [snd_sfx_stop_all] from
    [kernel/arch/dreamcast/sound/snd_sfxmgr.c], with the properties the
    specification states about them.

    Conventions of the embedding:
    - a C [int] is a [Z] kept in 32-bit two's complement by [wrap32] after
      every arithmetic operation; [short] is 16-bit, [size_t] is 64-bit;
    - a file is the list of its bytes with a position and the end-of-file
      indicator of the C stream;
    - arrays of [short] are lists of [Z], arrays of [unsigned char] are lists
      of [Z] in the codec and lists of [byte] in the container;
    - a memory access outside the object it is made on, or a copy of heap
      bytes that were never written, has no defined result: the functions
      that can do so return [option] and answer [None] there. *)

From Stdlib Require Import ZArith List Lia Bool String.
From Stdlib Require Import Strings.Byte.
Import ListNotations.

Local Open Scope Z_scope.

(** ** Machine integers *)

(** The value of a 32-bit [int] holding the mathematical result [z]. *)
Definition wrap32 (z : Z) : Z := (z + 2^31) mod 2^32 - 2^31.

(** Conversion to [short]. *)
Definition wrap16 (z : Z) : Z := (z + 2^15) mod 2^16 - 2^15.

(** Conversion to [uint32_t], [unsigned char] and [size_t]. *)
Definition u32 (z : Z) : Z := z mod 2^32.
Definition u8 (z : Z) : Z := z mod 2^8.
Definition usize (z : Z) : Z := z mod 2^64.

(** Conversion of an [int] to [uint64] (sign extension). *)
Definition u64 (z : Z) : Z := z mod 2^64.

Definition iadd (a b : Z) : Z := wrap32 (a + b).
Definition isub (a b : Z) : Z := wrap32 (a - b).
Definition imul (a b : Z) : Z := wrap32 (a * b).
(** C division truncates toward zero. *)
Definition idiv (a b : Z) : Z := wrap32 (Z.quot a b).
Definition iabs (a : Z) : Z := wrap32 (Z.abs a).
(** [>>] on a signed [int] is the arithmetic shift. *)
Definition ishr (a n : Z) : Z := Z.shiftr a n.

Definition fits_int (z : Z) : Prop := - 2^31 <= z < 2^31.
Definition fits_short (z : Z) : Prop := -32768 <= z <= 32767.

(** ** Codec core *)

Definition diff_lookup : list Z :=
  [ 1; 3; 5; 7; 9; 11; 13; 15;
    -1; -3; -5; -7; -9; -11; -13; -15 ].

Definition index_scale : list Z :=
  [ 0x0e6; 0x0e6; 0x0e6; 0x0e6; 0x133; 0x199; 0x200; 0x266;
    0x0e6; 0x0e6; 0x0e6; 0x0e6; 0x133; 0x199; 0x200; 0x266 ].

(** [t[i]] for a table of [int]. *)
Definition tbl (t : list Z) (i : Z) : Z := nth (Z.to_nat i) t 0.

Definition limit (val min max : Z) : Z :=
  if val <? min then min
  else if val >? max then max
  else val.

(** The predictor: the two locals [signal] and [step]. *)
Record state : Type := mkState { signal : Z; step : Z }.

Definition init_state : state := mkState 0 0x7f.

(** The code chosen by the encoder for one sample
    ([diff = *src++ - signal] down to [if(diff < 0) val += 8]). *)
Definition quantize (st : state) (sample : Z) : Z :=
  let diff := isub sample (signal st) in
  let diff := idiv (imul diff 8) (step st) in
  let val := idiv (iabs diff) 2 in
  let val := if val >? 7 then 7 else val in
  let val := if diff <? 0 then iadd val 8 else val in
  val.

(** The encoder's state update once [val] is chosen. *)
Definition enc_update (st : state) (val : Z) : state :=
  let signal' := iadd (signal st) (idiv (imul (step st) (tbl diff_lookup val)) 8) in
  let signal' := limit signal' (-32768) 32767 in
  let step' := ishr (imul (step st) (tbl index_scale val)) 8 in
  let step' := limit step' 0x7f 0x6000 in
  mkState signal' step'.

(** The decoder's state update on reading [val]. *)
Definition dec_update (st : state) (val : Z) : state :=
  let signal' := iadd (signal st) (idiv (imul (step st) (tbl diff_lookup val)) 8) in
  let signal' := limit signal' (-32768) 32767 in
  let step' := ishr (imul (step st) (tbl index_scale (Z.land val 7))) 8 in
  let step' := limit step' 0x7f 0x6000 in
  mkState signal' step'.

(** One half of the body of the encoder's loop: code and new state. *)
Definition encode_sample (st : state) (sample : Z) : Z * state :=
  let val := quantize st sample in
  (val, enc_update st val).

(** The [do ... while(--length)] loop of [pcm2adpcm].  [src] is what can be
    read through the pointer; the result is what was stored through [dst],
    or [None] when the loop reads past the end of [src]. *)
Fixpoint pcm2adpcm_loop (src : list Z) (length : Z) (st : state)
  : option (list Z) :=
  match src with
  | s1 :: s2 :: rest =>
      let '(val1, st1) := encode_sample st s1 in
      let data := val1 in
      let '(val2, st2) := encode_sample st1 s2 in
      let data := Z.lor data (Z.shiftl val2 4) in
      let length := usize (length - 1) in
      if length =? 0 then Some [u8 data]
      else option_map (cons (u8 data)) (pcm2adpcm_loop rest length st2)
  | _ => None
  end.

Definition pcm2adpcm (src : list Z) (length : Z) : option (list Z) :=
  let length := usize (length + 3) / 4 in
  pcm2adpcm_loop src length init_state.

(** The predictor states of the same loop, one after each sample. *)
Fixpoint pcm2adpcm_states (src : list Z) (length : Z) (st : state)
  : list state :=
  match src with
  | s1 :: s2 :: rest =>
      let st1 := snd (encode_sample st s1) in
      let st2 := snd (encode_sample st1 s2) in
      let length := usize (length - 1) in
      if length =? 0 then [st1; st2]
      else st1 :: st2 :: pcm2adpcm_states rest length st2
  | _ => []
  end.

(** The loop of [adpcm2pcm]: each byte gives two samples. *)
Fixpoint adpcm2pcm_loop (src : list Z) (length : Z) (st : state)
  : option (list Z) :=
  match src with
  | data :: rest =>
      let val := Z.land data 15 in
      let st1 := dec_update st val in
      let out1 := wrap16 (signal st1) in
      let val := Z.land (Z.shiftr data 4) 15 in
      let st2 := dec_update st1 val in
      let out2 := wrap16 (signal st2) in
      let length := usize (length - 1) in
      if length =? 0 then Some [out1; out2]
      else option_map (fun l => out1 :: out2 :: l)
                      (adpcm2pcm_loop rest length st2)
  | [] => None
  end.

Definition adpcm2pcm (src : list Z) (length : Z) : option (list Z) :=
  adpcm2pcm_loop src length init_state.

(** The predictor states of the decoder, one after each nibble. *)
Fixpoint adpcm2pcm_states (src : list Z) (length : Z) (st : state)
  : list state :=
  match src with
  | data :: rest =>
      let st1 := dec_update st (Z.land data 15) in
      let st2 := dec_update st1 (Z.land (Z.shiftr data 4) 15) in
      let length := usize (length - 1) in
      if length =? 0 then [st1; st2]
      else st1 :: st2 :: adpcm2pcm_states rest length st2
  | [] => []
  end.

(** The clamping invariant of the predictor. *)
Definition state_ok (st : state) : Prop :=
  127 <= step st <= 24576 /\ -32768 <= signal st <= 32767.


(** ** Stereo transform *)

(** [l[i] = v] on an array; nothing is stored outside it. *)
Fixpoint store {A : Type} (l : list A) (i : nat) (v : A) : list A :=
  match l, i with
  | [], _ => []
  | _ :: t, O => v :: t
  | x :: t, S i => x :: store t i v
  end.

(** [memcpy(dst + off, src, sizeof src)] on arrays of the same element type. *)
Definition memcpy {A : Type} (dst : list A) (off : nat) (src : list A) : list A :=
  firstn off dst ++ src ++ skipn (off + List.length src) dst.

(** The [for] loop of [deinterleave], [n] iterations from index [i].  The
    index is an [int]: where [i * 2 + 1] leaves its range the arithmetic is
    undefined ([None]). *)
Fixpoint deinterleave_loop (n : nat) (i : Z) (buf buf1 buf2 : list Z)
  : option (list Z * list Z) :=
  match n with
  | O => Some (buf1, buf2)
  | S n =>
      if i * 2 + 1 <? 2^31 then
        let buf1 :=
          store buf1 (Z.to_nat i) (nth (Z.to_nat (i * 2 + 0)) buf 0) in
        let buf2 :=
          store buf2 (Z.to_nat i) (nth (Z.to_nat (i * 2 + 1)) buf 0) in
        deinterleave_loop n (i + 1) buf buf1 buf2
      else None
  end.

(** [deinterleave(buffer, size)]: [buffer] holds 16-bit samples, [size] is
    in bytes.  The two [memcpy] copy [size / 2] bytes each: when
    [size mod 4] is 2 or 3 that is one byte more than the loop has written
    into [buf1] and [buf2], and when the loop reads past the end of the
    buffer the access is out of bounds; both give [None], as does an index
    that leaves the range of [int]. *)
Definition deinterleave (buffer : list Z) (size : Z) : option (list Z) :=
  let n := size / 4 in
  if (0 <=? size) && (size mod 4 <? 2)
     && (2 * n <=? Z.of_nat (List.length buffer)) then
    let buf1 := repeat 0 (Z.to_nat n) in
    let buf2 := repeat 0 (Z.to_nat n) in
    match deinterleave_loop (Z.to_nat n) 0 buffer buf1 buf2 with
    | Some (buf1, buf2) =>
        let buf := memcpy buffer 0 buf1 in
        let buf := memcpy buf (Z.to_nat n) buf2 in
        Some buf
    | None => None
    end
  else None.

(** The [for] loop of [interleave], with the same [int] index. *)
Fixpoint interleave_loop (n : nat) (i : Z) (buf1 buf2 buf : list Z)
  : option (list Z) :=
  match n with
  | O => Some buf
  | S n =>
      if i * 2 + 1 <? 2^31 then
        let buf :=
          store buf (Z.to_nat (i * 2 + 0)) (nth (Z.to_nat i) buf1 0) in
        let buf :=
          store buf (Z.to_nat (i * 2 + 1)) (nth (Z.to_nat i) buf2 0) in
        interleave_loop n (i + 1) buf1 buf2 buf
      else None
  end.

(** [interleave(buffer, size)].  [memcpy(buffer, buf, size)] copies the whole
    of [buf], of which the loop has written [4 * (size / 4)] bytes. *)
Definition interleave (buffer : list Z) (size : Z) : option (list Z) :=
  let n := size / 4 in
  if (0 <=? size) && (size mod 4 =? 0)
     && (2 * n <=? Z.of_nat (List.length buffer)) then
    let buf := repeat 0 (2 * Z.to_nat n) in
    let buf1 := buffer in
    let buf2 := skipn (Z.to_nat n) buffer in
    match interleave_loop (Z.to_nat n) 0 buf1 buf2 buf with
    | Some buf => Some (memcpy buffer 0 buf)
    | None => None
    end
  else None.

(** ** Bytes and little-endian objects *)

Definition Z_of_byte (b : byte) : Z := Z.of_N (Byte.to_N b).

Definition byte_of_Z (z : Z) : byte :=
  match Byte.of_N (Z.to_N (z mod 256)) with
  | Some b => b
  | None => x00
  end.

(** The [n] bytes of an integer object on a little-endian machine. *)
Fixpoint le_bytes (n : nat) (z : Z) : list byte :=
  match n with
  | O => []
  | S n => byte_of_Z z :: le_bytes n (z / 256)
  end.

Fixpoint le_decode (bs : list byte) : Z :=
  match bs with
  | [] => 0
  | b :: t => Z_of_byte b + 256 * le_decode t
  end.

(** The signed value of a [bits]-wide object holding [u]. *)
Definition signed (bits : Z) (u : Z) : Z :=
  if u <? 2 ^ (bits - 1) then u else u - 2 ^ bits.

(** A buffer of bytes read as an array of [short]; a last odd byte is not
    a whole element. *)
Fixpoint shorts_of_bytes (bs : list byte) : list Z :=
  match bs with
  | lo :: hi :: t => signed 16 (le_decode [lo; hi]) :: shorts_of_bytes t
  | _ => []
  end.

Definition bytes_of_shorts (l : list Z) : list byte :=
  flat_map (le_bytes 2) l.

Definition bytes_of_uchars (l : list Z) : list byte := map byte_of_Z l.
Definition uchars_of_bytes (l : list byte) : list Z := map Z_of_byte l.

Fixpoint bytes_eqb (a b : list byte) : bool :=
  match a, b with
  | [], [] => true
  | x :: a, y :: b => Byte.eqb x y && bytes_eqb a b
  | _, _ => false
  end.

(** [memcmp(a, b, n) != 0]. *)
Definition memcmp (a b : list byte) (n : nat) : bool :=
  negb (bytes_eqb (firstn n a) (firstn n b)).

(** A string literal as the bytes it stands for. *)
Definition lit (s : string) : list byte := list_byte_of_string s.

(** The bytes of an object whose first bytes were overwritten by [got]. *)
Definition overlay (old got : list byte) : list byte :=
  got ++ skipn (List.length got) old.

(** ** C streams *)

Fixpoint ztake {A : Type} (n : Z) (l : list A) : list A :=
  match l with
  | [] => []
  | x :: t => if n <=? 0 then [] else x :: ztake (n - 1) t
  end.

Fixpoint zdrop {A : Type} (n : Z) (l : list A) : list A :=
  match l with
  | [] => []
  | x :: t => if n <=? 0 then l else zdrop (n - 1) t
  end.

(** An input stream: the bytes of the file, the file position and the
    end-of-file indicator. *)
Record FILE : Type := mkFILE { content : list byte; pos : Z; eof : bool }.

Definition fopen_rb (bytes : list byte) : FILE := mkFILE bytes 0 false.

Definition remaining (f : FILE) : list byte := zdrop (pos f) (content f).

(** [fread(ptr, size, 1, f)]: the stream after the call, the bytes stored
    through [ptr] and the return value.  A read that meets the end of the
    file stores what is left, sets the end-of-file indicator and returns 0;
    a read of size 0 returns 0 and changes nothing. *)
Definition fread (f : FILE) (size : Z) : FILE * list byte * Z :=
  if size <=? 0 then (f, [], 0)
  else
    let got := ztake size (remaining f) in
    let n := Z.of_nat (List.length got) in
    if n =? size
    then (mkFILE (content f) (pos f + size) (eof f), got, 1)
    else (mkFILE (content f) (pos f + n) true, got, 0).

Definition feof (f : FILE) : bool := eof f.

Definition ftell (f : FILE) : Z := pos f.

(** [fseek(f, off, SEEK_SET)] with [off >= 0], which a [uint32_t] converted
    to a 64-bit [long] is: the call succeeds, sets the position, also past
    the end of the file, and clears the end-of-file indicator
    (C11 7.21.9.2). *)
Definition fseek (f : FILE) (off : Z) : FILE := mkFILE (content f) off false.

(** The stream has not met the end of the file and [bs] is what is left to
    read. *)
Definition positioned (f : FILE) (bs : list byte) : Prop :=
  0 <= pos f /\ eof f = false /\ remaining f = bs.

(** [fread(&x, 4, 1, f)] on a [uint32_t] holding [old]. *)
Definition fread_u32 (f : FILE) (old : Z) : FILE * Z :=
  let '(f', got, _) := fread f 4 in
  (f', le_decode (overlay (le_bytes 4 old) got)).

(** [fread(&x, 4, 1, f)] on an [int32_t]. *)
Definition fread_i32 (f : FILE) (old : Z) : FILE * Z :=
  let '(f', got, _) := fread f 4 in
  (f', signed 32 (le_decode (overlay (le_bytes 4 old) got))).

(** [fread(&x, 2, 1, f)] on a [short]. *)
Definition fread_i16 (f : FILE) (old : Z) : FILE * Z :=
  let '(f', got, _) := fread f 2 in
  (f', signed 16 (le_decode (overlay (le_bytes 2 old) got))).

(** [for (i = 0; i < 4; i++) fread(&dID[i], 1, 1, in)] on the array [old]. *)
Fixpoint fread_each (f : FILE) (old : list byte) : FILE * list byte :=
  match old with
  | [] => (f, [])
  | b :: t =>
      let '(f', got, _) := fread f 1 in
      let '(f'', t') := fread_each f' t in
      (f'', overlay [b] got ++ t')
  end.

(** ** Container: PCM WAV to ADPCM WAV *)

(** [struct wavhdr_t]; 44 bytes, no padding. *)
Record wavhdr_t : Type := mkWavhdr {
  hdr1 : list byte;        (* char[4] *)
  totalsize : Z;           (* int32_t *)
  hdr2 : list byte;        (* char[8] *)
  hdrsize : Z;             (* int32_t *)
  format : Z;              (* short *)
  channels : Z;            (* short *)
  freq : Z;                (* int32_t *)
  byte_per_sec : Z;        (* int32_t *)
  blocksize : Z;           (* short *)
  bits : Z;                (* short *)
  hdr3 : list byte;        (* char[4] *)
  datasize : Z             (* int32_t *)
}.

(** The object representation of the header, as [fwrite] stores it. *)
Definition wavhdr_bytes (h : wavhdr_t) : list byte :=
  hdr1 h ++ le_bytes 4 (totalsize h) ++ hdr2 h ++ le_bytes 4 (hdrsize h)
  ++ le_bytes 2 (format h) ++ le_bytes 2 (channels h)
  ++ le_bytes 4 (freq h) ++ le_bytes 4 (byte_per_sec h)
  ++ le_bytes 2 (blocksize h) ++ le_bytes 2 (bits h)
  ++ hdr3 h ++ le_bytes 4 (datasize h).

(** The header whose object representation is the 44 bytes [bs]. *)
Definition wavhdr_of_bytes (bs : list byte) : wavhdr_t :=
  let field (off n : Z) := firstn (Z.to_nat n) (skipn (Z.to_nat off) bs) in
  mkWavhdr (field 0 4) (signed 32 (le_decode (field 4 4)))
           (field 8 8) (signed 32 (le_decode (field 16 4)))
           (signed 16 (le_decode (field 20 2)))
           (signed 16 (le_decode (field 22 2)))
           (signed 32 (le_decode (field 24 4)))
           (signed 32 (le_decode (field 28 4)))
           (signed 16 (le_decode (field 32 2)))
           (signed 16 (le_decode (field 34 2)))
           (field 36 4) (signed 32 (le_decode (field 40 4))).

(** The locals of [wav2adpcm] that live across the chunk walk.  [pcmbuf] is
    [None] while the pointer is [NULL]; [adpcmbuf] is allocated with it. *)
Record locals : Type := mkLocals {
  wavhdr : wavhdr_t;
  dID : list byte;
  len : Z;
  loopType : Z;
  start : Z;
  temp : Z;
  startLoop : Z;
  endLoop : Z;
  nSampleLength : Z;
  have_fmt : bool;
  haveLoop : bool;
  pcmsize : Z;
  adpcmsize : Z;
  pcmbuf : option (list byte)
}.

(** A [char] array of [n] elements holding the bytes of [garbage]. *)
Definition char_array (n : nat) (garbage : list byte) : list byte :=
  map (fun i => nth i garbage x00) (seq 0 n).

(** The locals on entry: the initialisers of the declarations; the others
    hold whatever the stack held, [stack], the arrays at their declared
    sizes. *)
Definition wav2adpcm_entry (stack : locals) : locals :=
  let h := wavhdr stack in
  let h := mkWavhdr (char_array 4 (hdr1 h)) (totalsize h)
                    (char_array 8 (hdr2 h)) (hdrsize h) (format h)
                    (channels h) (freq h) (byte_per_sec h) (blocksize h)
                    (bits h) (char_array 4 (hdr3 h)) (datasize h) in
  mkLocals h (char_array 4 (dID stack)) (len stack) 0 (start stack)
           (temp stack) 0 0 0 false false 0 0 None.

Definition set_wavhdr (l : locals) (h : wavhdr_t) : locals :=
  mkLocals h (dID l) (len l) (loopType l) (start l) (temp l) (startLoop l)
           (endLoop l) (nSampleLength l) (have_fmt l) (haveLoop l)
           (pcmsize l) (adpcmsize l) (pcmbuf l).

Definition set_chunk (l : locals) (id : list byte) (n : Z) : locals :=
  mkLocals (wavhdr l) id n (loopType l) (start l) (temp l) (startLoop l)
           (endLoop l) (nSampleLength l) (have_fmt l) (haveLoop l)
           (pcmsize l) (adpcmsize l) (pcmbuf l).

Definition set_start (l : locals) (s : Z) : locals :=
  mkLocals (wavhdr l) (dID l) (len l) (loopType l) s (temp l) (startLoop l)
           (endLoop l) (nSampleLength l) (have_fmt l) (haveLoop l)
           (pcmsize l) (adpcmsize l) (pcmbuf l).

Definition set_temp (l : locals) (t : Z) : locals :=
  mkLocals (wavhdr l) (dID l) (len l) (loopType l) (start l) t (startLoop l)
           (endLoop l) (nSampleLength l) (have_fmt l) (haveLoop l)
           (pcmsize l) (adpcmsize l) (pcmbuf l).

Definition set_loop (l : locals) (ty s e : Z) (have : bool) : locals :=
  mkLocals (wavhdr l) (dID l) (len l) ty (start l) (temp l) s e
           (nSampleLength l) (have_fmt l) have
           (pcmsize l) (adpcmsize l) (pcmbuf l).

Definition set_have_fmt (l : locals) (b : bool) : locals :=
  mkLocals (wavhdr l) (dID l) (len l) (loopType l) (start l) (temp l)
           (startLoop l) (endLoop l) (nSampleLength l) b (haveLoop l)
           (pcmsize l) (adpcmsize l) (pcmbuf l).

Definition set_nSampleLength (l : locals) (n : Z) : locals :=
  mkLocals (wavhdr l) (dID l) (len l) (loopType l) (start l) (temp l)
           (startLoop l) (endLoop l) n (have_fmt l) (haveLoop l)
           (pcmsize l) (adpcmsize l) (pcmbuf l).

Definition set_pcm (l : locals) (psize asize : Z) (buf : option (list byte))
  : locals :=
  mkLocals (wavhdr l) (dID l) (len l) (loopType l) (start l) (temp l)
           (startLoop l) (endLoop l) (nSampleLength l) (have_fmt l)
           (haveLoop l) psize asize buf.

(** How one turn of the [for (;;)] loop ends. *)
Inductive step_result : Type :=
| Fail (msg : string)             (* fprintf(stderr, msg); return -1 *)
| Break (l : locals)              (* break *)
| Next (f : FILE) (l : locals).   (* the next turn *)

(** The four reads of the chunk id and the read of the chunk length. *)
Definition read_chunk_header (f : FILE) (l : locals) : FILE * locals :=
  let '(f, id) := fread_each f (dID l) in
  let '(f, n) := fread_u32 f (len l) in
  (f, set_chunk l id n).

(** The [smpl] branch, which ends the walk. *)
Definition smpl_chunk (f : FILE) (l : locals) : locals :=
  let '(f, t) := fold_left (fun ft (_ : nat) => fread_u32 (fst ft) (snd ft))
                           (seq 0 9) (f, temp l) in
  let '(f, t) := fread_u32 f t in
  let '(f, ty) := fread_u32 f (loopType l) in
  let '(f, s) := fread_u32 f (startLoop l) in
  let '(f, e) := fread_u32 f (endLoop l) in
  let '(f, t) := fread_u32 f t in
  let '(f, t) := fread_u32 f t in
  let have := if (ty =? 0) && (e >? 0) then true else haveLoop l in
  let s := if s >? nSampleLength l then 0 else s in
  let e := if e >? nSampleLength l then nSampleLength l else e in
  set_loop (set_temp l t) ty s e have.

(** The [fmt ] branch. *)
Definition fmt_chunk (f : FILE) (l : locals) : string + FILE * locals :=
  let h := wavhdr l in
  let '(f, fmt) := fread_i16 f (format h) in
  let '(f, ch) := fread_i16 f (channels h) in
  let '(f, fr) := fread_i32 f (freq h) in
  let '(f, bps) := fread_i32 f (byte_per_sec h) in
  let '(f, bsz) := fread_i16 f (blocksize h) in
  let '(f, bts) := fread_i16 f (bits h) in
  let h := mkWavhdr (hdr1 h) (totalsize h) (hdr2 h) (hdrsize h)
                    fmt ch fr bps bsz bts (hdr3 h) (datasize h) in
  if have_fmt l || (negb (ch =? 1) && negb (ch =? 2)) || negb (fmt =? 1)
  then inl "Unsupported format."%string
  else inr (f, set_have_fmt (set_wavhdr l h) true).

(** The [data] branch. *)
Definition data_chunk (f : FILE) (l : locals) : string + FILE * locals :=
  if negb (have_fmt l) then inl "Unsupported format."%string
  else
    let l := set_nSampleLength l (Z.shiftr (len l) 1) in
    if negb (blocksize (wavhdr l) =? 2) then inl "Unsupported format."%string
    else
      let psize := len l in
      let asize := psize / 4 in
      let '(f, got, r) := fread f psize in
      if negb (r =? 1) then inl "Cannot read data."%string
      else inr (f, set_pcm l psize asize (Some got)).

(** One turn of the chunk walk. *)
Definition chunk_step (f : FILE) (l : locals) : step_result :=
  let '(f, l) := read_chunk_header f l in
  if feof f then Fail "Invalid truncated WAVE header."
  else
    let l := set_start l (u32 (ftell f)) in
    if negb (memcmp (dID l) (lit "smpl") 4) then Break (smpl_chunk f l)
    else
      let r :=
        if negb (memcmp (dID l) (lit "fmt ") 4) then fmt_chunk f l
        else if negb (memcmp (dID l) (lit "data") 4) then data_chunk f l
        else inr (f, l) in
      match r with
      | inl msg => Fail msg
      | inr (f, l) =>
          let f := fseek f (u32 (start l + len l)) in
          if feof f then Break l else Next f l
      end.

(** The [for (;;)] loop, for at most [fuel] turns: [None] when they do not
    suffice. *)
Fixpoint chunk_walk (fuel : nat) (f : FILE) (l : locals)
  : option (string + locals) :=
  match fuel with
  | O => None
  | S fuel =>
      match chunk_step f l with
      | Fail msg => Some (inl msg)
      | Break l => Some (inr l)
      | Next f l => chunk_walk fuel f l
      end
  end.

(** The chunk id that the turn starting at [f] reads. *)
Definition chunk_id (f : FILE) (l : locals) : list byte :=
  dID (snd (read_chunk_header f l)).

(** The turns of the walk that started at [f0] with locals [l0]:
    [walking f0 l0 f l] when a turn of the loop starts at [f] with [l]. *)
Inductive walking (f0 : FILE) (l0 : locals) : FILE -> locals -> Prop :=
| walking_start : walking f0 l0 f0 l0
| walking_next f l f' l' :
    walking f0 l0 f l ->
    chunk_step f l = Next f' l' ->
    walking f0 l0 f' l'.

(** The same, as long as no turn has met a [data] chunk. *)
Inductive walking_before_data (f0 : FILE) (l0 : locals)
  : FILE -> locals -> Prop :=
| before_data_start : walking_before_data f0 l0 f0 l0
| before_data_next f l f' l' :
    walking_before_data f0 l0 f l ->
    memcmp (chunk_id f l) (lit "data") 4 = true ->
    chunk_step f l = Next f' l' ->
    walking_before_data f0 l0 f' l'.

(** The stream and the locals after [n] turns that were each followed by
    another one. *)
Fixpoint turns (n : nat) (f : FILE) (l : locals) : FILE * locals :=
  match n with
  | O => (f, l)
  | S n =>
      match chunk_step f l with
      | Next f' l' => turns n f' l'
      | _ => (f, l)
      end
  end.

(** [if (!endLoop) { ... }] after the walk. *)
Definition default_loop (l : locals) : locals :=
  if endLoop l =? 0
  then set_loop l (loopType l) 0 (nSampleLength l) false
  else l.

(** Sequencing of steps that may have no defined result. *)
Notation "x <- e ;; k" :=
  (match e with Some x => k | None => None end)
  (at level 61, e at next level, right associativity, only parsing).

(** A heap buffer whose elements are [None] until they are written. *)
Definition malloc (n : Z) : list (option Z) := repeat None (Z.to_nat n).

(** The stores of a codec call through [buf + off]; [None] when one of them
    falls outside the buffer. *)
Definition store_at (buf : list (option Z)) (off : Z) (data : list Z)
  : option (list (option Z)) :=
  if (0 <=? off)
     && (off + Z.of_nat (List.length data) <=? Z.of_nat (List.length buf))
  then Some (memcpy buf (Z.to_nat off) (map Some data))
  else None.

(** The content of a buffer, when all of it has been written. *)
Fixpoint written (buf : list (option Z)) : option (list Z) :=
  match buf with
  | [] => Some []
  | Some v :: t => option_map (cons v) (written t)
  | None :: _ => None
  end.

(** The encoding step of [wav2adpcm]: the content of [adpcmbuf] after
    [if(wavhdr.channels == 1) ... else ...]. *)
Definition encode_payload (channels : Z) (pcmbuf : option (list byte))
           (pcmsize adpcmsize : Z) : option (list Z) :=
  let samples := match pcmbuf with
                 | Some bs => shorts_of_bytes bs
                 | None => []
                 end in
  let adpcmbuf := match pcmbuf with
                  | Some _ => malloc adpcmsize
                  | None => []
                  end in
  if channels =? 1 then
    out <- pcm2adpcm samples pcmsize ;;
    adpcmbuf <- store_at adpcmbuf 0 out ;;
    written adpcmbuf
  else
    samples <- deinterleave samples pcmsize ;;
    out <- pcm2adpcm samples (pcmsize / 2) ;;
    adpcmbuf <- store_at adpcmbuf 0 out ;;
    out <- pcm2adpcm (skipn (Z.to_nat (pcmsize / 4)) samples) (pcmsize / 2) ;;
    adpcmbuf <- store_at adpcmbuf (adpcmsize / 2) out ;;
    written adpcmbuf.

(** [fwrite(ptr, size, 1, out)] on a device that takes every byte: the file
    after the call and the return value, 0 for a size of 0. *)
Definition fwrite (out : list byte) (data : list byte) (size : Z)
  : list byte * Z :=
  if size <=? 0 then (out, 0) else (out ++ data, 1).

(** What a run leaves behind: the value returned, the diagnostic printed and
    the bytes of the output file when it was opened. *)
Record exit : Type := mkExit {
  status : Z;
  message : option string;
  outfile : option (list byte)
}.

(** A run either returns or has no defined behaviour. *)
Inductive outcome : Type :=
| Exited (e : exit)
| Undefined.

Definition failed (msg : string) (out : option (list byte)) : outcome :=
  Exited (mkExit (-1) (Some msg) out).

(** The bytes of the [smpl] chunk written when [haveLoop] holds. *)
Definition smpl_bytes (l : locals) : list byte :=
  lit "smpl" ++ le_bytes 4 0x3c ++ repeat x00 36 ++ le_bytes 4 0
  ++ le_bytes 4 (loopType l) ++ le_bytes 4 (startLoop l)
  ++ le_bytes 4 (endLoop l) ++ le_bytes 4 0 ++ le_bytes 4 0.

(** What [wav2adpcm] appends to the output after the payload. *)
Definition smpl_out (l : locals) : list byte :=
  if haveLoop l then smpl_bytes l else [].

(** The three reads of the RIFF header. *)
Definition read_riff (f : FILE) (l : locals) : option (FILE * locals) :=
  let h := wavhdr l in
  let '(f, got1, r) := fread f 4 in
  if negb (r =? 1) then None else
  let '(f, got2, r) := fread f 4 in
  if negb (r =? 1) then None else
  let '(f, got3, r) := fread f 4 in
  if negb (r =? 1) then None else
  Some (f, set_wavhdr l
             (mkWavhdr got1 (signed 32 (le_decode got2))
                       (overlay (hdr2 h) got3) (hdrsize h) (format h)
                       (channels h) (freq h) (byte_per_sec h) (blocksize h)
                       (bits h) (hdr3 h) (datasize h))).

(** [wav2adpcm] from [fclose(in)] on. *)
Definition wav2adpcm_finish (l : locals) : outcome :=
  let l := default_loop l in
  let h := wavhdr l in
  match encode_payload (channels h) (pcmbuf l) (pcmsize l) (adpcmsize l) with
  | None => Undefined
  | Some adpcmbuf =>
      let dsize := wrap32 (adpcmsize l) in
      let h := mkWavhdr (hdr1 h) (wrap32 (usize (dsize + 44 - 8)))
                        (firstn 4 (hdr2 h) ++ lit "fmt ") 0x10
                        20 (channels h) (freq h) (byte_per_sec h)
                        (blocksize h) 4 (lit "data") dsize in
      let '(out, r1) := fwrite [] (wavhdr_bytes h) 44 in
      let '(out, r2) := if r1 =? 1
                        then fwrite out (bytes_of_uchars adpcmbuf) (adpcmsize l)
                        else (out, 1) in
      if negb (r1 =? 1) || negb (r2 =? 1)
      then failed "Cannot write ADPCM data." (Some out)
      else Exited (mkExit 0 None (Some (out ++ smpl_out l)))
  end.

(** [wav2adpcm(infile, outfile)]: [infile] is the content of the input file,
    [None] when it cannot be opened; [stack] is what the uninitialised
    locals hold on entry; [fuel] bounds the turns of the chunk walk. *)
Definition wav2adpcm (stack : locals) (infile : option (list byte))
           (fuel : nat) : option outcome :=
  match infile with
  | None => Some (failed "can't open %s" None)
  | Some bytes =>
      match read_riff (fopen_rb bytes) (wav2adpcm_entry stack) with
      | None => Some (failed "Cannot read header." None)
      | Some (f, l) =>
          if memcmp (hdr1 (wavhdr l)) (lit "RIFF") 3
             || memcmp (hdr2 (wavhdr l)) (lit "WAVE") 4
          then Some (failed "Unsupported format." None)
          else
            match chunk_walk fuel f l with
            | None => None
            | Some (inl msg) => Some (failed msg None)
            | Some (inr l) => Some (wav2adpcm_finish l)
            end
      end
  end.

(** ** Container: ADPCM WAV to PCM WAV *)

(** The decoding step of [adpcm2wav]: the content of [pcmbuf], as samples. *)
Definition decode_payload (channels : Z) (adpcmbuf : list Z)
           (pcmsize adpcmsize : Z) : option (list Z) :=
  let pcmbuf := malloc (pcmsize / 2) in
  if channels =? 1 then
    out <- adpcm2pcm adpcmbuf adpcmsize ;;
    pcmbuf <- store_at pcmbuf 0 out ;;
    written pcmbuf
  else
    out <- adpcm2pcm adpcmbuf (adpcmsize / 2) ;;
    pcmbuf <- store_at pcmbuf 0 out ;;
    out <- adpcm2pcm (skipn (Z.to_nat (adpcmsize / 2)) adpcmbuf)
                        (adpcmsize / 2) ;;
    pcmbuf <- store_at pcmbuf (pcmsize / 4) out ;;
    samples <- written pcmbuf ;;
    interleave samples pcmsize.

(** The test that guards the decoder: [true] when the header is refused. *)
Definition adpcm2wav_refuses (h : wavhdr_t) : bool :=
  memcmp (hdr1 h) (lit "RIFF") 4
  || memcmp (hdr2 h) (lit "WAVEfmt ") 8
  || memcmp (hdr3 h) (lit "data") 4
  || negb (hdrsize h =? 0x10)
  || negb (format h =? 20)
  || (negb (channels h =? 1) && negb (channels h =? 2))
  || negb (bits h =? 4).

(** [malloc(size)] gives a null pointer for a request that no allocation
    can meet, one above [PTRDIFF_MAX]. *)
Definition malloc_null (size : Z) : bool := 2 ^ 63 <=? size.

(** [adpcm2wav(infile, outfile)].  A negative data size field is a size of
    2^64 - 2^31 or more once converted to [size_t]: [adpcmbuf] is then a
    null pointer, which [fread] is given without a test, and the bytes that
    are left in the file are stored through it. *)
Definition adpcm2wav (infile : option (list byte)) : outcome :=
  match infile with
  | None => failed "Cannot open %s" None
  | Some bytes =>
      let '(f, got, r) := fread (fopen_rb bytes) 44 in
      if negb (r =? 1) then failed "Cannot read header." None else
      let h := wavhdr_of_bytes got in
      if adpcm2wav_refuses h then failed "Unsupported format." None else
      let asize := usize (datasize h) in
      let psize := usize (asize * 4) in
      let '(f, adpcm, r) := fread f asize in
      if malloc_null asize && (0 <? Z.of_nat (List.length adpcm))
      then Undefined else
      if negb (r =? 1) then failed "Cannot read data." None else
      match decode_payload (channels h) (uchars_of_bytes adpcm) psize asize with
      | None => Undefined
      | Some pcmbuf =>
          let bsz := wrap16 (usize (channels h * 2)) in
          let bps := wrap32 (freq h * bsz) in
          let dsize := wrap32 psize in
          let h := mkWavhdr (hdr1 h) (wrap32 (usize (dsize + 44 - 8)))
                            (hdr2 h) (hdrsize h) 1 (channels h) (freq h)
                            bps bsz 16 (hdr3 h) dsize in
          let '(out, r1) := fwrite [] (wavhdr_bytes h) 44 in
          let '(out, r2) := if r1 =? 1
                            then fwrite out (bytes_of_shorts pcmbuf) psize
                            else (out, 1) in
          if negb (r1 =? 1) || negb (r2 =? 1)
          then failed "Cannot write WAV data." (Some out)
          else Exited (mkExit 0 None (Some out))
      end
  end.

(** ** Sound effect channels ([snd_sfxmgr.c]) *)

Module Sfx.

(** The command codes of the AICA interface that the functions below use. *)
Inductive aica_cmd_t : Type := AICA_CMD_CHAN.
Inductive aica_ch_cmd_t : Type := AICA_CH_CMD_STOP.

(** A channel command packet, header and channel part. *)
Record packet : Type := mkPacket {
  cmd : aica_cmd_t;
  timestamp : Z;
  size : Z;
  cmd_id : Z;
  chan_cmd : aica_ch_cmd_t;
  base : Z;
  type : Z;
  length : Z;
  loop : Z;
  loopstart : Z;
  loopend : Z;
  freq : Z;
  vol : Z;
  pan : Z
}.

Section Manager.

(** The packet size of the interface header. *)
Variable AICA_CMDSTR_CHANNEL_SIZE : Z.

(** The value of [a << n] on [int] where C leaves it undefined, that is for
    a shift count of 32 or more. *)
Variable shl_undef : Z -> Z -> Z.

(** [a << n] on [int]: the count is in range for [0 <= n < 32] and the
    result is kept in 32 bits, so that [1 << 31] is [INT_MIN]. *)
Definition shl_int (a n : Z) : Z :=
  if (0 <=? n) && (n <? 32) then wrap32 (a * 2 ^ n) else shl_undef a n.

(** [snd_sfx_stop(chn)]: [snd_sh4_to_aica] appends the packet to the queue. *)
Definition snd_sfx_stop (chn : Z) (queue : list packet) : list packet :=
  queue ++ [mkPacket AICA_CMD_CHAN 0 AICA_CMDSTR_CHANNEL_SIZE chn
                     AICA_CH_CMD_STOP 0 0 0 0 0 0 44100 0 0].

(** [sfx_inuse & (1 << i)], the [int] converted to [uint64]. *)
Definition inuse_test (sfx_inuse i : Z) : Z :=
  Z.land sfx_inuse (u64 (shl_int 1 i)).

(** The loop of [snd_sfx_stop_all], [n] turns from index [i]. *)
Fixpoint stop_all_loop (n : nat) (i : Z) (sfx_inuse : Z)
         (queue : list packet) : list packet :=
  match n with
  | O => queue
  | S n =>
      if negb (inuse_test sfx_inuse i =? 0)
      then stop_all_loop n (i + 1) sfx_inuse queue
      else stop_all_loop n (i + 1) sfx_inuse (snd_sfx_stop i queue)
  end.

Definition snd_sfx_stop_all (sfx_inuse : Z) (queue : list packet)
  : list packet :=
  stop_all_loop 64 0 sfx_inuse queue.

(** The channels a queue of packets addresses. *)
Definition channels_of (queue : list packet) : list Z := map cmd_id queue.

End Manager.

(** The shift of the SH-4 ([SHLD]) and of x86, which take the count
    modulo 32. *)
Definition shl_mod32 (a n : Z) : Z := wrap32 (a * 2 ^ (n mod 32)).

End Sfx.

(** ** Sample inputs *)

(** A chunk: id, length of the body, body. *)
Definition riff_chunk (id : string) (body : list byte) : list byte :=
  lit id ++ le_bytes 4 (Z.of_nat (List.length body)) ++ body.

(** The body of the [fmt ] chunk of a 16-bit PCM file at 44100 Hz whose
    block alignment field is 2. *)
Definition pcm_fmt (nchannels : Z) : list byte :=
  le_bytes 2 1 ++ le_bytes 2 nchannels ++ le_bytes 4 44100
  ++ le_bytes 4 88200 ++ le_bytes 2 2 ++ le_bytes 2 16.

(** The body of a [smpl] chunk with one loop. *)
Definition smpl_body (ty s e : Z) : list byte :=
  repeat x00 36 ++ le_bytes 4 0 ++ le_bytes 4 ty ++ le_bytes 4 s
  ++ le_bytes 4 e ++ le_bytes 4 0 ++ le_bytes 4 0.

(** The eight samples of the end-to-end scenario of the specification. *)
Definition sample_pcm : list Z := [0; 100; -100; 200; -200; 300; -300; 400].

(** A mono PCM file: [fmt ] then [data], no [smpl]. *)
Definition wav_plain : list byte :=
  lit "RIFF" ++ le_bytes 4 52 ++ lit "WAVE"
  ++ riff_chunk "fmt " (pcm_fmt 1)
  ++ riff_chunk "data" (bytes_of_shorts sample_pcm).

(** The same with a loop from sample 2 to sample 6. *)
Definition wav_loop : list byte :=
  lit "RIFF" ++ le_bytes 4 120 ++ lit "WAVE"
  ++ riff_chunk "fmt " (pcm_fmt 1)
  ++ riff_chunk "data" (bytes_of_shorts sample_pcm)
  ++ riff_chunk "smpl" (smpl_body 0 2 6).

(** [wav_loop] with the fourth byte of the file changed. *)
Definition wav_rifx : list byte := lit "RIFX" ++ skipn 4 wav_loop.

(** A file whose [smpl] chunk comes before its [data] chunk. *)
Definition wav_smpl_first : list byte :=
  lit "RIFF" ++ le_bytes 4 120 ++ lit "WAVE"
  ++ riff_chunk "fmt " (pcm_fmt 1)
  ++ riff_chunk "smpl" (smpl_body 0 2 6)
  ++ riff_chunk "data" (bytes_of_shorts sample_pcm).

(** A stack of zeroes. *)
Definition zero_stack : locals :=
  mkLocals (mkWavhdr [] 0 [] 0 0 0 0 0 0 0 [] 0) [] 0 0 0 0 0 0 0
           false false 0 0 None.

(** ** Channels of an interleaved buffer *)

(** The samples of channel [c] (0 left, 1 right) of a buffer of interleaved
    stereo frames. *)
Definition channel_samples (c : nat) (buffer : list Z) : list Z :=
  map (fun j => nth (j * 2 + c) buffer 0)
      (seq 0 (Nat.div (List.length buffer) 2)).

(** ** Streams: reading on *)

(** The stream [n] bytes further, its end-of-file indicator clear. *)
Definition advance (f : FILE) (n : Z) : FILE :=
  mkFILE (content f) (pos f + n) false.

(** ** Headers as objects *)

(** The fields of the header hold values of their C types. *)
Definition wavhdr_valid (h : wavhdr_t) : Prop :=
  List.length (hdr1 h) = 4%nat /\ List.length (hdr2 h) = 8%nat
  /\ List.length (hdr3 h) = 4%nat
  /\ fits_int (totalsize h) /\ fits_int (hdrsize h)
  /\ fits_short (format h) /\ fits_short (channels h)
  /\ fits_int (freq h) /\ fits_int (byte_per_sec h)
  /\ fits_short (blocksize h) /\ fits_short (bits h)
  /\ fits_int (datasize h).

(** ** Sound effect channels: allocation and playing ([snd_sfxmgr.c]) *)

Module SfxMgr.

(** The channel commands of the AICA interface that the functions below
    use. *)
Inductive aica_ch_cmd_t : Type := AICA_CH_CMD_STOP | AICA_CH_CMD_START.

(** [snd_effect_t], without the list links. *)
Record snd_effect_t : Type := mkEffect {
  locl : Z;          (* uint32 *)
  locr : Z;          (* uint32 *)
  len : Z;           (* uint32 *)
  rate : Z;          (* uint16 *)
  stereo : bool;     (* uint16 : 1 *)
  fmt : Z            (* uint16 : 2 *)
}.

(** The fields of a channel command packet as the functions assign them. *)
Record packet : Type := mkPacket {
  cmd : Sfx.aica_cmd_t;
  timestamp : Z;
  size : Z;
  cmd_id : Z;
  chan_cmd : aica_ch_cmd_t;
  base : Z;
  type : Z;
  length : Z;
  loop : Z;
  loopstart : Z;
  loopend : Z;
  freq : Z;
  vol : Z;
  pan : Z
}.

(** What goes to the sound processor: [snd_sh4_to_aica] with a packet,
    [snd_sh4_to_aica_stop] and [snd_sh4_to_aica_start]. *)
Inductive event : Type :=
| Send (p : packet)
| QueueStop
| QueueStart.

Section Channels.

(** The packet size of the interface header. *)
Variable AICA_CMDSTR_CHANNEL_SIZE : Z.

(** The value of [1 << chn] for a shift count of 32 or more. *)
Variable shl_undef : Z -> Z -> Z.

(** The [for] loop of [snd_sfx_chn_alloc], [n] turns from [chn]: the value
    of [chn] after the loop. *)
Fixpoint alloc_loop (n : nat) (chn : Z) (sfx_inuse : Z) : Z :=
  match n with
  | O => chn
  | S n =>
      if Sfx.inuse_test shl_undef sfx_inuse chn =? 0 then chn
      else alloc_loop n (chn + 1) sfx_inuse
  end.

(** [snd_sfx_chn_alloc()]: the value returned and [sfx_inuse] after the
    call.  [1 << chn] is an [int], converted to [uint64] for the [|=]. *)
Definition snd_sfx_chn_alloc (sfx_inuse : Z) : Z * Z :=
  let chn := alloc_loop 64 0 sfx_inuse in
  if 64 <=? chn then (-1, sfx_inuse)
  else (chn, Z.lor sfx_inuse (u64 (Sfx.shl_int shl_undef 1 chn))).

(** [snd_sfx_chn_free(chn)]: [sfx_inuse] after the call.  [~(1 << chn)] is
    an [int], converted to [uint64] for the [&=]. *)
Definition snd_sfx_chn_free (chn : Z) (sfx_inuse : Z) : Z :=
  Z.land sfx_inuse (u64 (Z.lnot (Sfx.shl_int shl_undef 1 chn))).

(** [snd_sfx_play_chn(chn, idx, vol, pan)]: what is sent; the call returns
    [chn]. *)
Definition snd_sfx_play_chn (chn : Z) (t : snd_effect_t) (vol pan : Z)
  : list event :=
  let size := wrap32 (len t) in
  let size := if 65535 <=? size then 65534 else size in
  let p := mkPacket Sfx.AICA_CMD_CHAN 0 AICA_CMDSTR_CHANNEL_SIZE chn
                    AICA_CH_CMD_START (locl t) (fmt t) size 0 0 size
                    (rate t) vol in
  if negb (stereo t) then [Send (p pan)]
  else [QueueStop;
        Send (p 0);
        Send (mkPacket Sfx.AICA_CMD_CHAN 0 AICA_CMDSTR_CHANNEL_SIZE
                       (iadd chn 1) AICA_CH_CMD_START (locr t) (fmt t) size
                       0 0 size (rate t) vol 255);
        QueueStart].

(** The [while] loop of [snd_sfx_play], for at most [fuel] turns: [chn] and
    [moved] after the loop. *)
Fixpoint play_loop (fuel : nat) (sfx_nextchan sfx_inuse chn moved : Z)
  : option (Z * Z) :=
  match fuel with
  | O => None
  | S fuel =>
      if negb (Sfx.inuse_test shl_undef sfx_inuse chn =? 0) then
        let chn := Z.rem (iadd chn 1) 64 in
        if sfx_nextchan =? chn then Some (chn, moved)
        else play_loop fuel sfx_nextchan sfx_inuse chn (iadd moved 1)
      else Some (chn, moved)
  end.

(** [snd_sfx_play(idx, vol, pan)]: the value returned, [sfx_nextchan] after
    the call and what is sent. *)
Definition snd_sfx_play (fuel : nat) (sfx_nextchan sfx_inuse : Z)
           (t : snd_effect_t) (vol pan : Z)
  : option (Z * Z * list event) :=
  match play_loop fuel sfx_nextchan sfx_inuse sfx_nextchan 0 with
  | None => None
  | Some (chn, moved) =>
      if negb (moved =? 0) && (chn =? sfx_nextchan)
      then Some (-1, sfx_nextchan, [])
      else Some (chn, Z.rem (iadd chn 2) 64,
                 snd_sfx_play_chn chn t vol pan)
  end.

End Channels.

End SfxMgr.

(** ** Sound effects from memory ([snd_sfx_load_mem]) *)

Module SfxLoad.

(** A buffer of bytes read as an array of [uint16]; a last odd byte is not
    a whole element. *)
Fixpoint uint16s_of_bytes (bs : list byte) : list Z :=
  match bs with
  | lo :: hi :: t => le_decode [lo; hi] :: uint16s_of_bytes t
  | _ => []
  end.

Definition bytes_of_uint16s (l : list Z) : list byte :=
  flat_map (le_bytes 2) l.

(** What a call that returns a handle leaves behind: the effect, the
    buffers copied to sound memory by [spu_memload], each with its address,
    and the bytes of the caller's sample buffer after the call. *)
Record loaded : Type := mkLoaded {
  effect : SfxMgr.snd_effect_t;
  uploads : list (Z * list byte);
  sample_after : list byte
}.

Section Loader.

(** The sample format codes of the AICA interface header. *)
Variable AICA_SM_16BIT AICA_SM_8BIT AICA_SM_ADPCM : Z.

(** The first loop of the stereo PCM branch, [n] turns from [i]:
    [sepbuf[i / 2] = pSampleW[i + 1]].  [None] when an access falls outside
    an array. *)
Fixpoint right_loop (n i : nat) (pSampleW sepbuf : list Z)
  : option (list Z) :=
  match n with
  | O => Some sepbuf
  | S n =>
      if (Nat.ltb (i + 1) (List.length pSampleW))
         && (Nat.ltb (Nat.div i 2) (List.length sepbuf))
      then right_loop n (i + 2) pSampleW
                      (store sepbuf (Nat.div i 2) (nth (i + 1) pSampleW 0))
      else None
  end.

(** The second loop, in place: [pSampleW[i / 2] = pSampleW[i]]. *)
Fixpoint left_loop (n i : nat) (pSampleW : list Z) : option (list Z) :=
  match n with
  | O => Some pSampleW
  | S n =>
      if Nat.ltb i (List.length pSampleW)
      then left_loop n (i + 2)
                     (store pSampleW (Nat.div i 2) (nth i pSampleW 0))
      else None
  end.

(** [spu_memload(to, from, n)] for an address that [snd_mem_malloc] gave:
    nothing is copied to the address 0; [None] when [from] has fewer than
    [n] bytes. *)
Definition spu_memload (to : Z) (from : list byte) (n : Z)
  : option (list (Z * list byte)) :=
  if to =? 0 then Some []
  else if n <=? Z.of_nat (List.length from)
       then Some [(to, ztake n from)]
       else None.

(** [snd_sfx_load_mem(pSample, format, freq, chan, len)].  [pSample] is
    [None] for a null pointer; [malloc_t] and [malloc_buf] tell whether the
    two [malloc] of the call succeed, [locl_addr] and [locr_addr] are what
    the calls of [snd_mem_malloc] return.  The result is [None] when the
    call has no defined behaviour, [Some None] when it returns
    [SFXHND_INVALID]. *)
Definition snd_sfx_load_mem (pSample : option (list byte))
           (format freq chan len : Z) (malloc_t malloc_buf : bool)
           (locl_addr locr_addr : Z) : option (option loaded) :=
  match pSample with
  | None => Some None
  | Some sample =>
      if len =? 0 then Some None
      else if negb malloc_t then Some None
      else
        let stereo := Z.odd chan in
        let fmt := format mod 4 in
        if chan =? 0 then
          let tlen := len in
          let tlen := if negb (format =? AICA_SM_8BIT)
                      then Z.shiftr tlen 1 else tlen in
          up <- spu_memload locl_addr sample len ;;
          let tlen := if format =? AICA_SM_ADPCM
                      then u32 (tlen * 4) else tlen in
          Some (Some (mkLoaded
                        (SfxMgr.mkEffect locl_addr 0 tlen freq stereo fmt)
                        up sample))
        else if (chan =? 1) && (format =? AICA_SM_16BIT) then
          if negb malloc_buf then Some None
          else
            let half := len / 2 in
            let turns := Z.to_nat ((half + 1) / 2) in
            let pSampleW := uint16s_of_bytes sample in
            let sepbuf := repeat 0 (Z.to_nat (half / 2)) in
            sepbuf <- right_loop turns 0 pSampleW sepbuf ;;
            pSampleW <- left_loop turns 0 pSampleW ;;
            let sample := overlay sample (bytes_of_uint16s pSampleW) in
            upl <- spu_memload locl_addr sample half ;;
            upr <- spu_memload locr_addr (bytes_of_uint16s sepbuf) half ;;
            Some (Some (mkLoaded
                          (SfxMgr.mkEffect locl_addr locr_addr (len / 4)
                                           freq stereo fmt)
                          (upl ++ upr) sample))
        else if (chan =? 1) && (format =? AICA_SM_ADPCM) then
          if negb malloc_buf then Some None
          else
            let half := len / 2 in
            if half + half <=? Z.of_nat (List.length sample) then
              let buf2 := ztake half (zdrop half sample) in
              upl <- spu_memload locl_addr sample half ;;
              upr <- spu_memload locr_addr buf2 half ;;
              Some (Some (mkLoaded
                            (SfxMgr.mkEffect locl_addr locr_addr len freq
                                             stereo fmt)
                            (upl ++ upr) sample))
            else None
        else Some None
  end.

End Loader.

End SfxLoad.

(** ** Sound effects from files ([snd_sfx_load]) *)

Module SfxFile.

(** [fs_seek(fd, off, SEEK_SET)] and [fs_read(fd, p, n)] on a file that is
    read from memory: the read stores the next [n] bytes of the file, or
    those that are left, and moves the position behind them. *)
Definition fs_seek (f : FILE) (off : Z) : FILE :=
  mkFILE (content f) off (eof f).

Definition fs_read (f : FILE) (n : Z) : FILE * list byte :=
  let got := ztake n (remaining f) in
  (mkFILE (content f) (pos f + Z.of_nat (List.length got)) (eof f), got).

(** The locals that [snd_sfx_load] declares without a value: what they hold
    before the reads. *)
Record locals : Type := mkLocals {
  len : Z;              (* uint32 *)
  avgBytesPerSec : Z;   (* uint32 *)
  blockAlign : Z;       (* uint32 *)
  stereo : Z;           (* uint16 *)
  bitsize : Z;          (* uint16 *)
  fmt : Z               (* uint16 *)
}.

Section Loader.

(** The sample format codes of the AICA interface header. *)
Variable AICA_SM_16BIT AICA_SM_8BIT AICA_SM_ADPCM : Z.

(** [snd_sfx_load] from the point where the header has been read: [fd] is
    the file behind the data length, [mapped] tells whether [fs_mmap] gives
    a mapping of the file, [malloc_tmp], [malloc_t] and [malloc_buf] whether
    the [malloc] of the data buffer, of the effect and of the second buffer
    succeed, none of which the function tests; [locl_addr] and [locr_addr]
    are what the calls of [snd_mem_malloc] return.  The result is [None]
    when the call has no defined behaviour, [Some None] when it returns
    [SFXHND_INVALID]. *)
Definition snd_sfx_load_body (fmt stereo hz blockAlign len : Z) (fd : FILE)
           (mapped malloc_tmp malloc_t malloc_buf : bool)
           (locl_addr locr_addr : Z) : option (option SfxLoad.loaded) :=
  tmp <- (if mapped then Some (remaining fd)
          else if malloc_tmp || (len =? 0)
               then Some (snd (fs_read fd len))
               else None) ;;
  if negb malloc_t then None
  else
    let rate := hz mod 2 ^ 16 in
    let st := Z.odd (stereo - 1) in
    if stereo =? 1 then
      let tlen := len in
      let tlen := if (blockAlign =? 2) || (fmt =? 20)
                  then Z.shiftr tlen 1 else tlen in
      up <- SfxLoad.spu_memload locl_addr tmp len ;;
      let '(tfmt, tlen) :=
        if fmt =? 20 then (AICA_SM_ADPCM, u32 (tlen * 4))
        else if blockAlign =? 2 then (AICA_SM_16BIT, tlen)
             else (AICA_SM_8BIT, tlen) in
      Some (Some (SfxLoad.mkLoaded
                    (SfxMgr.mkEffect locl_addr 0 tlen rate st (tfmt mod 4))
                    up tmp))
    else if (stereo =? 2) && (fmt =? 1) then
      if blockAlign <? 2 then Some None
      else if negb (malloc_buf || (len / 2 =? 0)) then None
      else
        let half := len / 2 in
        let turns := Z.to_nat ((half + 1) / 2) in
        let tmpW := SfxLoad.uint16s_of_bytes tmp in
        let sepbuf := repeat 0 (Z.to_nat (half / 2)) in
        sepbuf <- SfxLoad.right_loop turns 0 tmpW sepbuf ;;
        tmpW <- SfxLoad.left_loop turns 0 tmpW ;;
        let tmp := overlay tmp (SfxLoad.bytes_of_uint16s tmpW) in
        upl <- SfxLoad.spu_memload locl_addr tmp half ;;
        upr <- SfxLoad.spu_memload
                 locr_addr (SfxLoad.bytes_of_uint16s sepbuf) half ;;
        Some (Some (SfxLoad.mkLoaded
                      (SfxMgr.mkEffect locl_addr locr_addr (len / 4)
                                       rate st (AICA_SM_16BIT mod 4))
                      (upl ++ upr) tmp))
    else if (stereo =? 2) && (fmt =? 20) then
      if negb (malloc_buf || (len / 2 =? 0)) then None
      else
        let half := len / 2 in
        if half + half <=? Z.of_nat (List.length tmp) then
          let buf2 := ztake half (zdrop half tmp) in
          upl <- SfxLoad.spu_memload locl_addr tmp half ;;
          upr <- SfxLoad.spu_memload locr_addr buf2 half ;;
          Some (Some (SfxLoad.mkLoaded
                        (SfxMgr.mkEffect locl_addr locr_addr len rate
                                         st (AICA_SM_ADPCM mod 4))
                        (upl ++ upr) tmp))
        else None
    else Some None.

(** [snd_sfx_load(fn)].  [file] is the content of the file, [None] when it
    cannot be opened; [stack] is what the uninitialised locals hold.
    [strncmp] with ["WAVE"] is 0 exactly when the four bytes are those of
    the literal. *)
Definition snd_sfx_load (file : option (list byte)) (stack : locals)
           (mapped malloc_tmp malloc_t malloc_buf : bool)
           (locl_addr locr_addr : Z) : option (option SfxLoad.loaded) :=
  match file with
  | None => Some None
  | Some bytes =>
      let fd := fopen_rb bytes in
      let hz := le_bytes 4 0 in
      let fd := fs_seek fd 0x08 in
      let '(fd, got) := fs_read fd 4 in
      let hz := overlay hz got in
      if memcmp hz (lit "WAVE") 4 then Some None
      else
        let fd := fs_seek fd 0x14 in
        let '(fd, got) := fs_read fd 2 in
        let fmt := le_decode (overlay (le_bytes 2 (fmt stack)) got) in
        let '(fd, got) := fs_read fd 2 in
        let stereo := le_decode (overlay (le_bytes 2 (stereo stack)) got) in
        let '(fd, got) := fs_read fd 4 in
        let hz := le_decode (overlay hz got) in
        let '(fd, got) := fs_read fd 4 in
        let '(fd, got) := fs_read fd 4 in
        let blockAlign :=
          le_decode (overlay (le_bytes 4 (blockAlign stack)) got) in
        let fd := fs_seek fd 0x22 in
        let '(fd, got) := fs_read fd 2 in
        let fd := fs_seek fd 0x28 in
        let '(fd, got) := fs_read fd 4 in
        let len := le_decode (overlay (le_bytes 4 (len stack)) got) in
        snd_sfx_load_body fmt stereo hz blockAlign len fd
                          mapped malloc_tmp malloc_t malloc_buf
                          locl_addr locr_addr
  end.

End Loader.

End SfxFile.

(** * Properties *)

(** ** Machine integers *)

Lemma wrap32_id z : fits_int z -> wrap32 z = z.
Proof.
  unfold fits_int, wrap32. intros H.
  rewrite Z.mod_small; lia.
Qed.

Lemma wrap16_id z : fits_short z -> wrap16 z = z.
Proof.
  unfold fits_short, wrap16. intros H.
  rewrite Z.mod_small; lia.
Qed.

Lemma quot_abs_bound a b : 0 < b -> - Z.abs a <= Z.quot a b <= Z.abs a.
Proof.
  intros Hb.
  destruct (Z.le_gt_cases 0 a) as [Ha | Ha].
  - rewrite Z.abs_eq by lia.
    pose proof (Z.quot_pos a b Ha Hb).
    assert (Z.quot a b <= a); [| lia].
    rewrite Z.quot_div_nonneg by lia.
    apply Z.div_le_upper_bound; nia.
  - rewrite Z.abs_neq by lia.
    replace a with (- (- a)) at 2 3 by lia.
    rewrite Z.quot_opp_l by lia.
    pose proof (Z.quot_pos (- a) b ltac:(lia) Hb).
    assert (Z.quot (- a) b <= - a); [| lia].
    rewrite Z.quot_div_nonneg by lia.
    apply Z.div_le_upper_bound; nia.
Qed.

(** ** Codec core *)

Lemma limit_range val min max :
  min <= max -> min <= limit val min max <= max.
Proof.
  intros H. unfold limit.
  destruct (val <? min) eqn:E1; [lia |].
  destruct (val >? max) eqn:E2; lia.
Qed.

Lemma limit_id val min max : min <= val <= max -> limit val min max = val.
Proof.
  intros H. unfold limit.
  destruct (val <? min) eqn:E1; [lia |].
  destruct (val >? max) eqn:E2; lia.
Qed.

(** A 4-bit code is one of sixteen values. *)
Lemma code_cases c :
  0 <= c <= 15 ->
  In c [0; 1; 2; 3; 4; 5; 6; 7; 8; 9; 10; 11; 12; 13; 14; 15].
Proof.
  intros H. simpl.
  assert (c = 0 \/ c = 1 \/ c = 2 \/ c = 3 \/ c = 4 \/ c = 5 \/ c = 6 \/ c = 7
          \/ c = 8 \/ c = 9 \/ c = 10 \/ c = 11 \/ c = 12 \/ c = 13
          \/ c = 14 \/ c = 15) by lia.
  intuition auto.
Qed.

Ltac each_code c H :=
  apply code_cases in H; simpl in H;
  repeat (destruct H as [H | H]; [subst c |]); [.. | contradiction].

Lemma index_scale_low_bits c :
  0 <= c <= 15 -> tbl index_scale c = tbl index_scale (Z.land c 7).
Proof. intros H. each_code c H; reflexivity. Qed.

(** The two updates differ only in how they index [index_scale]. *)
Lemma update_agree st c : 0 <= c <= 15 -> enc_update st c = dec_update st c.
Proof.
  intros H. unfold enc_update, dec_update.
  rewrite <- (index_scale_low_bits c H). reflexivity.
Qed.

Lemma enc_update_ok st val : state_ok (enc_update st val).
Proof.
  unfold state_ok, enc_update; simpl.
  split; apply limit_range; lia.
Qed.

Lemma dec_update_ok st val : state_ok (dec_update st val).
Proof.
  unfold state_ok, dec_update; simpl.
  split; apply limit_range; lia.
Qed.

Lemma diff_lookup_bound c : 0 <= c <= 15 -> -15 <= tbl diff_lookup c <= 15.
Proof. intros H. each_code c H; cbv; split; discriminate. Qed.

Lemma index_scale_bound c : 0 <= c <= 15 -> 230 <= tbl index_scale c <= 614.
Proof. intros H. each_code c H; cbv; split; discriminate. Qed.

(** On a state that satisfies the invariant no [int] operation of the
    update overflows: the update is the one of the specification, in
    unbounded arithmetic. *)
Lemma enc_update_exact st c :
  state_ok st -> 0 <= c <= 15 ->
  enc_update st c =
  mkState (limit (signal st + Z.quot (step st * tbl diff_lookup c) 8)
                 (-32768) 32767)
          (limit (step st * tbl index_scale c / 256) 127 24576).
Proof.
  intros [Hs Hg] Hc.
  pose proof (diff_lookup_bound c Hc) as Hd.
  pose proof (index_scale_bound c Hc) as Hi.
  unfold enc_update, iadd, idiv, imul, ishr.
  pose proof (quot_abs_bound (step st * tbl diff_lookup c) 8 ltac:(lia)) as Hq.
  assert (Z.abs (step st * tbl diff_lookup c) <= 24576 * 15) as Ha
    by (rewrite Z.abs_mul; rewrite (Z.abs_eq (step st)) by lia;
        assert (Z.abs (tbl diff_lookup c) <= 15) by lia; nia).
  rewrite (wrap32_id (step st * tbl diff_lookup c)) by (unfold fits_int; lia).
  rewrite (wrap32_id (Z.quot _ 8)) by (unfold fits_int; lia).
  rewrite (wrap32_id (signal st + _)) by (unfold fits_int; lia).
  rewrite (wrap32_id (step st * tbl index_scale c)) by (unfold fits_int; nia).
  rewrite Z.shiftr_div_pow2 by lia.
  reflexivity.
Qed.

(** The code the encoder chooses is a 4-bit code. *)
Lemma quantize_range st s :
  state_ok st -> fits_short s -> 0 <= quantize st s <= 15.
Proof.
  intros [Hs Hg] Hin. unfold fits_short in Hin.
  unfold quantize, isub, imul, idiv, iabs, iadd.
  rewrite (wrap32_id (s - signal st)) by (unfold fits_int; lia).
  rewrite (wrap32_id ((s - signal st) * 8)) by (unfold fits_int; lia).
  pose proof (quot_abs_bound ((s - signal st) * 8) (step st) ltac:(lia)) as Hq.
  set (d := Z.quot ((s - signal st) * 8) (step st)) in *.
  assert (Z.abs ((s - signal st) * 8) <= 65535 * 8) as Ha by lia.
  rewrite (wrap32_id d) by (unfold fits_int; lia).
  rewrite (wrap32_id (Z.abs d)) by (unfold fits_int; lia).
  pose proof (quot_abs_bound (Z.abs d) 2 ltac:(lia)) as Hq2.
  rewrite Z.abs_idemp in Hq2.
  assert (0 <= Z.quot (Z.abs d) 2) as Hpos by (apply Z.quot_pos; lia).
  rewrite (wrap32_id (Z.quot (Z.abs d) 2)) by (unfold fits_int; lia).
  set (v := Z.quot (Z.abs d) 2) in *.
  destruct (v >? 7) eqn:E1; destruct (d <? 0) eqn:E2;
    try rewrite wrap32_id by (unfold fits_int; lia); lia.
Qed.


(** On a state within the bounds and a 16-bit sample the quantisation is
    the one of the specification, in unbounded arithmetic. *)
Lemma quantize_exact st s :
  state_ok st -> fits_short s ->
  quantize st s =
  let scaled := Z.quot ((s - signal st) * 8) (step st) in
  let magnitude := Z.min (Z.quot (Z.abs scaled) 2) 7 in
  if scaled <? 0 then magnitude + 8 else magnitude.
Proof.
  intros [Hs Hg] Hin. unfold fits_short in Hin.
  unfold quantize, isub, imul, idiv, iabs, iadd. cbv zeta.
  rewrite (wrap32_id (s - signal st)) by (unfold fits_int; lia).
  rewrite (wrap32_id ((s - signal st) * 8)) by (unfold fits_int; lia).
  pose proof (quot_abs_bound ((s - signal st) * 8) (step st) ltac:(lia)) as Hq.
  remember (Z.quot ((s - signal st) * 8) (step st)) as d eqn:Ed.
  assert (Z.abs ((s - signal st) * 8) <= 65535 * 8) as Ha by lia.
  rewrite (wrap32_id d) by (unfold fits_int; lia).
  rewrite (wrap32_id (Z.abs d)) by (unfold fits_int; lia).
  pose proof (quot_abs_bound (Z.abs d) 2 ltac:(lia)) as Hq2.
  rewrite Z.abs_idemp in Hq2.
  assert (0 <= Z.quot (Z.abs d) 2) as Hpos by (apply Z.quot_pos; lia).
  rewrite (wrap32_id (Z.quot (Z.abs d) 2)) by (unfold fits_int; lia).
  remember (Z.quot (Z.abs d) 2) as v eqn:Ev.
  destruct (v >? 7) eqn:E1; destruct (d <? 0) eqn:E2;
    try rewrite wrap32_id by (unfold fits_int; lia); lia.
Qed.

(** Induction on a list two elements at a time, as the encoder reads it. *)
Lemma list_pair_ind (A : Type) (P : list A -> Prop) :
  P [] -> (forall x, P [x]) ->
  (forall x y l, P l -> P (x :: y :: l)) ->
  forall l, P l.
Proof.
  intros H0 H1 H2 l.
  enough (P l /\ forall x, P (x :: l)) by tauto.
  induction l as [| a l [IHl IHl']]; split; auto.
Qed.

Lemma usize_pred n : 0 < n < 2 ^ 64 -> usize (n - 1) = n - 1.
Proof. intros H. unfold usize. apply Z.mod_small. lia. Qed.

(** The equations of the four loops. *)

Lemma pcm2adpcm_loop_eq s1 s2 rest length st :
  pcm2adpcm_loop (s1 :: s2 :: rest) length st =
  let val1 := quantize st s1 in
  let st1 := enc_update st val1 in
  let val2 := quantize st1 s2 in
  let st2 := enc_update st1 val2 in
  let data := u8 (Z.lor val1 (Z.shiftl val2 4)) in
  if usize (length - 1) =? 0 then Some [data]
  else option_map (cons data) (pcm2adpcm_loop rest (usize (length - 1)) st2).
Proof. reflexivity. Qed.

Lemma pcm2adpcm_states_eq s1 s2 rest length st :
  pcm2adpcm_states (s1 :: s2 :: rest) length st =
  let st1 := enc_update st (quantize st s1) in
  let st2 := enc_update st1 (quantize st1 s2) in
  if usize (length - 1) =? 0 then [st1; st2]
  else st1 :: st2 :: pcm2adpcm_states rest (usize (length - 1)) st2.
Proof. reflexivity. Qed.

Lemma adpcm2pcm_loop_eq data rest length st :
  adpcm2pcm_loop (data :: rest) length st =
  let st1 := dec_update st (Z.land data 15) in
  let st2 := dec_update st1 (Z.land (Z.shiftr data 4) 15) in
  if usize (length - 1) =? 0
  then Some [wrap16 (signal st1); wrap16 (signal st2)]
  else option_map (fun l => wrap16 (signal st1) :: wrap16 (signal st2) :: l)
                  (adpcm2pcm_loop rest (usize (length - 1)) st2).
Proof. reflexivity. Qed.

Lemma adpcm2pcm_states_eq data rest length st :
  adpcm2pcm_states (data :: rest) length st =
  let st1 := dec_update st (Z.land data 15) in
  let st2 := dec_update st1 (Z.land (Z.shiftr data 4) 15) in
  if usize (length - 1) =? 0 then [st1; st2]
  else st1 :: st2 :: adpcm2pcm_states rest (usize (length - 1)) st2.
Proof. reflexivity. Qed.

Lemma pcm2adpcm_states_ok src :
  forall length st, Forall state_ok (pcm2adpcm_states src length st).
Proof.
  induction src as [| x | x y l IH] using list_pair_ind; intros;
    try (simpl; constructor).
  rewrite pcm2adpcm_states_eq. cbv zeta.
  destruct (usize (length - 1) =? 0);
    repeat (constructor; try apply enc_update_ok).
  apply IH.
Qed.

Lemma adpcm2pcm_states_ok src :
  forall length st, Forall state_ok (adpcm2pcm_states src length st).
Proof.
  induction src as [| d l IH]; intros; [simpl; constructor |].
  rewrite adpcm2pcm_states_eq. cbv zeta.
  destruct (usize (length - 1) =? 0);
    repeat (constructor; try apply dec_update_ok).
  apply IH.
Qed.

(** The samples the decoder stores are the signals of its states. *)
Lemma adpcm2pcm_loop_states src :
  forall length st out,
    adpcm2pcm_loop src length st = Some out ->
    out = map signal (adpcm2pcm_states src length st).
Proof.
  induction src as [| d l IH]; intros length st out H.
  - discriminate.
  - rewrite adpcm2pcm_loop_eq in H. rewrite adpcm2pcm_states_eq.
    cbv zeta in *.
    rewrite !(wrap16_id (signal (dec_update _ _))) in H
      by (apply dec_update_ok).
    destruct (usize (length - 1) =? 0).
    + injection H as <-. reflexivity.
    + destruct (adpcm2pcm_loop l _ _) eqn:E; [| discriminate].
      injection H as <-. simpl map. rewrite (IH _ _ _ E). reflexivity.
Qed.

(** Packing two codes in a byte and taking them out again. *)
Lemma nibble_pack v1 v2 :
  0 <= v1 <= 15 -> 0 <= v2 <= 15 ->
  Z.land (u8 (Z.lor v1 (Z.shiftl v2 4))) 15 = v1 /\
  Z.land (Z.shiftr (u8 (Z.lor v1 (Z.shiftl v2 4))) 4) 15 = v2.
Proof.
  intros H1 H2. each_code v1 H1; each_code v2 H2; split; reflexivity.
Qed.

Lemma encode_sample_ok st s : state_ok (snd (encode_sample st s)).
Proof. apply enc_update_ok. Qed.

(** Decoding what the encoder stored replays the encoder's predictor. *)
Lemma decode_encoded src :
  forall length st out,
    state_ok st -> Forall fits_short src ->
    pcm2adpcm_loop src length st = Some out ->
    adpcm2pcm_loop out length st
    = Some (map signal (pcm2adpcm_states src length st)).
Proof.
  induction src as [| x | x y l IH] using list_pair_ind;
    intros length st out Hst Hsrc H; try discriminate.
  inversion Hsrc as [| ? ? Hx Hsrc']; subst.
  inversion Hsrc' as [| ? ? Hy Hl]; subst.
  rewrite pcm2adpcm_loop_eq in H. rewrite pcm2adpcm_states_eq.
  cbv zeta in *.
  set (v1 := quantize st x) in *.
  set (st1 := enc_update st v1) in *.
  set (v2 := quantize st1 y) in *.
  set (st2 := enc_update st1 v2) in *.
  assert (0 <= v1 <= 15) as Hv1 by (apply quantize_range; assumption).
  assert (state_ok st1) as Hst1 by apply enc_update_ok.
  assert (0 <= v2 <= 15) as Hv2 by (apply quantize_range; assumption).
  assert (state_ok st2) as Hst2 by apply enc_update_ok.
  destruct (nibble_pack v1 v2 Hv1 Hv2) as [Hlo Hhi].
  assert (forall tl, adpcm2pcm_loop (u8 (Z.lor v1 (Z.shiftl v2 4)) :: tl)
                                    length st
                     = if usize (length - 1) =? 0
                       then Some [signal st1; signal st2]
                       else option_map (fun o => signal st1 :: signal st2 :: o)
                              (adpcm2pcm_loop tl (usize (length - 1)) st2))
    as Hdec.
  { intros tl. rewrite adpcm2pcm_loop_eq. cbv zeta. rewrite Hlo, Hhi.
    rewrite <- (update_agree st v1 Hv1). fold st1.
    rewrite <- (update_agree st1 v2 Hv2). fold st2.
    rewrite !wrap16_id by (apply enc_update_ok). reflexivity. }
  destruct (usize (length - 1) =? 0) eqn:E.
  - injection H as <-. rewrite Hdec. reflexivity.
  - destruct (pcm2adpcm_loop l _ st2) as [o |] eqn:El; [| discriminate].
    injection H as <-. rewrite Hdec.
    rewrite (IH _ _ _ Hst2 Hl El). reflexivity.
Qed.

Lemma pcm2adpcm_loop_length src :
  forall n st,
    0 < n < 2 ^ 64 -> 2 * n <= Z.of_nat (List.length src) ->
    exists out, pcm2adpcm_loop src n st = Some out
                /\ Z.of_nat (List.length out) = n.
Proof.
  induction src as [| x | x y l IH] using list_pair_ind;
    intros n st Hn Hlen; simpl List.length in Hlen; try lia.
  rewrite pcm2adpcm_loop_eq. cbv zeta. rewrite usize_pred by assumption.
  destruct (n - 1 =? 0) eqn:E.
  - eexists; split; [reflexivity |]. simpl List.length. lia.
  - match goal with
    | |- context [pcm2adpcm_loop l (n - 1) ?s] =>
        destruct (IH (n - 1) s) as [o [Ho Hl]]; [lia | lia |]
    end.
    rewrite Ho.
    eexists; split; [reflexivity |]. simpl List.length. lia.
Qed.

Lemma adpcm2pcm_loop_length src :
  forall n st,
    0 < n < 2 ^ 64 -> n <= Z.of_nat (List.length src) ->
    exists out, adpcm2pcm_loop src n st = Some out
                /\ Z.of_nat (List.length out) = 2 * n.
Proof.
  induction src as [| d l IH]; intros n st Hn Hlen;
    simpl List.length in Hlen; try lia.
  rewrite adpcm2pcm_loop_eq. cbv zeta. rewrite usize_pred by assumption.
  destruct (n - 1 =? 0) eqn:E.
  - eexists; split; [reflexivity |]. simpl List.length. lia.
  - match goal with
    | |- context [adpcm2pcm_loop l (n - 1) ?s] =>
        destruct (IH (n - 1) s) as [o [Ho Hl]]; [lia | lia |]
    end.
    rewrite Ho.
    eexists; split; [reflexivity |]. simpl List.length. lia.
Qed.

(** The byte count of the encoder for a [length] argument in range. *)
Lemma pcm2adpcm_length src len :
  0 < len < 2 ^ 64 - 3 ->
  2 * ((len + 3) / 4) <= Z.of_nat (List.length src) ->
  exists out, pcm2adpcm src len = Some out
              /\ Z.of_nat (List.length out) = (len + 3) / 4.
Proof.
  intros Hlen Hsrc. unfold pcm2adpcm.
  assert (usize (len + 3) = len + 3) as ->
    by (unfold usize; apply Z.mod_small; lia).
  apply pcm2adpcm_loop_length; [| assumption].
  split.
  - apply Z.div_str_pos. lia.
  - apply Z.div_lt_upper_bound; lia.
Qed.

(** ** Stereo transform *)

Lemma store_length (A : Type) (l : list A) :
  forall i v, List.length (store l i v) = List.length l.
Proof.
  induction l as [| x l IH]; intros [| i] v; simpl; auto.
Qed.

(** Storing at the first index not yet filled extends the filled prefix. *)
Lemma firstn_store (A : Type) (l : list A) :
  forall i v,
    (i < List.length l)%nat ->
    firstn (S i) (store l i v) = firstn i l ++ [v].
Proof.
  induction l as [| x l IH]; intros [| i] v H; simpl in H; try lia.
  - reflexivity.
  - change (x :: firstn (S i) (store l i v) = x :: firstn i l ++ [v]).
    rewrite IH by lia. reflexivity.
Qed.

Lemma deinterleave_loop_closed n :
  forall i buf buf1 buf2,
    List.length buf1 = (i + n)%nat -> List.length buf2 = (i + n)%nat ->
    Z.of_nat (i + n) <= 2^30 ->
    deinterleave_loop n (Z.of_nat i) buf buf1 buf2 =
    Some (firstn i buf1 ++ map (fun j => nth (j * 2 + 0) buf 0) (seq i n),
          firstn i buf2 ++ map (fun j => nth (j * 2 + 1) buf 0) (seq i n)).
Proof.
  induction n as [| n IH]; intros i buf buf1 buf2 H1 H2 Hr.
  - simpl. rewrite !app_nil_r.
    rewrite !firstn_all2 by lia. reflexivity.
  - cbn [deinterleave_loop].
    destruct (Z.of_nat i * 2 + 1 <? 2^31) eqn:T;
      [| apply Z.ltb_ge in T; lia].
    replace (Z.to_nat (Z.of_nat i * 2 + 0)) with (i * 2 + 0)%nat by lia.
    replace (Z.to_nat (Z.of_nat i * 2 + 1)) with (i * 2 + 1)%nat by lia.
    rewrite Nat2Z.id.
    replace (Z.of_nat i + 1) with (Z.of_nat (S i)) by lia.
    rewrite IH by (rewrite ?store_length; lia).
    rewrite !firstn_store by lia.
    cbn [seq map]. rewrite <- !app_assoc. reflexivity.
Qed.

Lemma interleave_loop_closed n :
  forall i buf1 buf2 buf,
    List.length buf = (2 * (i + n))%nat ->
    Z.of_nat (i + n) <= 2^30 ->
    interleave_loop n (Z.of_nat i) buf1 buf2 buf =
    Some (firstn (i * 2) buf
          ++ flat_map (fun j => [nth j buf1 0; nth j buf2 0]) (seq i n)).
Proof.
  induction n as [| n IH]; intros i buf1 buf2 buf H Hr.
  - simpl. rewrite app_nil_r. rewrite firstn_all2 by lia. reflexivity.
  - cbn [interleave_loop].
    destruct (Z.of_nat i * 2 + 1 <? 2^31) eqn:T;
      [| apply Z.ltb_ge in T; lia].
    replace (Z.to_nat (Z.of_nat i * 2 + 0)) with (i * 2 + 0)%nat by lia.
    replace (Z.to_nat (Z.of_nat i * 2 + 1)) with (i * 2 + 1)%nat by lia.
    rewrite Nat2Z.id.
    replace (Z.of_nat i + 1) with (Z.of_nat (S i)) by lia.
    rewrite IH by (rewrite ?store_length; lia).
    replace (S i * 2)%nat with (S (i * 2 + 1)) by lia.
    rewrite firstn_store by (rewrite store_length; lia).
    replace (i * 2 + 1)%nat with (S (i * 2 + 0)) by lia.
    rewrite firstn_store by lia.
    rewrite Nat.add_0_r.
    cbn [seq flat_map]. rewrite <- !app_assoc. reflexivity.
Qed.

(** Past 2^30 frames the index of either loop leaves the range of [int]. *)
Lemma deinterleave_loop_overflow n :
  forall i buf buf1 buf2,
    (0 < n)%nat -> 2^30 < Z.of_nat (i + n) ->
    deinterleave_loop n (Z.of_nat i) buf buf1 buf2 = None.
Proof.
  induction n as [| n IH]; intros i buf buf1 buf2 Hn Hr; [lia |].
  cbn [deinterleave_loop].
  destruct (Z.of_nat i * 2 + 1 <? 2^31) eqn:T; [| reflexivity].
  apply Z.ltb_lt in T.
  replace (Z.of_nat i + 1) with (Z.of_nat (S i)) by lia.
  apply IH; lia.
Qed.

Lemma interleave_loop_overflow n :
  forall i buf1 buf2 buf,
    (0 < n)%nat -> 2^30 < Z.of_nat (i + n) ->
    interleave_loop n (Z.of_nat i) buf1 buf2 buf = None.
Proof.
  induction n as [| n IH]; intros i buf1 buf2 buf Hn Hr; [lia |].
  cbn [interleave_loop].
  destruct (Z.of_nat i * 2 + 1 <? 2^31) eqn:T; [| reflexivity].
  apply Z.ltb_lt in T.
  replace (Z.of_nat i + 1) with (Z.of_nat (S i)) by lia.
  apply IH; lia.
Qed.

(** [interleave] and [deinterleave] on more than 2^30 frames. *)
Lemma interleave_overflow (buffer : list Z) (size : Z) :
  2^30 < size / 4 ->
  interleave buffer size = None.
Proof.
  intros Hr. unfold interleave.
  destruct ((0 <=? size) && (size mod 4 =? 0)
            && (2 * (size / 4) <=? Z.of_nat (List.length buffer)));
    [| reflexivity].
  change (interleave_loop (Z.to_nat (size / 4)) 0)
    with (interleave_loop (Z.to_nat (size / 4)) (Z.of_nat 0)).
  rewrite interleave_loop_overflow by lia. reflexivity.
Qed.

Lemma deinterleave_overflow (buffer : list Z) (size : Z) :
  2^30 < size / 4 ->
  deinterleave buffer size = None.
Proof.
  intros Hr. unfold deinterleave.
  destruct ((0 <=? size) && (size mod 4 <? 2)
            && (2 * (size / 4) <=? Z.of_nat (List.length buffer)));
    [| reflexivity].
  change (deinterleave_loop (Z.to_nat (size / 4)) 0)
    with (deinterleave_loop (Z.to_nat (size / 4)) (Z.of_nat 0)).
  rewrite deinterleave_loop_overflow by lia. reflexivity.
Qed.

(** Reading a buffer two samples at a time gives the buffer back. *)
Lemma pairs_of_buffer (buffer : list Z) :
  forall n,
    List.length buffer = (2 * n)%nat ->
    flat_map (fun j => [nth (j * 2 + 0) buffer 0; nth (j * 2 + 1) buffer 0])
             (seq 0 n) = buffer.
Proof.
  induction buffer as [| x | x y l IH] using list_pair_ind;
    intros n H; simpl in H.
  - destruct n; [reflexivity | lia].
  - lia.
  - destruct n as [| n]; [lia |].
    cbn [seq flat_map].
    rewrite <- seq_shift, flat_map_concat_map, map_map,
      <- flat_map_concat_map.
    change ([x; y] ++ flat_map
              (fun j => [nth (j * 2 + 0) l 0; nth (j * 2 + 1) l 0])
              (seq 0 n) = x :: y :: l).
    rewrite IH by lia. reflexivity.
Qed.

Lemma memcpy_all (A : Type) (dst src : list A) :
  List.length src = List.length dst -> memcpy dst 0 src = src.
Proof.
  intros H. unfold memcpy. simpl.
  rewrite skipn_all2 by lia. apply app_nil_r.
Qed.

Lemma memcpy_halves (A : Type) (buffer L R : list A) (n : nat) :
  List.length buffer = (2 * n)%nat ->
  List.length L = n -> List.length R = n ->
  memcpy (memcpy buffer 0 L) n R = L ++ R.
Proof.
  intros H HL HR. unfold memcpy. cbn [firstn app Nat.add].
  rewrite HL, HR.
  rewrite firstn_app, firstn_all2 by lia.
  replace (n - List.length L)%nat with 0%nat by lia.
  cbn [firstn]. rewrite app_nil_r.
  rewrite skipn_all2 by (rewrite length_app, length_skipn; lia).
  rewrite app_nil_r. reflexivity.
Qed.

(** The result of [deinterleave] on a buffer of [2 * n] samples. *)
Lemma deinterleave_closed (buffer : list Z) (n : nat) :
  List.length buffer = (2 * n)%nat ->
  Z.of_nat n <= 2^30 ->
  deinterleave buffer (2 * Z.of_nat (List.length buffer)) =
  Some (map (fun j => nth (j * 2 + 0) buffer 0) (seq 0 n)
        ++ map (fun j => nth (j * 2 + 1) buffer 0) (seq 0 n)).
Proof.
  intros H Hr. unfold deinterleave.
  replace (2 * Z.of_nat (List.length buffer)) with (Z.of_nat n * 4) by lia.
  rewrite Z_mod_mult, Z_div_mult by lia.
  replace ((0 <=? Z.of_nat n * 4) && (0 <? 2)
           && (2 * Z.of_nat n <=? Z.of_nat (List.length buffer)))
    with true by (symmetry; rewrite !andb_true_iff; repeat split; lia).
  rewrite Nat2Z.id.
  change (deinterleave_loop n 0) with (deinterleave_loop n (Z.of_nat 0)).
  rewrite deinterleave_loop_closed by (rewrite ?repeat_length; lia).
  cbn [firstn app].
  set (L := map (fun j => nth (j * 2 + 0) buffer 0) (seq 0 n)).
  set (R := map (fun j => nth (j * 2 + 1) buffer 0) (seq 0 n)).
  assert (List.length L = n) as HL
      by (unfold L; rewrite length_map, length_seq; reflexivity).
  assert (List.length R = n) as HR
      by (unfold R; rewrite length_map, length_seq; reflexivity).
  f_equal. apply memcpy_halves; assumption.
Qed.

Lemma flat_map_pair_length (A B : Type) (f g : A -> B) (l : list A) :
  List.length (flat_map (fun j => [f j; g j]) l) = (2 * List.length l)%nat.
Proof.
  induction l as [| a l IH]; simpl in *; lia.
Qed.

(** The result of [interleave] on two channel buffers of [n] samples. *)
Lemma interleave_closed (L R : list Z) (n : nat) :
  List.length L = n -> List.length R = n ->
  Z.of_nat n <= 2^30 ->
  interleave (L ++ R) (Z.of_nat n * 4) =
  Some (flat_map (fun j => [nth j L 0; nth j R 0]) (seq 0 n)).
Proof.
  intros HL HR Hr. unfold interleave.
  rewrite Z_mod_mult, Z_div_mult by lia.
  assert (List.length (L ++ R) = (2 * n)%nat) as HLR
      by (rewrite length_app; lia).
  replace ((0 <=? Z.of_nat n * 4) && (0 =? 0)
           && (2 * Z.of_nat n <=? Z.of_nat (List.length (L ++ R))))
    with true
    by (symmetry; rewrite !andb_true_iff; repeat split; lia).
  rewrite Nat2Z.id.
  change (interleave_loop n 0) with (interleave_loop n (Z.of_nat 0)).
  rewrite interleave_loop_closed by (rewrite ?repeat_length; lia).
  cbn [Nat.mul firstn app].
  rewrite skipn_app, skipn_all2 by lia.
  replace (n - List.length L)%nat with 0%nat by lia.
  cbn [skipn app].
  rewrite memcpy_all.
  - f_equal. rewrite !flat_map_concat_map. f_equal.
    apply map_ext_in. intros j Hj. apply in_seq in Hj.
    rewrite app_nth1 by lia. reflexivity.
  - rewrite HLR, flat_map_pair_length, length_seq. reflexivity.
Qed.

Lemma nth_map_seq (A : Type) (f : nat -> A) (n j : nat) (d : A) :
  (j < n)%nat -> nth j (map f (seq 0 n)) d = f j.
Proof.
  intros H.
  rewrite (nth_indep _ d (f 0%nat)) by (rewrite length_map, length_seq; lia).
  rewrite (map_nth f (seq 0 n) 0%nat j).
  rewrite seq_nth by lia. reflexivity.
Qed.

Lemma interleave_halves (buffer : list Z) (n : nat) :
  List.length buffer = (2 * n)%nat ->
  Z.of_nat n <= 2^30 ->
  interleave (map (fun j => nth (j * 2 + 0) buffer 0) (seq 0 n)
              ++ map (fun j => nth (j * 2 + 1) buffer 0) (seq 0 n))
             (2 * Z.of_nat (List.length buffer))
  = Some buffer.
Proof.
  intros H Hr.
  replace (2 * Z.of_nat (List.length buffer)) with (Z.of_nat n * 4) by lia.
  rewrite interleave_closed
    by (rewrite ?length_map, ?length_seq; first [reflexivity | assumption]).
  f_equal.
  etransitivity; [| apply (pairs_of_buffer buffer n H)].
  rewrite !flat_map_concat_map. f_equal.
  apply map_ext_in. intros j Hj. apply in_seq in Hj.
  rewrite !nth_map_seq by lia. reflexivity.
Qed.

(** ** Bytes and streams *)

Lemma ztake_firstn (A : Type) (l : list A) :
  forall n, ztake n l = firstn (Z.to_nat n) l.
Proof.
  induction l as [| x l IH]; intros n; simpl.
  - rewrite firstn_nil. reflexivity.
  - destruct (n <=? 0) eqn:E.
    + replace (Z.to_nat n) with 0%nat by lia. reflexivity.
    + replace (Z.to_nat n) with (S (Z.to_nat (n - 1))) by lia.
      simpl. rewrite IH. reflexivity.
Qed.

Lemma zdrop_skipn (A : Type) (l : list A) :
  forall n, zdrop n l = skipn (Z.to_nat n) l.
Proof.
  induction l as [| x l IH]; intros n; simpl.
  - rewrite skipn_nil. reflexivity.
  - destruct (n <=? 0) eqn:E.
    + replace (Z.to_nat n) with 0%nat by lia. reflexivity.
    + replace (Z.to_nat n) with (S (Z.to_nat (n - 1))) by lia.
      simpl. rewrite IH. reflexivity.
Qed.

Lemma bytes_eqb_eq a : forall b, bytes_eqb a b = true <-> a = b.
Proof.
  induction a as [| x a IH]; intros [| y b]; simpl; split; intros H;
    try discriminate; try reflexivity.
  - apply andb_true_iff in H as [Hx Ha].
    apply Byte.byte_dec_bl in Hx. apply IH in Ha. subst. reflexivity.
  - injection H as -> ->. apply andb_true_iff. split.
    + apply Byte.byte_dec_lb. reflexivity.
    + apply IH. reflexivity.
Qed.

(** [memcmp] answers 0 exactly when the first [n] bytes agree. *)
Lemma memcmp_false a b n : memcmp a b n = false <-> firstn n a = firstn n b.
Proof.
  unfold memcmp. rewrite negb_false_iff. apply bytes_eqb_eq.
Qed.

Lemma memcmp_true a b n : memcmp a b n = true <-> firstn n a <> firstn n b.
Proof.
  rewrite <- memcmp_false. destruct (memcmp a b n); split; congruence.
Qed.

Lemma le_bytes_length n : forall z, List.length (le_bytes n z) = n.
Proof. induction n as [| n IH]; intros z; simpl; auto. Qed.

Lemma overlay_full old got :
  List.length got = List.length old -> overlay old got = got.
Proof.
  intros H. unfold overlay. rewrite skipn_all2 by lia. apply app_nil_r.
Qed.

(** A read of bytes that are there. *)
Lemma fread_positioned f bs rest size :
  positioned f (bs ++ rest) ->
  Z.of_nat (List.length bs) = size -> 0 < size ->
  exists f',
    fread f size = (f', bs, 1) /\ positioned f' rest
    /\ content f' = content f.
Proof.
  intros (Hpos & Heof & Hrem) Hlen Hsize.
  unfold fread.
  destruct (size <=? 0) eqn:E; [lia |].
  rewrite Hrem, ztake_firstn.
  replace (Z.to_nat size) with (List.length bs + 0)%nat by lia.
  rewrite firstn_app_2. cbn [firstn]. rewrite app_nil_r.
  replace (Z.of_nat (List.length bs) =? size) with true by lia.
  eexists. split; [reflexivity |].
  split; [| reflexivity].
  unfold positioned, remaining in *. cbn [pos eof content].
  repeat split; [lia | assumption |].
  rewrite zdrop_skipn in *.
  replace (Z.to_nat (pos f + size))
    with (List.length bs + Z.to_nat (pos f))%nat by lia.
  rewrite <- skipn_skipn, Hrem.
  rewrite skipn_app, skipn_all, Nat.sub_diag. reflexivity.
Qed.

Lemma fread_u32_positioned f old bs rest :
  positioned f (bs ++ rest) -> List.length bs = 4%nat ->
  exists f',
    fread_u32 f old = (f', le_decode bs) /\ positioned f' rest
    /\ content f' = content f.
Proof.
  intros Hf Hlen.
  destruct (fread_positioned f bs rest 4 Hf) as (f' & Hr & Hf' & Hc);
    [lia | lia |].
  unfold fread_u32. rewrite Hr.
  rewrite overlay_full by (rewrite le_bytes_length; assumption).
  exists f'. auto.
Qed.

(** A read of a word that is there, whatever it holds. *)
Lemma fread_u32_skip f old bs :
  positioned f bs -> (4 <= List.length bs)%nat ->
  exists f' v,
    fread_u32 f old = (f', v) /\ positioned f' (skipn 4 bs)
    /\ content f' = content f.
Proof.
  intros Hf Hlen.
  rewrite <- (firstn_skipn 4 bs) in Hf.
  destruct (fread_u32_positioned f old _ _ Hf) as (f' & Hr & Hf' & Hc).
  - rewrite length_firstn. lia.
  - eauto.
Qed.

Lemma fread_each_positioned old :
  forall f bs rest,
    positioned f (bs ++ rest) -> List.length bs = List.length old ->
    exists f',
      fread_each f old = (f', bs) /\ positioned f' rest
      /\ content f' = content f.
Proof.
  induction old as [| o old IH]; intros f bs rest Hf Hlen.
  - destruct bs; [| discriminate]. exists f. simpl. auto.
  - destruct bs as [| b bs]; [discriminate |].
    change ((b :: bs) ++ rest) with ([b] ++ bs ++ rest) in Hf.
    destruct (fread_positioned f [b] _ 1 Hf) as (f1 & Hr & Hf1 & Hc1);
      [reflexivity | lia |].
    destruct (IH f1 bs rest Hf1) as (f2 & Hr2 & Hf2 & Hc2);
      [simpl in Hlen; lia |].
    cbn [fread_each]. rewrite Hr, Hr2.
    exists f2. split; [reflexivity | split; [assumption | congruence]].
Qed.

(** ** The chunk walk *)

(** What a read leaves of the stream. *)
Lemma fread_stream f size f' got r :
  fread f size = (f', got, r) ->
  content f' = content f /\ (0 <= pos f -> 0 <= pos f')
  /\ (r = 1 -> eof f' = eof f).
Proof.
  unfold fread. intros H.
  destruct (size <=? 0) eqn:E.
  - injection H as <- <- <-. split; [| split]; auto.
  - destruct (_ =? size) eqn:E'; injection H as <- <- <-; cbn;
      (split; [| split]); auto; try lia; try discriminate.
Qed.

Lemma u32_nonneg z : 0 <= u32 z.
Proof. unfold u32. apply Z.mod_pos_bound. lia. Qed.

(** The chunk header read changes the chunk id and length only. *)
Lemma read_chunk_header_locals f l :
  snd (read_chunk_header f l)
  = set_chunk l (chunk_id f l) (len (snd (read_chunk_header f l))).
Proof.
  unfold chunk_id, read_chunk_header.
  destruct (fread_each f (dID l)) as [f1 id].
  destruct (fread_u32 f1 (len l)) as [f2 n].
  reflexivity.
Qed.

Lemma fmt_chunk_inr f l f' l' :
  fmt_chunk f l = inr (f', l') ->
  exists h, l' = set_have_fmt (set_wavhdr l h) true.
Proof.
  unfold fmt_chunk. intros H.
  repeat match type of H with
         | context [let '(_, _) := ?e in _] => destruct e
         end.
  match type of H with
  | (if ?c then _ else _) = _ => destruct c; [discriminate |]
  end.
  injection H as <- <-. eauto.
Qed.

Lemma data_chunk_inr f l f' l' :
  data_chunk f l = inr (f', l') ->
  exists got,
    l' = set_pcm (set_nSampleLength l (Z.shiftr (len l) 1))
                 (len l) (len l / 4) (Some got).
Proof.
  unfold data_chunk. intros H.
  destruct (negb (have_fmt l)); [discriminate |].
  match type of H with
  | (if ?c then _ else _) = _ => destruct c; [discriminate |]
  end.
  cbn [len set_nSampleLength] in H.
  destruct (fread f (len l)) as [[f1 got] r].
  destruct (negb (r =? 1)); [discriminate |].
  injection H as <- <-. eauto.
Qed.

(** The shape of one turn: the test after [fseek] never holds. *)
Lemma chunk_step_eq f l :
  chunk_step f l =
  let f1 := fst (read_chunk_header f l) in
  let l1 := set_start (snd (read_chunk_header f l)) (u32 (ftell f1)) in
  if feof f1 then Fail "Invalid truncated WAVE header."
  else if negb (memcmp (chunk_id f l) (lit "smpl") 4)
       then Break (smpl_chunk f1 l1)
       else
         match (if negb (memcmp (chunk_id f l) (lit "fmt ") 4)
                then fmt_chunk f1 l1
                else if negb (memcmp (chunk_id f l) (lit "data") 4)
                     then data_chunk f1 l1
                     else inr (f1, l1)) with
         | inl msg => Fail msg
         | inr (f2, l2) => Next (fseek f2 (u32 (start l2 + len l2))) l2
         end.
Proof.
  unfold chunk_step, chunk_id.
  destruct (read_chunk_header f l) as [f1 l1]. cbn [fst snd].
  destruct (feof f1); [reflexivity |].
  cbn [dID set_start].
  destruct (negb (memcmp (dID l1) (lit "smpl") 4)); [reflexivity |].
  match goal with
  | |- match ?r with _ => _ end = match ?r' with _ => _ end =>
      change r' with r; destruct r as [msg | [f2 l2]]
  end; reflexivity.
Qed.

(** The walk is left at a [smpl] chunk and nowhere else. *)
Lemma chunk_step_Break f l l' :
  chunk_step f l = Break l' ->
  memcmp (chunk_id f l) (lit "smpl") 4 = false
  /\ feof (fst (read_chunk_header f l)) = false.
Proof.
  rewrite chunk_step_eq. cbv zeta.
  destruct (feof _); [discriminate |].
  destruct (memcmp (chunk_id f l) (lit "smpl") 4); [| auto].
  cbn [negb].
  match goal with
  | |- match ?r with _ => _ end = _ -> _ =>
      destruct r as [msg | [f2 l2]]; discriminate
  end.
Qed.

(** A turn that is followed by another one leaves the loop variables
    alone and the stream without its end-of-file indicator. *)
Lemma chunk_step_Next f l f' l' :
  chunk_step f l = Next f' l' ->
  eof f' = false /\ 0 <= pos f'
  /\ haveLoop l' = haveLoop l /\ loopType l' = loopType l
  /\ startLoop l' = startLoop l /\ endLoop l' = endLoop l
  /\ (memcmp (chunk_id f l) (lit "data") 4 = true ->
      nSampleLength l' = nSampleLength l /\ pcmbuf l' = pcmbuf l
      /\ pcmsize l' = pcmsize l /\ adpcmsize l' = adpcmsize l).
Proof.
  rewrite chunk_step_eq. cbv zeta.
  rewrite (read_chunk_header_locals f l).
  set (n := len (snd (read_chunk_header f l))).
  set (f1 := fst (read_chunk_header f l)).
  destruct (feof f1); [discriminate |].
  destruct (memcmp (chunk_id f l) (lit "smpl") 4); [| discriminate].
  cbn [negb].
  destruct (memcmp (chunk_id f l) (lit "fmt ") 4) eqn:Efmt; cbn [negb].
  - destruct (memcmp (chunk_id f l) (lit "data") 4) eqn:Edata; cbn [negb].
    + intros H. injection H as <- <-. cbn.
      repeat split; auto using u32_nonneg.
    + destruct (data_chunk _ _) as [msg | [f2 l2]] eqn:E; [discriminate |].
      intros H. injection H as <- <-.
      apply data_chunk_inr in E as [got ->]. cbn.
      repeat split; auto using u32_nonneg; discriminate.
  - destruct (fmt_chunk _ _) as [msg | [f2 l2]] eqn:E; [discriminate |].
    intros H. injection H as <- <-.
    apply fmt_chunk_inr in E as [h ->]. cbn.
    repeat split; auto using u32_nonneg.
Qed.

(** The RIFF header read leaves the loop variables and the buffers as the
    declarations initialised them. *)
Lemma read_riff_Some stack bytes f0 l0 :
  read_riff (fopen_rb bytes) (wav2adpcm_entry stack) = Some (f0, l0) ->
  eof f0 = false /\ 0 <= pos f0
  /\ haveLoop l0 = false /\ loopType l0 = 0
  /\ startLoop l0 = 0 /\ endLoop l0 = 0
  /\ nSampleLength l0 = 0 /\ pcmbuf l0 = None
  /\ pcmsize l0 = 0 /\ adpcmsize l0 = 0.
Proof.
  unfold read_riff. intros H.
  destruct (fread (fopen_rb bytes) 4) as [[f1 g1] r1] eqn:E1.
  destruct (r1 =? 1) eqn:R1; [| discriminate]. cbn [negb] in H.
  destruct (fread f1 4) as [[f2 g2] r2] eqn:E2.
  destruct (r2 =? 1) eqn:R2; [| discriminate]. cbn [negb] in H.
  destruct (fread f2 4) as [[f3 g3] r3] eqn:E3.
  destruct (r3 =? 1) eqn:R3; [| discriminate]. cbn [negb] in H.
  injection H as <- <-.
  apply fread_stream in E1 as (_ & P1 & F1).
  apply fread_stream in E2 as (_ & P2 & F2).
  apply fread_stream in E3 as (_ & P3 & F3).
  cbn in P1, F1. cbn.
  repeat split; auto; try lia.
  rewrite F3, F2, F1 by lia. reflexivity.
Qed.

(** Throughout the walk no loop has been recorded. *)
Lemma walking_inv stack bytes f0 l0 f l :
  read_riff (fopen_rb bytes) (wav2adpcm_entry stack) = Some (f0, l0) ->
  walking f0 l0 f l ->
  eof f = false /\ 0 <= pos f
  /\ haveLoop l = false /\ loopType l = 0
  /\ startLoop l = 0 /\ endLoop l = 0.
Proof.
  intros H0 W. induction W as [| f l f' l' W IH S].
  - apply read_riff_Some in H0. tauto.
  - apply chunk_step_Next in S.
    destruct S as (? & ? & -> & -> & -> & -> & _). tauto.
Qed.

Lemma walking_before_data_walking f0 l0 f l :
  walking_before_data f0 l0 f l -> walking f0 l0 f l.
Proof.
  induction 1; [constructor | econstructor; eassumption].
Qed.

(** Before the first [data] chunk nothing is loaded. *)
Lemma walking_before_data_inv stack bytes f0 l0 f l :
  read_riff (fopen_rb bytes) (wav2adpcm_entry stack) = Some (f0, l0) ->
  walking_before_data f0 l0 f l ->
  nSampleLength l = 0 /\ pcmbuf l = None
  /\ pcmsize l = 0 /\ adpcmsize l = 0.
Proof.
  intros H0 W. induction W as [| f l f' l' W IH D S].
  - apply read_riff_Some in H0. tauto.
  - apply chunk_step_Next in S.
    destruct S as (_ & _ & _ & _ & _ & _ & S).
    destruct (S D) as (-> & -> & -> & ->). assumption.
Qed.

(** The turns of [walking] are the turns of [chunk_walk]. *)
Lemma walking_chunk_walk f0 l0 f l :
  walking f0 l0 f l ->
  forall r fuel,
    chunk_walk fuel f l = Some r ->
    exists fuel0, forall fuel', (fuel0 <= fuel')%nat ->
                                chunk_walk fuel' f0 l0 = Some r.
Proof.
  induction 1 as [| f l f' l' W IH Hstep]; intros r fuel Hr.
  - exists fuel. revert f0 l0 Hr.
    induction fuel as [| fuel IHf]; intros f0 l0 Hr fuel' Hle;
      [discriminate |].
    destruct fuel' as [| fuel']; [lia |].
    cbn [chunk_walk] in *.
    destruct (chunk_step f0 l0); try assumption.
    apply IHf; [assumption | lia].
  - apply (IH r (S fuel)). cbn [chunk_walk]. rewrite Hstep. assumption.
Qed.

(** ** The [smpl] chunk *)

(** The reads that skip the sampler header, [k] words of it. *)
Lemma skip_words k :
  forall a f t bs,
    positioned f bs -> (4 * k <= List.length bs)%nat ->
    exists f' t',
      fold_left (fun ft (_ : nat) => fread_u32 (fst ft) (snd ft))
                (seq a k) (f, t) = (f', t')
      /\ positioned f' (skipn (4 * k) bs).
Proof.
  induction k as [| k IH]; intros a f t bs Hf Hlen.
  - exists f, t. split; [reflexivity | assumption].
  - destruct (fread_u32_skip f t bs Hf) as (f1 & t1 & Hr & Hf1 & _); [lia |].
    destruct (IH (S a) f1 t1 (skipn 4 bs) Hf1) as (f2 & t2 & Hr2 & Hf2).
    { rewrite length_skipn. lia. }
    exists f2, t2. split.
    + cbn [seq fold_left fst snd]. rewrite Hr. exact Hr2.
    + rewrite skipn_skipn in Hf2.
      replace (4 * S k)%nat with (4 * k + 4)%nat by lia. exact Hf2.
Qed.

(** The [smpl] branch on a chunk whose words are all there: [hdr] is the
    sampler header with the word that follows it, [ty], [s] and [e] are the
    loop type, the loop start and the loop end. *)
Lemma smpl_chunk_fields f l hdr ty s e tail :
  positioned f (hdr ++ ty ++ s ++ e ++ tail) ->
  List.length hdr = 40%nat -> List.length ty = 4%nat ->
  List.length s = 4%nat -> List.length e = 4%nat ->
  let l' := smpl_chunk f l in
  loopType l' = le_decode ty
  /\ startLoop l' = (if le_decode s >? nSampleLength l then 0
                     else le_decode s)
  /\ endLoop l' = (if le_decode e >? nSampleLength l then nSampleLength l
                   else le_decode e)
  /\ haveLoop l' = (if (le_decode ty =? 0) && (le_decode e >? 0) then true
                    else haveLoop l)
  /\ nSampleLength l' = nSampleLength l /\ pcmbuf l' = pcmbuf l
  /\ pcmsize l' = pcmsize l /\ adpcmsize l' = adpcmsize l.
Proof.
  intros Hf Hhdr Hty Hs He. unfold smpl_chunk.
  destruct (skip_words 9 0 f (temp l) _ Hf) as (f1 & t1 & -> & Hf1).
  { rewrite length_app. lia. }
  destruct (fread_u32_skip f1 t1 _ Hf1) as (f2 & t2 & -> & Hf2 & _).
  { rewrite length_skipn, length_app. lia. }
  rewrite skipn_skipn, skipn_app, skipn_all2 in Hf2 by lia.
  replace (4 + 4 * 9 - List.length hdr)%nat with 0%nat in Hf2 by lia.
  cbn [skipn app] in Hf2.
  destruct (fread_u32_positioned f2 (loopType l) ty _ Hf2 Hty)
    as (f3 & -> & Hf3 & _).
  destruct (fread_u32_positioned f3 (startLoop l) s _ Hf3 Hs)
    as (f4 & -> & Hf4 & _).
  destruct (fread_u32_positioned f4 (endLoop l) e _ Hf4 He)
    as (f5 & -> & Hf5 & _).
  destruct (fread_u32 f5 t2) as [f6 t3].
  destruct (fread_u32 f6 t3) as [f7 t4].
  cbn. repeat split; reflexivity.
Qed.

(** ** The encoding step *)

Lemma shorts_of_bytes_length bs :
  Z.of_nat (List.length (shorts_of_bytes bs))
  = Z.of_nat (List.length bs) / 2.
Proof.
  induction bs as [| x | x y l IH] using list_pair_ind.
  - reflexivity.
  - reflexivity.
  - cbn [shorts_of_bytes List.length].
    replace (Z.of_nat (S (S (List.length l))))
      with (1 * 2 + Z.of_nat (List.length l)) by lia.
    rewrite Z.div_add_l by lia. lia.
Qed.

Lemma written_map_Some l : written (map Some l) = Some l.
Proof.
  induction l as [| x l IH]; [reflexivity |].
  cbn [map written]. rewrite IH. reflexivity.
Qed.

Lemma malloc_length n : List.length (malloc n) = Z.to_nat n.
Proof. apply repeat_length. Qed.

(** With no buffer loaded the encoder reads through a null pointer. *)
Lemma encode_payload_null channels :
  encode_payload channels None 0 0 = None.
Proof.
  unfold encode_payload. destruct (channels =? 1); reflexivity.
Qed.

Lemma ceil_quarter k : (4 * k + 3) / 4 = k.
Proof.
  replace (4 * k + 3) with (k * 4 + 3) by lia.
  rewrite Z.div_add_l by lia. change (3 / 4) with 0. lia.
Qed.

Lemma quarter k : 4 * k / 4 = k.
Proof. rewrite Z.mul_comm. apply Z_div_mult. lia. Qed.

Lemma store_at_all (buf : list (option Z)) (data : list Z) :
  List.length data = List.length buf ->
  store_at buf 0 data = Some (map Some data).
Proof.
  intros H. unfold store_at.
  replace ((0 <=? 0) && (0 + Z.of_nat (List.length data)
                         <=? Z.of_nat (List.length buf)))
    with true by (symmetry; apply andb_true_iff; split; lia).
  change (Z.to_nat 0) with 0%nat.
  rewrite memcpy_all by (rewrite length_map; assumption).
  reflexivity.
Qed.

(** Mono: one call on the whole buffer of [4 * k] bytes, [k] bytes out. *)
Lemma encode_payload_mono pcmbuf k :
  Z.of_nat (List.length pcmbuf) = 4 * k -> 0 < k < 2 ^ 30 ->
  exists out,
    pcm2adpcm (shorts_of_bytes pcmbuf) (4 * k) = Some out
    /\ encode_payload 1 (Some pcmbuf) (4 * k) (4 * k / 4) = Some out
    /\ Z.of_nat (List.length out) = k.
Proof.
  intros Hlen Hk.
  destruct (pcm2adpcm_length (shorts_of_bytes pcmbuf) (4 * k))
    as (out & Hout & Hl).
  - lia.
  - rewrite shorts_of_bytes_length, Hlen, ceil_quarter.
    replace (4 * k) with (2 * k * 2) by lia. rewrite Z_div_mult by lia. lia.
  - rewrite ceil_quarter in Hl.
    exists out. split; [assumption |]. split; [| assumption].
    unfold encode_payload. cbn [Z.eqb Pos.eqb]. rewrite Hout, quarter.
    rewrite store_at_all by (rewrite malloc_length; lia).
    apply written_map_Some.
Qed.

(** Closes [true = b] for a conjunction [b] of integer comparisons. *)
Ltac tests_hold :=
  symmetry; rewrite ?andb_true_iff, ?Z.leb_le, ?Z.ltb_lt, ?Z.eqb_eq;
  repeat split; lia.

(** Stereo: the buffer of [8 * k] bytes is split in two channels of
    [2 * k] samples, each call stores [k] bytes, the left channel's first. *)
Lemma encode_payload_stereo channels pcmbuf k :
  (channels =? 1) = false ->
  Z.of_nat (List.length pcmbuf) = 8 * k -> 0 < k < 2 ^ 29 ->
  exists L R out1 out2,
    deinterleave (shorts_of_bytes pcmbuf) (8 * k) = Some (L ++ R)
    /\ Z.of_nat (List.length L) = 2 * k
    /\ Z.of_nat (List.length R) = 2 * k
    /\ pcm2adpcm (L ++ R) (8 * k / 2) = Some out1
    /\ pcm2adpcm R (8 * k / 2) = Some out2
    /\ Z.of_nat (List.length out1) = k
    /\ Z.of_nat (List.length out2) = k
    /\ encode_payload channels (Some pcmbuf) (8 * k) (8 * k / 4)
       = Some (out1 ++ out2).
Proof.
  intros Hch Hlen Hk.
  assert (8 * k / 2 = 4 * k) as E2
      by (replace (8 * k) with (4 * k * 2) by lia; apply Z_div_mult; lia).
  assert (8 * k / 4 = 2 * k) as E4
      by (replace (8 * k) with (2 * k * 4) by lia; apply Z_div_mult; lia).
  assert (2 * k / 2 = k) as E1
      by (replace (2 * k) with (k * 2) by lia; apply Z_div_mult; lia).
  pose proof (shorts_of_bytes_length pcmbuf) as Hs.
  rewrite Hlen, E2 in Hs.
  remember (shorts_of_bytes pcmbuf) as samples eqn:Es.
  assert (List.length samples = (2 * Z.to_nat (2 * k))%nat) as Hn by lia.
  assert (Z.of_nat (Z.to_nat (2 * k)) <= 2^30) as Hb by lia.
  pose proof (deinterleave_closed samples _ Hn Hb) as Hd.
  replace (2 * Z.of_nat (List.length samples)) with (8 * k) in Hd by lia.
  remember (map (fun j => nth (j * 2 + 0) samples 0)
                (seq 0 (Z.to_nat (2 * k)))) as L eqn:EL.
  remember (map (fun j => nth (j * 2 + 1) samples 0)
                (seq 0 (Z.to_nat (2 * k)))) as R eqn:ER.
  assert (List.length L = Z.to_nat (2 * k)) as HL
      by (subst L; rewrite length_map, length_seq; reflexivity).
  assert (List.length R = Z.to_nat (2 * k)) as HR
      by (subst R; rewrite length_map, length_seq; reflexivity).
  destruct (pcm2adpcm_length (L ++ R) (4 * k)) as (out1 & Ho1 & Hl1);
    [lia | rewrite ceil_quarter, length_app; lia |].
  destruct (pcm2adpcm_length R (4 * k)) as (out2 & Ho2 & Hl2);
    [lia | rewrite ceil_quarter; lia |].
  rewrite ceil_quarter in Hl1, Hl2.
  exists L, R, out1, out2. rewrite E2.
  repeat (split; [assumption || lia |]).
  unfold encode_payload. rewrite Hch, <- Es, Hd, E2, E4, E1, Ho1.
  unfold store_at at 1. rewrite malloc_length.
  replace ((0 <=? 0) && (0 + Z.of_nat (List.length out1)
                         <=? Z.of_nat (Z.to_nat (2 * k))))
    with true by tests_hold.
  rewrite skipn_app, skipn_all2 by lia.
  replace (Z.to_nat (2 * k) - List.length L)%nat with 0%nat by lia.
  cbn [skipn app]. rewrite Ho2.
  unfold store_at.
  assert (List.length (memcpy (malloc (2 * k)) (Z.to_nat 0) (map Some out1))
          = Z.to_nat (2 * k)) as Hm.
  { unfold memcpy. cbn [Z.to_nat firstn app Nat.add].
    rewrite length_app, length_skipn, length_map, malloc_length. lia. }
  rewrite Hm.
  replace ((0 <=? k) && (k + Z.of_nat (List.length out2)
                         <=? Z.of_nat (Z.to_nat (2 * k))))
    with true by tests_hold.
  change (Z.to_nat 0) with 0%nat.
  rewrite (memcpy_halves _ (malloc (2 * k)) (map Some out1)
                         (map Some out2) (Z.to_nat k)).
  - rewrite <- map_app. apply written_map_Some.
  - rewrite malloc_length. lia.
  - rewrite length_map. lia.
  - rewrite length_map. lia.
Qed.

(** ** Sound effect channels *)

Section StopAll.

Variable AICA_CMDSTR_CHANNEL_SIZE : Z.
Variable shl_undef : Z -> Z -> Z.

Local Abbreviation stop_all_loop :=
  (Sfx.stop_all_loop AICA_CMDSTR_CHANNEL_SIZE shl_undef).
Local Abbreviation inuse_test := (Sfx.inuse_test shl_undef).

(** The channels stopped by the loop are those of its range on which the
    test of the loop is 0. *)
Lemma stop_all_loop_channels n :
  forall i sfx_inuse queue c,
    In c (Sfx.channels_of (stop_all_loop n i sfx_inuse queue)) <->
    In c (Sfx.channels_of queue)
    \/ (i <= c < i + Z.of_nat n /\ inuse_test sfx_inuse c = 0).
Proof.
  induction n as [| n IH]; intros i m q c.
  - cbn [Sfx.stop_all_loop]. split; [auto | intros [H | H]; [auto | lia]].
  - cbn [Sfx.stop_all_loop].
    destruct (Sfx.inuse_test shl_undef m i =? 0) eqn:E; cbn [negb];
      rewrite IH.
    + unfold Sfx.snd_sfx_stop, Sfx.channels_of.
      rewrite map_app, in_app_iff. cbn [map Sfx.cmd_id In].
      apply Z.eqb_eq in E.
      split.
      * intros [[H | [H | []]] | H]; [auto | subst c; right | right];
          (split; [lia | tauto]).
      * intros [H | [H1 H2]]; [auto |].
        destruct (Z.eq_dec c i) as [-> | Hne]; [auto |].
        right. split; [lia | assumption].
    + apply Z.eqb_neq in E.
      split.
      * intros [H | H]; [auto | right]. split; [lia | tauto].
      * intros [H | [H1 H2]]; [auto |].
        destruct (Z.eq_dec c i) as [-> | Hne]; [contradiction |].
        right. split; [lia | assumption].
Qed.

(** The test of the loop on a channel below 31 looks at the bit of that
    channel. *)
Lemma inuse_test_low sfx_inuse c :
  0 <= c < 31 ->
  (inuse_test sfx_inuse c = 0 <-> Z.testbit sfx_inuse c = false).
Proof.
  intros Hc. unfold Sfx.inuse_test, Sfx.shl_int.
  replace ((0 <=? c) && (c <? 32)) with true by tests_hold.
  rewrite Z.mul_1_l.
  assert (0 < 2 ^ c < 2 ^ 31) as Hp.
  { split; [apply Z.pow_pos_nonneg; lia |].
    apply Z.pow_lt_mono_r; lia. }
  rewrite wrap32_id by (unfold fits_int; lia).
  unfold u64. rewrite Z.mod_small by lia.
  split.
  - intros H.
    assert (Z.testbit (Z.land sfx_inuse (2 ^ c)) c = false) as Hb
        by (rewrite H; apply Z.bits_0).
    rewrite Z.land_spec, Z.pow2_bits_true, andb_true_r in Hb by lia.
    exact Hb.
  - intros H. apply Z.bits_inj'. intros k Hk.
    rewrite Z.land_spec, Z.bits_0, Z.pow2_bits_eqb by lia.
    destruct (Z.eqb_spec c k) as [<- | Hne].
    + rewrite H. reflexivity.
    + apply andb_false_r.
Qed.

(** On channel 31 the test looks at the bits 31 to 63 together. *)
Lemma inuse_test_31 sfx_inuse :
  inuse_test sfx_inuse 31 = Z.land sfx_inuse (2 ^ 64 - 2 ^ 31).
Proof. reflexivity. Qed.

End StopAll.

(** ** The walk from the entry of [wav2adpcm] *)

Lemma Z_of_byte_nonneg b : 0 <= Z_of_byte b.
Proof. unfold Z_of_byte. lia. Qed.

Lemma le_decode_nonneg bs : 0 <= le_decode bs.
Proof.
  induction bs as [| b bs IH]; cbn [le_decode]; [lia |].
  pose proof (Z_of_byte_nonneg b). lia.
Qed.

Lemma fread_u32_nonneg f old : 0 <= snd (fread_u32 f old).
Proof.
  unfold fread_u32. destruct (fread f 4) as [[f' got] r]. cbn [snd].
  apply le_decode_nonneg.
Qed.

Lemma ztake_length_le (A : Type) (l : list A) :
  forall n, 0 <= n -> Z.of_nat (List.length (ztake n l)) <= n.
Proof.
  induction l as [| x l IH]; intros n Hn; simpl; [lia |].
  destruct (n <=? 0) eqn:E; simpl; [lia |].
  specialize (IH (n - 1)). lia.
Qed.

(** The reads of the chunk id keep the size of the array. *)
Lemma fread_each_length old :
  forall f, List.length (snd (fread_each f old)) = List.length old.
Proof.
  induction old as [| b old IH]; intros f; [reflexivity |].
  cbn [fread_each].
  destruct (fread f 1) as [[f1 got] r] eqn:E.
  specialize (IH f1). destruct (fread_each f1 old) as [f2 t'].
  cbn [snd] in *. rewrite length_app, IH.
  assert (List.length got <= 1)%nat as Hg.
  { unfold fread in E. cbn [Z.leb Z.compare] in E.
    pose proof (ztake_length_le _ (remaining f) 1 ltac:(lia)).
    destruct (_ =? 1); injection E as <- <- <-; lia. }
  unfold overlay.
  destruct got as [| g [| g' got]]; simpl in *; lia.
Qed.

Lemma chunk_id_length f l :
  List.length (chunk_id f l) = List.length (dID l).
Proof.
  unfold chunk_id, read_chunk_header.
  pose proof (fread_each_length (dID l) f) as H.
  destruct (fread_each f (dID l)) as [f1 id].
  destruct (fread_u32 f1 (len l)) as [f2 n].
  exact H.
Qed.

Lemma chunk_step_Next_dID f l f' l' :
  chunk_step f l = Next f' l' ->
  List.length (dID l') = List.length (dID l).
Proof.
  rewrite chunk_step_eq. cbv zeta.
  rewrite (read_chunk_header_locals f l).
  rewrite <- (chunk_id_length f l).
  destruct (feof _); [discriminate |].
  destruct (negb (memcmp (chunk_id f l) (lit "smpl") 4)); [discriminate |].
  destruct (negb (memcmp (chunk_id f l) (lit "fmt ") 4)).
  - destruct (fmt_chunk _ _) as [msg | [f2 l2]] eqn:E; [discriminate |].
    intros H. injection H as <- <-.
    apply fmt_chunk_inr in E as [h ->]. reflexivity.
  - destruct (negb (memcmp (chunk_id f l) (lit "data") 4)).
    + destruct (data_chunk _ _) as [msg | [f2 l2]] eqn:E; [discriminate |].
      intros H. injection H as <- <-.
      apply data_chunk_inr in E as [got ->]. reflexivity.
    + intros H. injection H as <- <-. reflexivity.
Qed.

(** The chunk id is an array of four bytes throughout the walk. *)
Lemma walking_dID stack bytes f0 l0 f l :
  read_riff (fopen_rb bytes) (wav2adpcm_entry stack) = Some (f0, l0) ->
  walking f0 l0 f l ->
  List.length (dID l) = 4%nat.
Proof.
  intros H0 W. induction W as [| f l f' l' W IH Hstep].
  - unfold read_riff in H0.
    repeat match type of H0 with
           | context [let '(_, _) := ?e in _] => destruct e as [[? ?] ?]
           | (if ?c then _ else _) = _ => destruct c; [discriminate |]
           end.
    injection H0 as <- <-. reflexivity.
  - rewrite (chunk_step_Next_dID _ _ _ _ Hstep). exact IH.
Qed.

(** The chunk header read on a header that is there. *)
Lemma read_chunk_header_positioned f l id lenb rest :
  positioned f (id ++ lenb ++ rest) ->
  List.length id = List.length (dID l) -> List.length lenb = 4%nat ->
  exists f1,
    read_chunk_header f l = (f1, set_chunk l id (le_decode lenb))
    /\ positioned f1 rest.
Proof.
  intros Hf Hid Hlen. unfold read_chunk_header.
  destruct (fread_each_positioned (dID l) f id _ Hf Hid)
    as (f1 & -> & Hf1 & _).
  destruct (fread_u32_positioned f1 (len l) lenb rest Hf1 Hlen)
    as (f2 & -> & Hf2 & _).
  exists f2. auto.
Qed.

(** Whatever the chunk holds, the loop bounds that the [smpl] branch
    leaves are within the sample length. *)
Lemma smpl_chunk_clamped f l :
  0 <= nSampleLength l ->
  let l' := smpl_chunk f l in
  0 <= startLoop l' <= nSampleLength l
  /\ 0 <= endLoop l' <= nSampleLength l
  /\ nSampleLength l' = nSampleLength l /\ pcmbuf l' = pcmbuf l
  /\ pcmsize l' = pcmsize l /\ adpcmsize l' = adpcmsize l.
Proof.
  intros Hn. unfold smpl_chunk.
  destruct (fold_left _ _ _) as [f1 t1].
  destruct (fread_u32 f1 t1) as [f2 t2].
  destruct (fread_u32 f2 (loopType l)) as [f3 ty].
  pose proof (fread_u32_nonneg f3 (startLoop l)) as Hs.
  destruct (fread_u32 f3 (startLoop l)) as [f4 s].
  pose proof (fread_u32_nonneg f4 (endLoop l)) as He.
  destruct (fread_u32 f4 (endLoop l)) as [f5 e].
  destruct (fread_u32 f5 t2) as [f6 t3].
  destruct (fread_u32 f6 t3) as [f7 t4].
  cbn in *.
  destruct (s >? nSampleLength l) eqn:Es;
    destruct (e >? nSampleLength l) eqn:Ee; repeat split; lia.
Qed.

Lemma walking_first f0 l0 f1 l1 f l :
  chunk_step f0 l0 = Next f1 l1 ->
  walking f1 l1 f l -> walking f0 l0 f l.
Proof.
  intros E W. induction W as [| f l f' l2 W IHW Hstep].
  - econstructor; [constructor | eassumption].
  - econstructor; eassumption.
Qed.

(** The chunk walk of [chunk_walk] ends by [break] at a turn of
    [walking]. *)
Lemma chunk_walk_walking fuel :
  forall f0 l0 l',
    chunk_walk fuel f0 l0 = Some (inr l') ->
    exists f l, walking f0 l0 f l /\ chunk_step f l = Break l'.
Proof.
  induction fuel as [| fuel IH]; intros f0 l0 l' H; [discriminate |].
  cbn [chunk_walk] in H.
  destruct (chunk_step f0 l0) as [msg | l1 | f1 l1] eqn:E.
  - discriminate.
  - injection H as <-. exists f0, l0. split; [constructor | assumption].
  - destruct (IH _ _ _ H) as (f & l & W & Hb).
    exists f, l. split; [| assumption].
    eapply walking_first; eassumption.
Qed.

Lemma walking_turns n :
  forall f0 l0,
    walking f0 l0 (fst (turns n f0 l0)) (snd (turns n f0 l0)).
Proof.
  induction n as [| n IH]; intros f0 l0; [constructor |].
  cbn [turns].
  destruct (chunk_step f0 l0) as [msg | l1 | f1 l1] eqn:E;
    try constructor.
  eapply walking_first; [eassumption | apply IH].
Qed.

(** * The claims of the specification *)

(** ** Codec core *)

(** Claim C1: for every 4-bit code [c] and every predictor state, the state
    update the encoder performs after choosing [c] is the state update the
    decoder performs on reading [c]; the step scale factor is the same
    whether bit 3 of the code is set or not; and on a state within the
    clamping bounds the update is [signal += step * DIFF_LOOKUP[c] / 8]
    clamped to [-32768, 32767] and [step = (step * STEP_SCALE[c]) >> 8]
    clamped to [127, 24576], with no overflow of the C arithmetic. *)
Theorem encoder_decoder_same_update (c : Z) (st : state) :
  0 <= c <= 15 ->
  enc_update st c = dec_update st c
  /\ tbl index_scale c = tbl index_scale (Z.land c 7)
  /\ (state_ok st ->
      dec_update st c =
      mkState (limit (signal st + Z.quot (step st * tbl diff_lookup c) 8)
                     (-32768) 32767)
              (limit (step st * tbl index_scale (Z.land c 7) / 256)
                     127 24576)).
Proof.
  intros Hc. split; [| split].
  - apply update_agree. assumption.
  - apply index_scale_low_bits. assumption.
  - intros Hst. rewrite <- update_agree, <- index_scale_low_bits by assumption.
    apply enc_update_exact; assumption.
Qed.

Lemma encoder_decoder_same_update_witness :
  0 <= 11 <= 15
  /\ enc_update init_state 11 = dec_update init_state 11
  /\ tbl index_scale 11 = tbl index_scale (Z.land 11 7).
Proof.
  split; [lia |].
  destruct (encoder_decoder_same_update 11 init_state) as (A & B & _);
    [lia | split; assumption].
Defined.

(** Claim C3: the initial state (signal 0, step 127) satisfies the clamping
    invariant; every state update of the encoder and of the decoder gives a
    state whose step is in [127, 24576] and whose signal is in
    [-32768, 32767], so all the states of a run of either loop do; and every
    sample the decoder stores is in [-32768, 32767]. *)
Theorem clamping_invariant :
  state_ok init_state
  /\ (forall st val, state_ok (enc_update st val))
  /\ (forall st val, state_ok (dec_update st val))
  /\ (forall src length st, Forall state_ok (pcm2adpcm_states src length st))
  /\ (forall src length st, Forall state_ok (adpcm2pcm_states src length st))
  /\ (forall src length out,
         adpcm2pcm src length = Some out ->
         out = map signal (adpcm2pcm_states src length init_state)
         /\ Forall fits_short out).
Proof.
  split; [cbv; repeat split; discriminate |].
  split; [exact enc_update_ok |].
  split; [exact dec_update_ok |].
  split; [exact pcm2adpcm_states_ok |].
  split; [exact adpcm2pcm_states_ok |].
  intros src length out H.
  apply adpcm2pcm_loop_states in H. split; [assumption |]. subst out.
  apply Forall_map.
  eapply Forall_impl; [| apply adpcm2pcm_states_ok].
  intros s [_ Hs]. exact Hs.
Qed.

Lemma clamping_invariant_witness :
  adpcm2pcm [32; 78; 92; 76] 4
  = Some [15; 94; -112; 173; -169; 331; -322; 461]
  /\ Forall fits_short [15; 94; -112; 173; -169; 331; -322; 461].
Proof.
  split; [reflexivity |].
  apply (proj2 (proj2 (proj2 (proj2 (proj2 clamping_invariant))))
               [32; 78; 92; 76] 4).
  reflexivity.
Defined.

(** Claim C5: the encoder puts the code of the first sample of a pair in
    the low nibble of the byte it stores and the code of the second sample
    in the high nibble; the decoder expands a byte low nibble first, then
    high nibble; so decoding the bytes of the encoder replays, in order,
    the signal the encoder predicted after each sample. *)
Theorem nibble_order :
  (forall st s1 s2 rest length out,
      state_ok st -> fits_short s1 -> fits_short s2 ->
      pcm2adpcm_loop (s1 :: s2 :: rest) length st = Some out ->
      exists data out',
        out = data :: out'
        /\ Z.land data 15 = quantize st s1
        /\ Z.shiftr data 4 = quantize (enc_update st (quantize st s1)) s2)
  /\ (forall st data rest length out,
         adpcm2pcm_loop (data :: rest) length st = Some out ->
         exists out',
           out = signal (dec_update st (Z.land data 15))
                 :: signal (dec_update (dec_update st (Z.land data 15))
                                       (Z.land (Z.shiftr data 4) 15))
                 :: out')
  /\ (forall src length st out,
         state_ok st -> Forall fits_short src ->
         pcm2adpcm_loop src length st = Some out ->
         adpcm2pcm_loop out length st
         = Some (map signal (pcm2adpcm_states src length st))).
Proof.
  split; [| split].
  - intros st s1 s2 rest length out Hst H1 H2 H.
    rewrite pcm2adpcm_loop_eq in H. cbv zeta in H.
    set (v1 := quantize st s1) in *.
    set (v2 := quantize (enc_update st v1) s2) in *.
    assert (0 <= v1 <= 15) as Hv1 by (apply quantize_range; assumption).
    assert (0 <= v2 <= 15) as Hv2
        by (apply quantize_range; [apply enc_update_ok | assumption]).
    assert (Z.land (u8 (Z.lor v1 (Z.shiftl v2 4))) 15 = v1
            /\ Z.shiftr (u8 (Z.lor v1 (Z.shiftl v2 4))) 4 = v2) as [Hlo Hhi].
    { clear - Hv1 Hv2. revert Hv1 Hv2. generalize v1 v2. clear v1 v2.
      intros v1 v2 H1 H2.
      each_code v1 H1; each_code v2 H2; split; reflexivity. }
    destruct (usize (length - 1) =? 0).
    + injection H as <-. eauto.
    + destruct (pcm2adpcm_loop rest _ _); [| discriminate].
      injection H as <-. eauto.
  - intros st data rest length out H.
    rewrite adpcm2pcm_loop_eq in H. cbv zeta in H.
    rewrite !wrap16_id in H by apply dec_update_ok.
    destruct (usize (length - 1) =? 0).
    + injection H as <-. eauto.
    + destruct (adpcm2pcm_loop rest _ _); [| discriminate].
      injection H as <-. eauto.
  - intros src length st out. apply decode_encoded.
Qed.

Lemma nibble_order_witness :
  pcm2adpcm_loop sample_pcm 4 init_state = Some [32; 78; 92; 76]
  /\ adpcm2pcm_loop [32; 78; 92; 76] 4 init_state
     = Some (map signal (pcm2adpcm_states sample_pcm 4 init_state)).
Proof.
  split; [reflexivity |].
  apply (proj2 (proj2 nibble_order) sample_pcm 4 init_state).
  - cbv. split; split; discriminate.
  - repeat constructor; cbv; discriminate.
  - reflexivity.
Defined.

(** ** Stereo transform *)

(** Claim C8: for every buffer that holds an even number of 16-bit samples,
    [deinterleave] followed by [interleave] with the same size in bytes
    gives the buffer back.  Both loops index the samples with an [int]:
    the buffer holds at most 2^30 frames, that is 2^31 samples, the largest
    size for which [i * 2 + 1] stays in range. *)
Theorem interleave_deinterleave (buffer : list Z) :
  Nat.Even (List.length buffer) ->
  Z.of_nat (List.length buffer) <= 2^31 ->
  exists halves,
    deinterleave buffer (2 * Z.of_nat (List.length buffer)) = Some halves
    /\ interleave halves (2 * Z.of_nat (List.length buffer)) = Some buffer.
Proof.
  intros [n Hn] Hr.
  assert (Z.of_nat n <= 2^30) as Hb by lia.
  eexists. split.
  - apply (deinterleave_closed buffer n Hn Hb).
  - apply (interleave_halves buffer n Hn Hb).
Qed.

Lemma interleave_deinterleave_witness :
  exists halves,
    deinterleave sample_pcm 16 = Some halves
    /\ interleave halves 16 = Some sample_pcm.
Proof.
  apply (interleave_deinterleave sample_pcm).
  - exists 4%nat. reflexivity.
  - vm_compute. discriminate.
Defined.

(** ** Packing *)

Lemma bytes_of_shorts_length l :
  Z.of_nat (List.length (bytes_of_shorts l)) = 2 * Z.of_nat (List.length l).
Proof.
  unfold bytes_of_shorts.
  induction l as [| x l IH]; [reflexivity |].
  cbn [flat_map]. rewrite length_app, le_bytes_length.
  cbn [List.length]. lia.
Qed.

(** The byte count that claim C4 states, [ceil (samples / 4)], is not the one
    of the code: the eight 16-bit samples of [sample_pcm], a mono payload of
    16 bytes, are encoded in 4 bytes, not in 2. *)
Lemma byte_count_not_quarter_of_samples :
  exists out,
    encode_payload 1 (Some (bytes_of_shorts sample_pcm)) 16 (16 / 4)
    = Some out
    /\ List.length (shorts_of_bytes (bytes_of_shorts sample_pcm)) = 8%nat
    /\ Z.of_nat (List.length out) <> (8 + 3) / 4.
Proof.
  exists [32; 78; 92; 76].
  split; [reflexivity |]. split; [reflexivity |].
  vm_compute. discriminate.
Qed.

(** Claim C4, amended: the encode primitive stores [ceil (length / 4)]
    bytes, where [length] is its third argument; the container writer passes
    the size of the PCM data in bytes, which is twice the number of 16-bit
    samples, so that a mono payload of [4 * k] bytes ([2 * k] samples) gives
    [k] bytes and a stereo payload of [8 * k] bytes ([4 * k] samples, each
    channel encoded by a call of its own) gives [2 * k] bytes: one byte for
    two samples; the decoder expands each of the [n] bytes it is given into
    two samples, [4 * n] bytes of PCM. *)
Theorem encoded_byte_count :
  (forall src len,
      0 < len < 2 ^ 64 - 3 ->
      2 * ((len + 3) / 4) <= Z.of_nat (List.length src) ->
      exists out, pcm2adpcm src len = Some out
                  /\ Z.of_nat (List.length out) = (len + 3) / 4)
  /\ (forall pcmbuf k,
         Z.of_nat (List.length pcmbuf) = 4 * k -> 0 < k < 2 ^ 30 ->
         exists out,
           encode_payload 1 (Some pcmbuf) (4 * k) (4 * k / 4) = Some out
           /\ Z.of_nat (List.length out) = k
           /\ Z.of_nat (List.length (shorts_of_bytes pcmbuf)) = 2 * k)
  /\ (forall channels pcmbuf k,
         (channels =? 1) = false ->
         Z.of_nat (List.length pcmbuf) = 8 * k -> 0 < k < 2 ^ 29 ->
         exists out,
           encode_payload channels (Some pcmbuf) (8 * k) (8 * k / 4)
           = Some out
           /\ Z.of_nat (List.length out) = 2 * k
           /\ Z.of_nat (List.length (shorts_of_bytes pcmbuf)) = 4 * k)
  /\ (forall src n,
         0 < n < 2 ^ 64 -> n <= Z.of_nat (List.length src) ->
         exists out,
           adpcm2pcm src n = Some out
           /\ Z.of_nat (List.length out) = 2 * n
           /\ Z.of_nat (List.length (bytes_of_shorts out)) = 4 * n).
Proof.
  split; [exact pcm2adpcm_length |].
  split; [| split].
  - intros pcmbuf k Hlen Hk.
    destruct (encode_payload_mono pcmbuf k Hlen Hk) as (out & _ & He & Hl).
    exists out. repeat split; try assumption.
    rewrite shorts_of_bytes_length, Hlen.
    replace (4 * k) with (2 * k * 2) by lia. apply Z_div_mult. lia.
  - intros channels pcmbuf k Hch Hlen Hk.
    destruct (encode_payload_stereo channels pcmbuf k Hch Hlen Hk)
      as (L & R & o1 & o2 & _ & _ & _ & _ & _ & H1 & H2 & He).
    exists (o1 ++ o2). repeat split; try assumption.
    + rewrite length_app. lia.
    + rewrite shorts_of_bytes_length, Hlen.
      replace (8 * k) with (4 * k * 2) by lia. apply Z_div_mult. lia.
  - intros src n Hn Hlen.
    destruct (adpcm2pcm_loop_length src n init_state Hn Hlen)
      as (out & Ho & Hl).
    exists out. repeat split; try assumption.
    rewrite bytes_of_shorts_length. lia.
Qed.

Lemma encoded_byte_count_witness :
  (exists out, pcm2adpcm sample_pcm 16 = Some out
               /\ Z.of_nat (List.length out) = (16 + 3) / 4)
  /\ (exists out, adpcm2pcm [32; 78; 92; 76] 4 = Some out
                  /\ Z.of_nat (List.length out) = 2 * 4
                  /\ Z.of_nat (List.length (bytes_of_shorts out)) = 4 * 4).
Proof.
  split.
  - apply (proj1 encoded_byte_count sample_pcm 16).
    + lia.
    + vm_compute. discriminate.
  - apply (proj2 (proj2 (proj2 encoded_byte_count)) [32; 78; 92; 76] 4).
    + lia.
    + vm_compute. discriminate.
Defined.

(** ** Sound effect channels *)

(** For the channels 0 to 30 the loop of [snd_sfx_stop_all] stops a channel
    exactly when its bit of [sfx_inuse] is clear. *)
Lemma stop_all_low_channels (AICA_CMDSTR_CHANNEL_SIZE : Z)
      (shl_undef : Z -> Z -> Z) (sfx_inuse c : Z) :
  0 <= c < 31 ->
  (In c (Sfx.channels_of
           (Sfx.snd_sfx_stop_all AICA_CMDSTR_CHANNEL_SIZE shl_undef
                                 sfx_inuse []))
   <-> Z.testbit sfx_inuse c = false).
Proof.
  intros Hc. unfold Sfx.snd_sfx_stop_all.
  rewrite stop_all_loop_channels, <- inuse_test_low by assumption.
  cbn [Sfx.channels_of map In]. split.
  - intros [[] | [_ H]]. exact H.
  - intros H. right. split; [lia | exact H].
Qed.

(** Claim C9 fails on the code: [1 << i] is an [int] and the mask is a
    [uint64].  [1 << 31] converted to [uint64] has the bits 31 to 63 set:
    with channel 32 alone in use, bit 31 of [sfx_inuse] is clear and yet
    [snd_sfx_stop_all] issues no stop command for channel 31, whatever the
    shifts by 32 and more give.  Those shifts are undefined in C; with the
    shift of the target, which takes the count modulo 32, the test on
    channel 32 looks at bit 0: with channel 0 alone in use, channel 32 is
    not stopped although its bit is clear. *)
Theorem stop_all_skips_free_channels (AICA_CMDSTR_CHANNEL_SIZE : Z) :
  (forall shl_undef : Z -> Z -> Z,
      Z.testbit (2 ^ 32) 31 = false
      /\ ~ In 31 (Sfx.channels_of
                    (Sfx.snd_sfx_stop_all AICA_CMDSTR_CHANNEL_SIZE shl_undef
                                          (2 ^ 32) [])))
  /\ Z.testbit 1 32 = false
  /\ ~ In 32 (Sfx.channels_of
                (Sfx.snd_sfx_stop_all AICA_CMDSTR_CHANNEL_SIZE Sfx.shl_mod32
                                      1 [])).
Proof.
  split; [| split].
  - intros shl_undef. split; [reflexivity |].
    unfold Sfx.snd_sfx_stop_all. rewrite stop_all_loop_channels.
    intros [[] | [_ H]]. rewrite inuse_test_31 in H.
    vm_compute in H. discriminate.
  - reflexivity.
  - unfold Sfx.snd_sfx_stop_all. rewrite stop_all_loop_channels.
    intros [[] | [_ H]]. vm_compute in H. discriminate.
Qed.

(** ** Container: the chunk walk of the encode path *)

(** A conversion that returns 0 has met a [smpl] chunk: the walk has no
    other way out than [return -1]. *)
Lemma wav2adpcm_success_needs_smpl stack bytes fuel e :
  wav2adpcm stack (Some bytes) fuel = Some (Exited e) ->
  status e = 0 ->
  exists f0 l0 f l,
    read_riff (fopen_rb bytes) (wav2adpcm_entry stack) = Some (f0, l0)
    /\ walking f0 l0 f l
    /\ memcmp (chunk_id f l) (lit "smpl") 4 = false.
Proof.
  unfold wav2adpcm. intros H Hs.
  destruct (read_riff _ _) as [[f0 l0] |] eqn:Er.
  - destruct (_ || _).
    + injection H as <-. discriminate.
    + destruct (chunk_walk fuel f0 l0) as [[msg | l'] |] eqn:Ew.
      * injection H as <-. discriminate.
      * destruct (chunk_walk_walking _ _ _ _ Ew) as (f & l & W & Hb).
        apply chunk_step_Break in Hb as [Hb _].
        exists f0, l0, f, l. auto.
      * discriminate.
  - injection H as <-. discriminate.
Qed.

(** Claim C2 fails on the code: [wav_plain] is a well-formed mono PCM file,
    a [fmt ] chunk (format tag 1, one channel, block alignment 2) followed
    by a [data] chunk and no [smpl] chunk, and its conversion returns -1
    with the diagnostic of a truncated header.  After the last chunk
    [fseek] has cleared the end-of-file indicator, so the test that follows
    it does not leave the loop, and the next turn finds the end of the
    file while it reads a chunk header. *)
Theorem plain_wav_not_converted (stack : locals) (fuel : nat) :
  wav2adpcm stack (Some wav_plain) (3 + fuel)
  = Some (failed "Invalid truncated WAVE header." None).
Proof. vm_compute. reflexivity. Qed.

(** Claim C6 fails on the code for the encode path, which compares three
    bytes of the file with ["RIFF"]: [wav_rifx] starts with ["RIFX"] and is
    converted, the conversion returns 0. *)
Theorem rifx_wav_converted (stack : locals) (fuel : nat) :
  firstn 4 wav_rifx <> lit "RIFF"
  /\ exists out,
      wav2adpcm stack (Some wav_rifx) (3 + fuel)
      = Some (Exited (mkExit 0 None (Some out))).
Proof.
  split.
  - vm_compute. discriminate.
  - eexists. vm_compute. reflexivity.
Qed.

(** Claim C7: when the walk of the encode path is at a [smpl] chunk whose
    words are in the file, with loop type [ty], loop start [s] and loop end
    [e], the turn ends the walk; a loop end above the sample count becomes
    the sample count, a loop start above the sample count becomes 0, and
    the loop is enabled exactly when the loop type is 0 and the loop end
    read from the chunk is greater than 0. *)
Theorem smpl_loop_points (stack : locals) (bytes : list byte)
        (f0 f : FILE) (l0 l : locals) (lenb hdr ty s e tail : list byte) :
  read_riff (fopen_rb bytes) (wav2adpcm_entry stack) = Some (f0, l0) ->
  walking f0 l0 f l ->
  remaining f = lit "smpl" ++ lenb ++ hdr ++ ty ++ s ++ e ++ tail ->
  List.length lenb = 4%nat -> List.length hdr = 40%nat ->
  List.length ty = 4%nat -> List.length s = 4%nat ->
  List.length e = 4%nat ->
  exists l',
    chunk_step f l = Break l'
    /\ (exists fuel0, forall fuel, (fuel0 <= fuel)%nat ->
                                   chunk_walk fuel f0 l0 = Some (inr l'))
    /\ nSampleLength l' = nSampleLength l
    /\ loopType l' = le_decode ty
    /\ endLoop l' = (if le_decode e >? nSampleLength l
                     then nSampleLength l else le_decode e)
    /\ startLoop l' = (if le_decode s >? nSampleLength l
                       then 0 else le_decode s)
    /\ (haveLoop l' = true <-> le_decode ty = 0 /\ le_decode e > 0).
Proof.
  intros H0 W Hrem Hlenb Hhdr Hty Hs He.
  enough (exists l',
             chunk_step f l = Break l'
             /\ nSampleLength l' = nSampleLength l
             /\ loopType l' = le_decode ty
             /\ endLoop l' = (if le_decode e >? nSampleLength l
                              then nSampleLength l else le_decode e)
             /\ startLoop l' = (if le_decode s >? nSampleLength l
                                then 0 else le_decode s)
             /\ (haveLoop l' = true <-> le_decode ty = 0 /\ le_decode e > 0))
    as (l' & Hb & Hrest).
  { exists l'. split; [exact Hb |]. split; [| exact Hrest].
    apply (walking_chunk_walk _ _ _ _ W (inr l') 1%nat).
    cbn [chunk_walk]. rewrite Hb. reflexivity. }
  destruct (walking_inv _ _ _ _ _ _ H0 W) as (Heof & Hpos & Hhave & _).
  pose proof (walking_dID _ _ _ _ _ _ H0 W) as HdID.
  assert (positioned f (lit "smpl" ++ lenb ++ hdr ++ ty ++ s ++ e ++ tail))
    as Hf by (repeat split; assumption).
  destruct (read_chunk_header_positioned f l _ _ _ Hf) as (f1 & Hr & Hf1);
    [rewrite HdID; reflexivity | assumption |].
  rewrite chunk_step_eq. unfold chunk_id. rewrite Hr. cbn [fst snd].
  destruct Hf1 as (Hpos1 & Heof1 & Hrem1).
  unfold feof. rewrite Heof1. cbv zeta.
  change (negb (memcmp (dID (set_chunk l (lit "smpl") (le_decode lenb)))
                       (lit "smpl") 4)) with true. cbv iota.
  eexists. split; [reflexivity |].
  pose proof (smpl_chunk_fields
                f1 (set_start (set_chunk l (lit "smpl") (le_decode lenb))
                              (u32 (ftell f1)))
                hdr ty s e tail) as Hsm.
  cbv zeta in Hsm.
  destruct Hsm as (Hlt & Hsl & Hel & Hhl & Hn & _); try assumption;
    [repeat split; assumption |].
  cbn [nSampleLength haveLoop set_start set_chunk] in *.
  rewrite Hn, Hlt, Hel, Hsl, Hhl, Hhave.
  repeat split; try reflexivity.
  - destruct (le_decode ty =? 0) eqn:E1; [| discriminate]. lia.
  - destruct (le_decode ty =? 0) eqn:E1; [| discriminate].
    destruct (le_decode e >? 0) eqn:E2; [lia | discriminate].
  - intros [-> Hgt].
    replace (le_decode e >? 0) with true by lia. reflexivity.
Qed.

Lemma smpl_loop_points_witness :
  exists l0 l',
    read_riff (fopen_rb wav_loop) (wav2adpcm_entry zero_stack)
    = Some (mkFILE wav_loop 12 false, l0)
    /\ chunk_step (fst (turns 2 (mkFILE wav_loop 12 false) l0))
                  (snd (turns 2 (mkFILE wav_loop 12 false) l0)) = Break l'
    /\ loopType l' = 0 /\ startLoop l' = 2 /\ endLoop l' = 6
    /\ haveLoop l' = true.
Proof.
  eexists.
  assert (read_riff (fopen_rb wav_loop) (wav2adpcm_entry zero_stack)
          = Some (mkFILE wav_loop 12 false, _)) as H0
      by (vm_compute; reflexivity).
  destruct (smpl_loop_points
              zero_stack wav_loop _ _ _ _
              (le_bytes 4 60) (repeat x00 36 ++ le_bytes 4 0)
              (le_bytes 4 0) (le_bytes 4 2) (le_bytes 4 6)
              (le_bytes 4 0 ++ le_bytes 4 0) H0
              (walking_turns 2 _ _))
    as (l' & Hb & _ & _ & Hty & He & Hs & Hh);
    try reflexivity.
  exists l'. split; [exact H0 |]. split; [exact Hb |].
  split; [exact Hty |]. split; [exact Hs |]. split; [exact He |].
  apply Hh. split; [reflexivity | vm_compute; reflexivity].
Defined.

(** The locals with which a turn enters the branch of its chunk. *)
Lemma branch_locals f l :
  let l1 := set_start (snd (read_chunk_header f l))
                      (u32 (ftell (fst (read_chunk_header f l)))) in
  nSampleLength l1 = nSampleLength l /\ pcmbuf l1 = pcmbuf l
  /\ pcmsize l1 = pcmsize l /\ adpcmsize l1 = adpcmsize l.
Proof.
  cbv zeta. rewrite (read_chunk_header_locals f l). cbn. tauto.
Qed.

(** A walk that ends at a [smpl] chunk with no buffer loaded goes on to
    call the encoder with null pointers and a length of 0: the run has no
    defined behaviour from there, before the output file is opened. *)
Lemma smpl_before_data_run stack bytes f0 l0 f l l' :
  read_riff (fopen_rb bytes) (wav2adpcm_entry stack) = Some (f0, l0) ->
  walking_before_data f0 l0 f l ->
  chunk_step f l = Break l' ->
  wav2adpcm_finish l' = Undefined.
Proof.
  intros H0 W Hb.
  destruct (walking_before_data_inv _ _ _ _ _ _ H0 W)
    as (Hn & Hbuf & Hp & Ha).
  rewrite chunk_step_eq in Hb.
  destruct (branch_locals f l) as (Hn1 & Hb1 & Hp1 & Ha1).
  cbv zeta in *.
  remember (fst (read_chunk_header f l)) as f1 eqn:Ef1.
  remember (set_start (snd (read_chunk_header f l)) (u32 (ftell f1)))
    as l1 eqn:El1.
  destruct (feof f1); [discriminate |].
  destruct (negb (memcmp (chunk_id f l) (lit "smpl") 4)).
  - injection Hb as <-.
    destruct (smpl_chunk_clamped f1 l1) as (_ & He & _ & Hb' & Hp' & Ha');
      [lia |].
    cbv zeta in *.
    remember (smpl_chunk f1 l1) as l2 eqn:El2.
    assert (endLoop l2 = 0) as He0 by lia.
    unfold wav2adpcm_finish, default_loop. rewrite He0.
    change (0 =? 0) with true. cbv iota.
    cbn [wavhdr pcmbuf pcmsize adpcmsize set_loop].
    rewrite Hb', Hp', Ha', Hb1, Hp1, Ha1, Hbuf, Hp, Ha, encode_payload_null.
    reflexivity.
  - match type of Hb with
    | match ?r with _ => _ end = _ =>
        destruct r as [msg | [f2 l2]]; discriminate
    end.
Qed.

(** Claim C10 fails on the code.  When the walk of the encode path meets a
    [smpl] chunk before any [data] chunk, the turn ends the walk with no
    sample data loaded, the loop start and the loop end are both 0 whatever
    the chunk holds, and the default of the loop bounds disables looping, as
    the claim says.  But no output is written, with or without a [smpl]
    chunk: [pcmbuf] and [adpcmbuf] are still the null pointers of their
    initialisers and [pcmsize] is 0, nothing tests them, and the encoder,
    whose [do ... while] loop reads a sample before it looks at its length,
    is called with them.  The run has no defined behaviour from there,
    before the output file is opened. *)
Theorem smpl_before_data_undefined (stack : locals) (bytes : list byte)
        (f0 f : FILE) (l0 l : locals) :
  read_riff (fopen_rb bytes) (wav2adpcm_entry stack) = Some (f0, l0) ->
  memcmp (hdr1 (wavhdr l0)) (lit "RIFF") 3 = false ->
  memcmp (hdr2 (wavhdr l0)) (lit "WAVE") 4 = false ->
  walking_before_data f0 l0 f l ->
  feof (fst (read_chunk_header f l)) = false ->
  memcmp (chunk_id f l) (lit "smpl") 4 = false ->
  exists l',
    chunk_step f l = Break l'
    /\ pcmbuf l' = None /\ pcmsize l' = 0 /\ nSampleLength l' = 0
    /\ startLoop l' = 0 /\ endLoop l' = 0
    /\ haveLoop (default_loop l') = false
    /\ encode_payload (channels (wavhdr l')) (pcmbuf l') (pcmsize l')
                      (adpcmsize l') = None
    /\ exists fuel0, forall fuel, (fuel0 <= fuel)%nat ->
                                  wav2adpcm stack (Some bytes) fuel
                                  = Some Undefined.
Proof.
  intros H0 Hm1 Hm2 W Heof Hid.
  destruct (walking_before_data_inv _ _ _ _ _ _ H0 W)
    as (Hn & Hbuf & Hp & Ha).
  assert (exists l', chunk_step f l = Break l'
                     /\ startLoop l' = 0 /\ endLoop l' = 0
                     /\ nSampleLength l' = 0 /\ pcmbuf l' = None
                     /\ pcmsize l' = 0 /\ adpcmsize l' = 0)
    as (l' & Hb & Hs & He & Hn' & Hb' & Hp' & Ha').
  { rewrite chunk_step_eq. cbv zeta. rewrite Heof, Hid. cbn [negb].
    destruct (branch_locals f l) as (Hn1 & Hb1 & Hp1 & Ha1).
    cbv zeta in *.
    remember (fst (read_chunk_header f l)) as f1 eqn:Ef1.
    remember (set_start (snd (read_chunk_header f l)) (u32 (ftell f1)))
      as l1 eqn:El1.
    destruct (smpl_chunk_clamped f1 l1) as (Hs & He & Hn' & Hb' & Hp' & Ha');
      [lia |].
    cbv zeta in *.
    remember (smpl_chunk f1 l1) as l2 eqn:El2.
    exists l2. split; [reflexivity |].
    repeat split; try congruence; lia. }
  exists l'. split; [exact Hb |].
  split; [exact Hb' |]. split; [exact Hp' |]. split; [exact Hn' |].
  split; [exact Hs |]. split; [exact He |].
  split; [unfold default_loop; rewrite He; reflexivity |].
  split; [rewrite Hb', Hp', Ha'; apply encode_payload_null |].
  destruct (walking_chunk_walk _ _ _ _ (walking_before_data_walking _ _ _ _ W)
                               (inr l') 1%nat) as (fuel0 & Hw).
  { cbn [chunk_walk]. rewrite Hb. reflexivity. }
  exists fuel0. intros fuel Hf.
  unfold wav2adpcm. rewrite H0, Hm1, Hm2. cbn [orb].
  rewrite (Hw fuel Hf).
  rewrite (smpl_before_data_run stack bytes f0 l0 f l l' H0 W Hb).
  reflexivity.
Qed.

Lemma smpl_before_data_undefined_witness :
  exists l0 l',
    read_riff (fopen_rb wav_smpl_first) (wav2adpcm_entry zero_stack)
    = Some (mkFILE wav_smpl_first 12 false, l0)
    /\ chunk_step (fst (turns 1 (mkFILE wav_smpl_first 12 false) l0))
                  (snd (turns 1 (mkFILE wav_smpl_first 12 false) l0))
       = Break l'
    /\ startLoop l' = 0 /\ endLoop l' = 0
    /\ exists fuel0, forall fuel, (fuel0 <= fuel)%nat ->
                                  wav2adpcm zero_stack (Some wav_smpl_first)
                                            fuel
                                  = Some Undefined.
Proof.
  eexists.
  assert (read_riff (fopen_rb wav_smpl_first) (wav2adpcm_entry zero_stack)
          = Some (mkFILE wav_smpl_first 12 false, _)) as H0
      by (vm_compute; reflexivity).
  match type of H0 with
  | _ = Some (?f0, ?l0) =>
      destruct (smpl_before_data_undefined
                  zero_stack wav_smpl_first
                  f0 (fst (turns 1 f0 l0))
                  l0 (snd (turns 1 f0 l0)) H0)
      as (l' & Hb & _ & _ & _ & Hs & He & _ & _ & Hrun)
  end.
  - vm_compute. reflexivity.
  - vm_compute. reflexivity.
  - eapply before_data_next;
      [apply before_data_start | | vm_compute; reflexivity].
    vm_compute. reflexivity.
  - vm_compute. reflexivity.
  - vm_compute. reflexivity.
  - exists l'. split; [exact H0 |]. split; [exact Hb |].
    split; [exact Hs |]. split; [exact He | exact Hrun].
Defined.

(** The run on [wav_smpl_first], a [fmt ] chunk, a [smpl] chunk and a
    [data] chunk in this order, whatever the stack holds. *)
Lemma smpl_first_wav_run (stack : locals) (fuel : nat) :
  wav2adpcm stack (Some wav_smpl_first) (2 + fuel) = Some Undefined.
Proof. vm_compute. reflexivity. Qed.

(** ** Container: the magic check *)

Lemma fopen_rb_positioned bytes : positioned (fopen_rb bytes) bytes.
Proof.
  unfold positioned, remaining. cbn [fopen_rb pos eof content].
  repeat split; [lia |].
  destruct bytes; reflexivity.
Qed.

(** A read of [n] bytes from a stream that has them. *)
Lemma fread_firstn f bs n :
  positioned f bs -> (0 < n <= List.length bs)%nat ->
  exists f',
    fread f (Z.of_nat n) = (f', firstn n bs, 1)
    /\ positioned f' (skipn n bs).
Proof.
  intros Hf Hn. rewrite <- (firstn_skipn n bs) in Hf.
  destruct (fread_positioned f _ _ (Z.of_nat n) Hf) as (f' & Hr & Hf' & _).
  - rewrite length_firstn. lia.
  - lia.
  - eauto.
Qed.

(** A read of more bytes than the stream has. *)
Lemma fread_short f bs size :
  positioned f bs -> Z.of_nat (List.length bs) < size ->
  exists f' got, fread f size = (f', got, 0).
Proof.
  intros (Hpos & Heof & Hrem) Hlen. unfold fread.
  destruct (size <=? 0) eqn:E; [eauto |].
  rewrite Hrem, ztake_firstn.
  rewrite firstn_all2 by lia.
  replace (Z.of_nat (List.length bs) =? size) with false by lia.
  eauto.
Qed.

(** The decode path refuses, with its format diagnostic, every file of at
    least 44 bytes whose first four bytes are not ["RIFF"] or whose bytes 8
    to 11 are not ["WAVE"]. *)
Lemma adpcm2wav_bad_magic bytes :
  (44 <= List.length bytes)%nat ->
  firstn 4 bytes <> lit "RIFF" \/ firstn 4 (skipn 8 bytes) <> lit "WAVE" ->
  adpcm2wav (Some bytes) = failed "Unsupported format." None.
Proof.
  intros Hlen Hbad. unfold adpcm2wav.
  destruct (fread_firstn _ _ 44 (fopen_rb_positioned bytes))
    as (f' & Hr & _); [lia |].
  change (Z.of_nat 44) with 44 in Hr. rewrite Hr.
  change (negb (1 =? 1)) with false. cbv iota.
  assert (adpcm2wav_refuses (wavhdr_of_bytes (firstn 44 bytes)) = true)
    as ->; [| reflexivity].
  unfold adpcm2wav_refuses, wavhdr_of_bytes. cbn [hdr1 hdr2].
  change (Z.to_nat 0) with 0%nat. change (Z.to_nat 4) with 4%nat.
  change (Z.to_nat 8) with 8%nat.
  change (skipn 0 (firstn 44 bytes)) with (firstn 44 bytes).
  destruct Hbad as [Hbad | Hbad].
  - assert (memcmp (firstn 4 (firstn 44 bytes)) (lit "RIFF") 4 = true) as ->;
      [| reflexivity].
    apply memcmp_true. rewrite !firstn_firstn. exact Hbad.
  - assert (memcmp (firstn 8 (skipn 8 (firstn 44 bytes)))
                   (lit "WAVEfmt ") 8 = true) as ->;
      [| rewrite orb_true_r; reflexivity].
    apply memcmp_true. intros Heq. apply Hbad.
    apply (f_equal (firstn 4)) in Heq.
    rewrite !firstn_firstn in Heq. cbn [Nat.min] in Heq.
    rewrite firstn_skipn_comm, firstn_firstn in Heq.
    cbn [Nat.add Nat.min] in Heq.
    rewrite firstn_skipn_comm. exact Heq.
Qed.

(** A shorter file is refused by the decode path as well, with the
    diagnostic of the header read. *)
Lemma adpcm2wav_short bytes :
  (List.length bytes < 44)%nat ->
  adpcm2wav (Some bytes) = failed "Cannot read header." None.
Proof.
  intros Hlen. unfold adpcm2wav.
  destruct (fread_short _ _ 44 (fopen_rb_positioned bytes))
    as (f' & got & ->); [lia |].
  reflexivity.
Qed.

(** The encode path refuses, with the same diagnostic, the files of at
    least 12 bytes whose first three bytes are not ["RIF"] or whose bytes 8
    to 11 are not ["WAVE"]. *)
Lemma wav2adpcm_bad_magic stack bytes fuel :
  (12 <= List.length bytes)%nat ->
  firstn 3 bytes <> firstn 3 (lit "RIFF")
  \/ firstn 4 (skipn 8 bytes) <> lit "WAVE" ->
  wav2adpcm stack (Some bytes) fuel
  = Some (failed "Unsupported format." None).
Proof.
  intros Hlen Hbad. unfold wav2adpcm, read_riff.
  destruct (fread_firstn _ _ 4 (fopen_rb_positioned bytes))
    as (f1 & Hr1 & Hf1); [lia |].
  destruct (fread_firstn _ _ 4 Hf1) as (f2 & Hr2 & Hf2);
    [rewrite length_skipn; lia |].
  destruct (fread_firstn _ _ 4 Hf2) as (f3 & Hr3 & Hf3);
    [rewrite !length_skipn; lia |].
  change (Z.of_nat 4) with 4 in Hr1, Hr2, Hr3.
  rewrite Hr1. change (negb (1 =? 1)) with false. cbv iota.
  rewrite Hr2. change (negb (1 =? 1)) with false. cbv iota.
  rewrite Hr3. change (negb (1 =? 1)) with false. cbv iota.
  cbn [wavhdr set_wavhdr hdr1 hdr2 wav2adpcm_entry].
  rewrite skipn_skipn. cbn [Nat.add].
  match goal with
  | |- (if ?a || ?b then _ else _) = _ =>
      assert (a || b = true) as ->; [| reflexivity]
  end.
  destruct Hbad as [Hbad | Hbad].
  - assert (memcmp (firstn 4 bytes) (lit "RIFF") 3 = true) as ->;
      [| reflexivity].
    apply memcmp_true. rewrite firstn_firstn. exact Hbad.
  - match goal with
    | |- _ || memcmp ?h _ _ = true =>
        assert (memcmp h (lit "WAVE") 4 = true) as ->;
          [| apply orb_true_r]
    end.
    apply memcmp_true. unfold overlay.
    rewrite firstn_app, firstn_firstn.
    rewrite length_firstn, length_skipn.
    replace (Nat.min 4 (List.length bytes - 8)) with 4%nat by lia.
    cbn [Nat.min Nat.sub firstn]. rewrite app_nil_r. exact Hbad.
Qed.

(** ** End-to-end scenario *)

(** The eight samples of the scenario are encoded in the four bytes
    20 4e 5c 4c, which decode to the golden vector. *)
Lemma scenario_golden_vector :
  pcm2adpcm sample_pcm 16 = Some [32; 78; 92; 76]
  /\ adpcm2pcm [32; 78; 92; 76] 4
     = Some [15; 94; -112; 173; -169; 331; -322; 461].
Proof. split; reflexivity. Qed.

(** With a [smpl] chunk after the [data] chunk the file is converted, and
    the decode path gives the golden vector back from the result. *)
Lemma wav_loop_round_trip (stack : locals) (fuel : nat) :
  exists adpcm pcm,
    wav2adpcm stack (Some wav_loop) (3 + fuel)
    = Some (Exited (mkExit 0 None (Some adpcm)))
    /\ firstn 4 (skipn 44 adpcm) = bytes_of_uchars [32; 78; 92; 76]
    /\ skipn 48 adpcm = riff_chunk "smpl" (smpl_body 0 2 6)
    /\ adpcm2wav (Some adpcm) = Exited (mkExit 0 None (Some pcm))
    /\ skipn 44 pcm
       = bytes_of_shorts [15; 94; -112; 173; -169; 331; -322; 461].
Proof.
  eexists. eexists.
  split; [vm_compute; reflexivity |].
  split; [vm_compute; reflexivity |].
  split; [vm_compute; reflexivity |].
  split; [vm_compute; reflexivity |].
  vm_compute. reflexivity.
Qed.

(** * Further properties of the code *)

(** ** Codec core: quantisation error and step adaptation *)

(** Truncating division of a non-negative number, by its equation. *)
Lemma quot_nonneg_eq a b :
  0 <= a -> 0 < b ->
  exists r, a = b * Z.quot a b + r /\ 0 <= r < b /\ 0 <= Z.quot a b.
Proof.
  intros Ha Hb. exists (Z.rem a b).
  split; [apply Z.quot_rem'|].
  split; [apply Z.rem_bound_pos; lia | apply Z.quot_pos; lia].
Qed.

(** The state after one sample, in unbounded arithmetic. *)
Lemma encode_sample_exact st s :
  state_ok st -> fits_short s ->
  let scaled := Z.quot ((s - signal st) * 8) (step st) in
  let magnitude := Z.min (Z.quot (Z.abs scaled) 2) 7 in
  let code := if scaled <? 0 then magnitude + 8 else magnitude in
  quantize st s = code
  /\ 0 <= magnitude <= 7
  /\ signal (enc_update st code)
     = limit (signal st
              + (if scaled <? 0 then - Z.quot (step st * (2 * magnitude + 1)) 8
                 else Z.quot (step st * (2 * magnitude + 1)) 8))
             (-32768) 32767
  /\ step (enc_update st code)
     = limit (step st * tbl index_scale magnitude / 256) 127 24576.
Proof.
  intros Hst Hs. cbv zeta.
  pose proof (quantize_exact st s Hst Hs) as Hq. cbv zeta in Hq.
  remember (Z.quot ((s - signal st) * 8) (step st)) as scaled eqn:Esc.
  assert (0 <= Z.quot (Z.abs scaled) 2) as Hm0
      by (apply Z.quot_pos; lia).
  remember (Z.min (Z.quot (Z.abs scaled) 2) 7) as m eqn:Em.
  assert (0 <= m <= 7) as Hm by lia.
  split; [exact Hq |]. split; [exact Hm |].
  assert (0 <= (if scaled <? 0 then m + 8 else m) <= 15) as Hc
      by (destruct (scaled <? 0); lia).
  rewrite (enc_update_exact st _ Hst Hc). cbn [signal step].
  assert (m = 0 \/ m = 1 \/ m = 2 \/ m = 3 \/ m = 4 \/ m = 5 \/ m = 6
          \/ m = 7) as Hcases by lia.
  destruct (scaled <? 0) eqn:Eneg.
  - split.
    + f_equal. f_equal.
      assert (tbl diff_lookup (m + 8) = - (2 * m + 1)) as ->
          by (repeat (destruct Hcases as [-> | Hcases]; [reflexivity |]);
              subst m; rewrite Hcases; reflexivity).
      rewrite <- Z.quot_opp_l by lia. f_equal. lia.
    + f_equal. f_equal. f_equal.
      repeat (destruct Hcases as [-> | Hcases]; [reflexivity |]).
      rewrite Hcases. reflexivity.
  - split.
    + f_equal. f_equal. f_equal.
      assert (tbl diff_lookup m = 2 * m + 1) as ->
          by (repeat (destruct Hcases as [-> | Hcases]; [reflexivity |]);
              rewrite Hcases; reflexivity).
      reflexivity.
    + reflexivity.
Qed.

Lemma limit_closer x s :
  -32768 <= s <= 32767 ->
  Z.abs (s - limit x (-32768) 32767) <= Z.abs (s - x).
Proof.
  intros Hs. unfold limit.
  destruct (x <? -32768) eqn:E1; [lia |].
  destruct (x >? 32767) eqn:E2; lia.
Qed.

(** The prediction error after one sample, for a sample at or above the
    prediction. *)
Lemma encode_error_up st s :
  state_ok st -> fits_short s -> 0 <= s - signal st ->
  let st' := snd (encode_sample st s) in
  (s - signal st < 2 * step st ->
   8 * Z.abs (s - signal st') <= step st + 7)
  /\ (2 * step st <= s - signal st ->
      Z.abs (s - signal st')
      = s - signal st - Z.quot (step st * 15) 8).
Proof.
  intros Hst Hs Hd. cbv zeta. unfold encode_sample. cbn [snd].
  destruct (encode_sample_exact st s Hst Hs) as (Hq & Hm & Hsig & _).
  cbv zeta in Hq, Hm, Hsig. rewrite Hq, Hsig. clear Hq Hsig.
  destruct Hst as [Hp Hg]. unfold fits_short in Hs.
  remember (step st) as p eqn:Ep. remember (signal st) as g eqn:Eg.
  destruct (quot_nonneg_eq ((s - g) * 8) p) as (r & Hqr & Hr & Hq0);
    [lia | lia |].
  remember (Z.quot ((s - g) * 8) p) as q eqn:Eq in *.
  replace (q <? 0) with false in * by lia. cbv iota.
  rewrite (Z.abs_eq q) in * by lia.
  destruct (quot_nonneg_eq q 2) as (e & Hqe & He & Hm0); [lia | lia |].
  remember (Z.quot q 2) as m0 eqn:Em0 in *.
  remember (Z.min m0 7) as m eqn:Em in *.
  destruct (quot_nonneg_eq (p * (2 * m + 1)) 8) as (r2 & Hd2 & Hr2 & Hdl);
    [nia | lia |].
  remember (Z.quot (p * (2 * m + 1)) 8) as delta eqn:Edelta in *.
  split.
  - intros Hlt.
    assert (q <= 15) as Hq15 by nia.
    assert (m = m0) as -> by lia.
    pose proof (limit_closer (g + delta) s ltac:(lia)) as Hc.
    assert (8 * Z.abs (s - (g + delta)) <= p + 7); [| lia].
    assert ((s - g) * 8 = 2 * (p * m0) + p * e + r) as Hqr'
        by (rewrite Hqr, Hqe; ring).
    assert (2 * (p * m0) + p = 8 * delta + r2) as Hd2'
        by (rewrite <- Hd2; ring).
    clear Hqr Hd2. remember (p * m0) as pm eqn:Epm.
    assert (e = 0 \/ e = 1) as [-> | ->] by lia; lia.
  - intros Hge.
    assert (16 <= q) as Hq16 by nia.
    assert (m = 7) as -> by lia.
    change (2 * 7 + 1) with 15 in *.
    rewrite limit_id by nia.
    rewrite Z.abs_eq by nia. lia.
Qed.

(** The same for a sample below the prediction; there a difference of less
    than an eighth of the step is coded 0, which moves the prediction
    upwards. *)
Lemma encode_error_down st s :
  state_ok st -> fits_short s -> s - signal st < 0 ->
  let st' := snd (encode_sample st s) in
  (step st <= 8 * (signal st - s) -> signal st - s < 2 * step st ->
   8 * Z.abs (s - signal st') <= step st + 7)
  /\ (8 * (signal st - s) < step st ->
      8 * Z.abs (s - signal st') < 2 * step st)
  /\ (2 * step st <= signal st - s ->
      Z.abs (s - signal st')
      = signal st - s - Z.quot (step st * 15) 8).
Proof.
  intros Hst Hs Hd. cbv zeta. unfold encode_sample. cbn [snd].
  destruct (encode_sample_exact st s Hst Hs) as (Hq & Hm & Hsig & _).
  cbv zeta in Hq, Hm, Hsig. rewrite Hq, Hsig. clear Hq Hsig.
  destruct Hst as [Hp Hg]. unfold fits_short in Hs.
  remember (step st) as p eqn:Ep. remember (signal st) as g eqn:Eg.
  replace ((s - g) * 8) with (- ((g - s) * 8)) in * by lia.
  rewrite Z.quot_opp_l in * by lia.
  destruct (quot_nonneg_eq ((g - s) * 8) p) as (r & Hqr & Hr & Hq0);
    [lia | lia |].
  remember (Z.quot ((g - s) * 8) p) as q eqn:Eq in *.
  rewrite Z.abs_opp, (Z.abs_eq q) in * by lia.
  destruct (quot_nonneg_eq q 2) as (e & Hqe & He & Hm0); [lia | lia |].
  remember (Z.quot q 2) as m0 eqn:Em0 in *.
  remember (Z.min m0 7) as m eqn:Em in *.
  destruct (quot_nonneg_eq (p * (2 * m + 1)) 8) as (r2 & Hd2 & Hr2 & Hdl);
    [nia | lia |].
  remember (Z.quot (p * (2 * m + 1)) 8) as delta eqn:Edelta in *.
  split; [| split].
  - intros Hge Hlt.
    assert (1 <= q <= 15) as Hq15 by nia.
    replace (- q <? 0) with true by lia. cbv iota.
    assert (m = m0) as -> by lia.
    pose proof (limit_closer (g + - delta) s ltac:(lia)) as Hc.
    assert (8 * Z.abs (s - (g + - delta)) <= p + 7); [| lia].
    assert ((g - s) * 8 = 2 * (p * m0) + p * e + r) as Hqr'
        by (rewrite Hqr, Hqe; ring).
    assert (2 * (p * m0) + p = 8 * delta + r2) as Hd2'
        by (rewrite <- Hd2; ring).
    clear Hqr Hd2. remember (p * m0) as pm eqn:Epm.
    assert (e = 0 \/ e = 1) as [-> | ->] by lia; lia.
  - intros Hlt.
    assert (q = 0) as Hq00 by nia.
    rewrite Hq00 in *. change (- 0 <? 0) with false. cbv iota.
    assert (m0 = 0) by lia. assert (m = 0) as -> by lia.
    pose proof (limit_closer (g + delta) s ltac:(lia)) as Hc.
    assert (8 * Z.abs (s - (g + delta)) < 2 * p); [| lia].
    nia.
  - intros Hge.
    assert (16 <= q) as Hq16 by nia.
    replace (- q <? 0) with true by lia. cbv iota.
    assert (m = 7) as -> by lia.
    change (2 * 7 + 1) with 15 in *.
    rewrite limit_id by nia.
    rewrite Z.abs_neq by nia. lia.
Qed.

(** X1: one step of the encoder (and so of the decoder that replays it)
    brings the predicted signal to less than a quarter of the step from the
    sample when the sample is within two steps of the prediction; when it is
    further away (slope overload) the prediction moves towards the sample by
    [15 * step / 8] without passing it. *)
Theorem encoder_tracks_sample (st : state) (s : Z) :
  state_ok st -> fits_short s ->
  let st' := snd (encode_sample st s) in
  (Z.abs (s - signal st) < 2 * step st ->
   4 * Z.abs (s - signal st') < step st)
  /\ (2 * step st <= Z.abs (s - signal st) ->
      Z.abs (s - signal st')
      = Z.abs (s - signal st) - Z.quot (step st * 15) 8).
Proof.
  intros Hst Hs. cbv zeta.
  assert (127 <= step st) as Hp by (destruct Hst; lia).
  destruct (Z.le_gt_cases 0 (s - signal st)) as [Hd | Hd].
  - destruct (encode_error_up st s Hst Hs Hd) as [H1 H2]. cbv zeta in H1, H2.
    rewrite (Z.abs_eq (s - signal st)) by lia.
    split; [intros H; specialize (H1 H); lia | exact H2].
  - destruct (encode_error_down st s Hst Hs Hd) as (H1 & H2 & H3).
    cbv zeta in H1, H2, H3.
    rewrite (Z.abs_neq (s - signal st)) by lia.
    split.
    + intros H.
      destruct (Z.le_gt_cases (step st) (8 * (signal st - s))) as [Hb | Hb].
      * specialize (H1 Hb ltac:(lia)). lia.
      * specialize (H2 Hb). lia.
    + intros H. rewrite H3 by lia. lia.
Qed.

Lemma encoder_tracks_sample_witness :
  4 * Z.abs (100 - signal (snd (encode_sample init_state 100)))
  < step init_state.
Proof.
  assert (state_ok init_state) as Hst by (cbv; repeat split; discriminate).
  refine (proj1 (encoder_tracks_sample init_state 100 Hst _) _).
  - cbv. split; discriminate.
  - vm_compute. reflexivity.
Defined.

(** X2: the step adapts to the difference between the sample and the
    prediction: it never grows when the difference is below the step and
    never shrinks when the difference is at least the step. *)
Theorem step_adaptation (st : state) (s : Z) :
  state_ok st -> fits_short s ->
  let st' := snd (encode_sample st s) in
  (Z.abs (s - signal st) < step st -> step st' <= step st)
  /\ (step st <= Z.abs (s - signal st) -> step st <= step st').
Proof.
  intros Hst Hs. cbv zeta. unfold encode_sample. cbn [snd].
  destruct (encode_sample_exact st s Hst Hs) as (Hq & Hm & _ & Hstep).
  cbv zeta in Hq, Hm, Hstep. rewrite Hq, Hstep. clear Hq Hstep.
  destruct Hst as [Hp Hg]. unfold fits_short in Hs.
  remember (step st) as p eqn:Ep in *.
  remember (signal st) as g eqn:Eg in *.
  pose proof (Z.quot_abs ((s - g) * 8) p ltac:(lia)) as Habs.
  rewrite (Z.abs_eq p) in Habs by lia.
  rewrite <- Habs in *. clear Habs.
  rewrite Z.abs_mul in *. change (Z.abs 8) with 8 in *.
  remember (Z.abs (s - g)) as d eqn:Ed in *.
  assert (0 <= d) as Hd0 by lia.
  destruct (quot_nonneg_eq (d * 8) p) as (r & Hqr & Hr & Hq0); [lia | lia |].
  remember (Z.quot (d * 8) p) as q eqn:Eq in *.
  destruct (quot_nonneg_eq q 2) as (e & Hqe & He & Hm0); [lia | lia |].
  remember (Z.quot q 2) as m0 eqn:Em0 in *.
  remember (Z.min m0 7) as m eqn:Em in *.
  clear Eq Em0.
  split.
  - intros Hlt.
    assert (q <= 7) as Hq7 by nia.
    assert (m <= 3) as Hm3 by (clear - Hq7 Hqe He Em; lia).
    assert (tbl index_scale m = 230) as ->.
    { assert (m = 0 \/ m = 1 \/ m = 2 \/ m = 3) as Hc by lia.
      destruct Hc as [-> | [-> | [-> | ->]]]; reflexivity. }
    assert (p * 230 / 256 <= p) as Hle
        by (apply Z.div_le_upper_bound; lia).
    unfold limit.
    destruct (p * 230 / 256 <? 127) eqn:E1; [lia |].
    destruct (p * 230 / 256 >? 24576) eqn:E2; lia.
  - intros Hge.
    assert (8 <= q) as Hq8 by nia.
    assert (4 <= m) as Hm4 by (clear - Hq8 Hqe He Em; lia).
    assert (307 <= tbl index_scale m) as Hsc.
    { assert (m = 4 \/ m = 5 \/ m = 6 \/ m = 7) as Hc by lia.
      destruct Hc as [-> | [-> | [-> | ->]]]; cbv; discriminate. }
    assert (p <= p * tbl index_scale m / 256) as Hle
        by (apply Z.div_le_lower_bound; nia).
    unfold limit.
    destruct (_ <? 127) eqn:E1; [lia |].
    destruct (_ >? 24576) eqn:E2; lia.
Qed.

Lemma step_adaptation_witness :
  step (snd (encode_sample init_state 100)) <= step init_state
  /\ step init_state <= step (snd (encode_sample init_state 200)).
Proof.
  assert (state_ok init_state) as Hst by (cbv; repeat split; discriminate).
  split.
  - refine (proj1 (step_adaptation init_state 100 Hst _) _).
    + cbv. split; discriminate.
    + vm_compute. reflexivity.
  - refine (proj2 (step_adaptation init_state 200 Hst _) _).
    + cbv. split; discriminate.
    + vm_compute. discriminate.
Defined.

(** ** Codec core: what the loops read *)

Lemma usize_pred_zero : usize (0 - 1) = 2 ^ 64 - 1.
Proof. reflexivity. Qed.

(** A run of the encoder loop that returns has made [n] turns, [2 ^ 64]
    of them when it was entered with a count of 0. *)
Lemma pcm2adpcm_loop_Some src :
  forall n st out,
    0 <= n < 2 ^ 64 ->
    pcm2adpcm_loop src n st = Some out ->
    2 * (if n =? 0 then 2 ^ 64 else n) <= Z.of_nat (List.length src)
    /\ Z.of_nat (List.length out) = (if n =? 0 then 2 ^ 64 else n).
Proof.
  induction src as [| x | x y l IH] using list_pair_ind;
    intros n st out Hn H; try discriminate.
  rewrite pcm2adpcm_loop_eq in H. cbv zeta in H.
  assert (usize (n - 1) = if n =? 0 then 2 ^ 64 - 1 else n - 1) as Hu.
  { destruct (n =? 0) eqn:E.
    - apply Z.eqb_eq in E. subst n. reflexivity.
    - apply usize_pred. lia. }
  rewrite Hu in H. cbn [List.length].
  destruct (n =? 0) eqn:E.
  - change (2 ^ 64 - 1 =? 0) with false in H. cbv iota in H.
    destruct (pcm2adpcm_loop l _ _) as [o |] eqn:El; [| discriminate].
    injection H as <-.
    apply IH in El; [| lia].
    change (2 ^ 64 - 1 =? 0) with false in El. cbv iota in El.
    cbn [List.length]. lia.
  - destruct (n - 1 =? 0) eqn:E1.
    + injection H as <-. cbn [List.length]. lia.
    + destruct (pcm2adpcm_loop l _ _) as [o |] eqn:El; [| discriminate].
      injection H as <-.
      apply IH in El; [| lia]. rewrite E1 in El.
      cbn [List.length]. lia.
Qed.

Lemma adpcm2pcm_loop_Some src :
  forall n st out,
    0 <= n < 2 ^ 64 ->
    adpcm2pcm_loop src n st = Some out ->
    (if n =? 0 then 2 ^ 64 else n) <= Z.of_nat (List.length src)
    /\ Z.of_nat (List.length out) = 2 * (if n =? 0 then 2 ^ 64 else n).
Proof.
  induction src as [| d l IH]; intros n st out Hn H; try discriminate.
  rewrite adpcm2pcm_loop_eq in H. cbv zeta in H.
  assert (usize (n - 1) = if n =? 0 then 2 ^ 64 - 1 else n - 1) as Hu.
  { destruct (n =? 0) eqn:E.
    - apply Z.eqb_eq in E. subst n. reflexivity.
    - apply usize_pred. lia. }
  rewrite Hu in H. cbn [List.length].
  destruct (n =? 0) eqn:E.
  - change (2 ^ 64 - 1 =? 0) with false in H. cbv iota in H.
    destruct (adpcm2pcm_loop l _ _) as [o |] eqn:El; [| discriminate].
    injection H as <-.
    apply IH in El; [| lia].
    change (2 ^ 64 - 1 =? 0) with false in El. cbv iota in El.
    cbn [List.length]. lia.
  - destruct (n - 1 =? 0) eqn:E1.
    + injection H as <-. cbn [List.length]. lia.
    + destruct (adpcm2pcm_loop l _ _) as [o |] eqn:El; [| discriminate].
      injection H as <-.
      apply IH in El; [| lia]. rewrite E1 in El.
      cbn [List.length]. lia.
Qed.

(** What follows the samples a run has read has no part in its result. *)
Lemma pcm2adpcm_loop_app src :
  forall n st out extra,
    pcm2adpcm_loop src n st = Some out ->
    pcm2adpcm_loop (src ++ extra) n st = Some out.
Proof.
  induction src as [| x | x y l IH] using list_pair_ind;
    intros n st out extra H; try discriminate.
  change ((x :: y :: l) ++ extra) with (x :: y :: (l ++ extra)).
  rewrite pcm2adpcm_loop_eq in *. cbv zeta in *.
  destruct (usize (n - 1) =? 0); [exact H |].
  destruct (pcm2adpcm_loop l _ _) as [o |] eqn:El; [| discriminate].
  rewrite (IH _ _ _ extra El). exact H.
Qed.

Lemma adpcm2pcm_loop_app src :
  forall n st out extra,
    adpcm2pcm_loop src n st = Some out ->
    adpcm2pcm_loop (src ++ extra) n st = Some out.
Proof.
  induction src as [| d l IH]; intros n st out extra H; try discriminate.
  change ((d :: l) ++ extra) with (d :: (l ++ extra)).
  rewrite adpcm2pcm_loop_eq in *. cbv zeta in *.
  destruct (usize (n - 1) =? 0); [exact H |].
  destruct (adpcm2pcm_loop l _ _) as [o |] eqn:El; [| discriminate].
  rewrite (IH _ _ _ extra El). exact H.
Qed.

(** X3: the encoder returns exactly when the buffer holds the
    [2 * ceil (length / 4)] samples it reads, and then what follows them in
    the buffer does not change its result; a call with a length of 0 is no
    call on an empty input: the loop runs until the counter wraps around,
    which takes a buffer of [2 ^ 65] samples. *)
Theorem encoder_reads_its_samples :
  (forall src len,
      0 < len < 2 ^ 64 - 3 ->
      (pcm2adpcm src len <> None
       <-> 2 * ((len + 3) / 4) <= Z.of_nat (List.length src)))
  /\ (forall src len out extra,
         pcm2adpcm src len = Some out ->
         pcm2adpcm (src ++ extra) len = Some out)
  /\ (forall src,
         Z.of_nat (List.length src) < 2 ^ 65 -> pcm2adpcm src 0 = None).
Proof.
  split; [| split].
  - intros src len Hlen. split.
    + intros H.
      destruct (pcm2adpcm src len) as [out |] eqn:E; [| contradiction].
      unfold pcm2adpcm in E.
      assert (usize (len + 3) = len + 3) as Hu
          by (unfold usize; apply Z.mod_small; lia).
      rewrite Hu in E.
      assert (0 < (len + 3) / 4 < 2 ^ 64) as Hc.
      { split; [apply Z.div_str_pos; lia |].
        apply Z.div_lt_upper_bound; lia. }
      apply pcm2adpcm_loop_Some in E; [| lia].
      replace ((len + 3) / 4 =? 0) with false in E by lia. lia.
    + intros H.
      destruct (pcm2adpcm_length src len Hlen H) as (out & -> & _).
      discriminate.
  - intros src len out extra. apply pcm2adpcm_loop_app.
  - intros src Hsrc.
    destruct (pcm2adpcm src 0) as [out |] eqn:E; [| reflexivity].
    unfold pcm2adpcm in E. change (usize (0 + 3) / 4) with 0 in E.
    apply pcm2adpcm_loop_Some in E; [| lia].
    change (0 =? 0) with true in E. cbv iota in E. lia.
Qed.

Lemma encoder_reads_its_samples_witness :
  pcm2adpcm sample_pcm 16 <> None
  /\ pcm2adpcm (sample_pcm ++ [1; 2; 3]) 16 = Some [32; 78; 92; 76]
  /\ pcm2adpcm sample_pcm 0 = None.
Proof.
  destruct encoder_reads_its_samples as (A & B & C).
  split; [| split].
  - apply (A sample_pcm 16); [lia | vm_compute; discriminate].
  - apply (B sample_pcm 16). reflexivity.
  - apply (C sample_pcm). vm_compute. reflexivity.
Defined.

(** X4: the decoder returns exactly when the buffer holds the [length]
    bytes it reads, what follows them does not change its result, and a call
    with a length of 0 runs until the counter wraps around, which takes
    [2 ^ 64] bytes. *)
Theorem decoder_reads_its_bytes :
  (forall src n,
      0 < n < 2 ^ 64 ->
      (adpcm2pcm src n <> None <-> n <= Z.of_nat (List.length src)))
  /\ (forall src n out extra,
         adpcm2pcm src n = Some out ->
         adpcm2pcm (src ++ extra) n = Some out)
  /\ (forall src,
         Z.of_nat (List.length src) < 2 ^ 64 -> adpcm2pcm src 0 = None).
Proof.
  split; [| split].
  - intros src n Hn. split.
    + intros H.
      destruct (adpcm2pcm src n) as [out |] eqn:E; [| contradiction].
      apply adpcm2pcm_loop_Some in E; [| lia].
      replace (n =? 0) with false in E by lia. lia.
    + intros H.
      destruct (adpcm2pcm_loop_length src n init_state Hn H)
        as (out & E & _).
      unfold adpcm2pcm. rewrite E. discriminate.
  - intros src n out extra. apply adpcm2pcm_loop_app.
  - intros src Hsrc.
    destruct (adpcm2pcm src 0) as [out |] eqn:E; [| reflexivity].
    apply adpcm2pcm_loop_Some in E; [| lia].
    change (0 =? 0) with true in E. cbv iota in E. lia.
Qed.

Lemma decoder_reads_its_bytes_witness :
  adpcm2pcm [32; 78; 92; 76] 4 <> None
  /\ adpcm2pcm ([32; 78; 92; 76] ++ [7])  4
     = Some [15; 94; -112; 173; -169; 331; -322; 461]
  /\ adpcm2pcm [32; 78; 92; 76] 0 = None.
Proof.
  destruct decoder_reads_its_bytes as (A & B & C).
  split; [| split].
  - apply (A [32; 78; 92; 76] 4); [lia | vm_compute; discriminate].
  - apply (B [32; 78; 92; 76] 4). reflexivity.
  - apply (C [32; 78; 92; 76]). vm_compute. reflexivity.
Defined.

(** ** Stereo transform: channels *)

Lemma nth_pairs (A : Type) (f g : nat -> A) (d : A) n :
  forall a j,
    (j < n)%nat ->
    nth (j * 2 + 0) (flat_map (fun i => [f i; g i]) (seq a n)) d = f (a + j)%nat
    /\ nth (j * 2 + 1) (flat_map (fun i => [f i; g i]) (seq a n)) d
       = g (a + j)%nat.
Proof.
  induction n as [| n IH]; intros a j Hj; [lia |].
  cbn [seq flat_map app].
  destruct j as [| j].
  - rewrite !Nat.add_0_r. split; reflexivity.
  - replace (S j * 2 + 0)%nat with (S (S (j * 2 + 0))) by lia.
    replace (S j * 2 + 1)%nat with (S (S (j * 2 + 1))) by lia.
    cbn [nth].
    replace (a + S j)%nat with (S a + j)%nat by lia.
    apply IH. lia.
Qed.

Lemma map_nth_seq (A : Type) (l : list A) (d : A) :
  map (fun j => nth j l d) (seq 0 (List.length l)) = l.
Proof.
  apply (nth_ext _ _ d d).
  - rewrite length_map, length_seq. reflexivity.
  - intros j Hj. rewrite length_map, length_seq in Hj.
    rewrite nth_map_seq by assumption. reflexivity.
Qed.

Lemma app_same_length (A : Type) (l1 : list A) :
  forall l1' l2 l2',
    List.length l1 = List.length l1' ->
    l1 ++ l2 = l1' ++ l2' -> l1 = l1' /\ l2 = l2'.
Proof.
  induction l1 as [| x l1 IH]; intros [| y l1'] l2 l2' Hlen H;
    try discriminate.
  - auto.
  - injection H as -> H. injection Hlen as Hlen.
    destruct (IH _ _ _ Hlen H) as [-> ->]. auto.
Qed.

(** The channels of a buffer, as [deinterleave] lays them out. *)
Lemma deinterleave_channels (buffer : list Z) (n : nat) :
  List.length buffer = (2 * n)%nat ->
  Z.of_nat n <= 2^30 ->
  deinterleave buffer (2 * Z.of_nat (List.length buffer))
  = Some (channel_samples 0 buffer ++ channel_samples 1 buffer).
Proof.
  intros H Hr. rewrite (deinterleave_closed buffer n H Hr).
  unfold channel_samples. rewrite H.
  replace (Nat.div (2 * n) 2) with n
    by (symmetry; rewrite Nat.mul_comm; apply Nat.div_mul; lia).
  reflexivity.
Qed.

(** The frames that [interleave] makes of two channel buffers. *)
Lemma interleave_frames (L R : list Z) :
  List.length L = List.length R ->
  Z.of_nat (List.length L) <= 2^30 ->
  exists frames,
    interleave (L ++ R) (4 * Z.of_nat (List.length L)) = Some frames
    /\ List.length frames = (2 * List.length L)%nat
    /\ channel_samples 0 frames = L
    /\ channel_samples 1 frames = R.
Proof.
  intros Hlen Hr.
  remember (List.length L) as n eqn:En.
  exists (flat_map (fun j => [nth j L 0; nth j R 0]) (seq 0 n)).
  assert (List.length (flat_map (fun j => [nth j L 0; nth j R 0]) (seq 0 n))
          = (2 * n)%nat) as Hf
      by (rewrite flat_map_pair_length, length_seq; reflexivity).
  assert (forall c (h : nat -> Z),
             (forall j, (j < n)%nat ->
                        nth (j * 2 + c)
                            (flat_map (fun j => [nth j L 0; nth j R 0])
                                      (seq 0 n)) 0 = h j) ->
             channel_samples c
               (flat_map (fun j => [nth j L 0; nth j R 0]) (seq 0 n))
             = map h (seq 0 n)) as Hch.
  { intros c h Hh. unfold channel_samples. rewrite Hf.
    replace (Nat.div (2 * n) 2) with n
      by (symmetry; rewrite Nat.mul_comm; apply Nat.div_mul; lia).
    apply map_ext_in. intros j Hj. apply in_seq in Hj. apply Hh. lia. }
  split; [| split; [exact Hf | split]].
  - replace (4 * Z.of_nat n) with (Z.of_nat n * 4) by lia.
    apply interleave_closed; first [assumption | congruence].
  - rewrite (Hch 0%nat (fun j => nth j L 0)).
    + rewrite En. apply map_nth_seq.
    + intros j Hj. apply (nth_pairs _ (fun j => nth j L 0)
                                    (fun j => nth j R 0) 0 n 0%nat j Hj).
  - rewrite (Hch 1%nat (fun j => nth j R 0)).
    + rewrite Hlen. apply map_nth_seq.
    + intros j Hj. apply (nth_pairs _ (fun j => nth j L 0)
                                    (fun j => nth j R 0) 0 n 0%nat j Hj).
Qed.

(** X5: [interleave] on a buffer that holds a left channel of [n] samples
    followed by a right channel of [n] samples gives the frames
    left, right, left, right, ..., and [deinterleave] takes the result back
    to the two channels: the transforms are inverse of each other in this
    direction as well.  The [int] index of the two loops stays in range up
    to [n = 2^30]; above that [interleave] has no defined result. *)
Theorem deinterleave_interleave (L R : list Z) :
  List.length L = List.length R ->
  (Z.of_nat (List.length L) <= 2^30 ->
   exists frames,
     interleave (L ++ R) (4 * Z.of_nat (List.length L)) = Some frames
     /\ channel_samples 0 frames = L
     /\ channel_samples 1 frames = R
     /\ deinterleave frames (4 * Z.of_nat (List.length L)) = Some (L ++ R))
  /\ (2^30 < Z.of_nat (List.length L) ->
      interleave (L ++ R) (4 * Z.of_nat (List.length L)) = None).
Proof.
  intros Hlen. split.
  - intros Hr.
    destruct (interleave_frames L R Hlen Hr) as (frames & Hi & Hf & H0 & H1).
    exists frames.
    split; [exact Hi | split; [exact H0 | split; [exact H1 |]]].
    replace (4 * Z.of_nat (List.length L))
      with (2 * Z.of_nat (List.length frames)) by lia.
    rewrite (deinterleave_channels _ _ Hf Hr), H0, H1. reflexivity.
  - intros Hr. apply interleave_overflow.
    replace (4 * Z.of_nat (List.length L))
      with (Z.of_nat (List.length L) * 4) by lia.
    rewrite Z_div_mult by lia. exact Hr.
Qed.

Lemma deinterleave_interleave_witness :
  exists frames,
    interleave ([1; 3; 5] ++ [2; 4; 6]) 12 = Some frames
    /\ channel_samples 0 frames = [1; 3; 5]
    /\ channel_samples 1 frames = [2; 4; 6]
    /\ deinterleave frames 12 = Some ([1; 3; 5] ++ [2; 4; 6]).
Proof.
  apply (deinterleave_interleave [1; 3; 5] [2; 4; 6]).
  - reflexivity.
  - vm_compute. discriminate.
Defined.

(** The two halves that [deinterleave] makes of a stereo payload, and
    their encodings. *)
Lemma encode_payload_channels channels pcmbuf k :
  (channels =? 1) = false ->
  Z.of_nat (List.length pcmbuf) = 8 * k -> 0 < k < 2 ^ 29 ->
  exists out1 out2,
    pcm2adpcm (channel_samples 0 (shorts_of_bytes pcmbuf)
               ++ channel_samples 1 (shorts_of_bytes pcmbuf)) (4 * k)
    = Some out1
    /\ pcm2adpcm (channel_samples 1 (shorts_of_bytes pcmbuf)) (4 * k)
       = Some out2
    /\ Z.of_nat (List.length out1) = k /\ Z.of_nat (List.length out2) = k
    /\ Z.of_nat (List.length (channel_samples 0 (shorts_of_bytes pcmbuf)))
       = 2 * k
    /\ encode_payload channels (Some pcmbuf) (8 * k) (8 * k / 4)
       = Some (out1 ++ out2).
Proof.
  intros Hch Hlen Hk.
  destruct (encode_payload_stereo channels pcmbuf k Hch Hlen Hk)
    as (L & R & o1 & o2 & Hd & HL & HR & H1 & H2 & Hl1 & Hl2 & He).
  assert (8 * k / 2 = 4 * k) as E2
      by (replace (8 * k) with (4 * k * 2) by lia; apply Z_div_mult; lia).
  rewrite E2 in H1, H2.
  pose proof (shorts_of_bytes_length pcmbuf) as Hs.
  rewrite Hlen, E2 in Hs.
  assert (List.length (shorts_of_bytes pcmbuf)
          = (2 * Z.to_nat (2 * k))%nat) as Hn by lia.
  assert (Z.of_nat (Z.to_nat (2 * k)) <= 2^30) as Hb by lia.
  pose proof (deinterleave_channels _ _ Hn Hb) as Hd'.
  replace (2 * Z.of_nat (List.length (shorts_of_bytes pcmbuf)))
    with (8 * k) in Hd' by lia.
  rewrite Hd in Hd'. injection Hd' as Hd'.
  assert (List.length (channel_samples 0 (shorts_of_bytes pcmbuf))
          = List.length L) as HlenL.
  { unfold channel_samples. rewrite length_map, length_seq, Hn.
    rewrite Nat.mul_comm, Nat.div_mul by lia. lia. }
  assert (L = channel_samples 0 (shorts_of_bytes pcmbuf)
          /\ R = channel_samples 1 (shorts_of_bytes pcmbuf)) as [EL ER].
  { apply app_same_length; [symmetry; exact HlenL | exact Hd']. }
  subst L R.
  exists o1, o2. repeat split; assumption.
Qed.

(** X6: in a stereo payload of [8 * k] bytes the two channels are encoded
    independently, each by a run of the encoder that starts from the initial
    predictor state, and the encoded left channel is stored before the
    encoded right channel, [k] bytes each. *)
Theorem stereo_channels_encoded_apart (channels : Z) (pcmbuf : list byte)
        (k : Z) :
  (channels =? 1) = false ->
  Z.of_nat (List.length pcmbuf) = 8 * k -> 0 < k < 2 ^ 29 ->
  exists left right,
    pcm2adpcm (channel_samples 0 (shorts_of_bytes pcmbuf)) (4 * k)
    = Some left
    /\ pcm2adpcm (channel_samples 1 (shorts_of_bytes pcmbuf)) (4 * k)
       = Some right
    /\ Z.of_nat (List.length left) = k /\ Z.of_nat (List.length right) = k
    /\ encode_payload channels (Some pcmbuf) (8 * k) (8 * k / 4)
       = Some (left ++ right).
Proof.
  intros Hch Hlen Hk.
  destruct (encode_payload_channels channels pcmbuf k Hch Hlen Hk)
    as (o1 & o2 & H1 & H2 & Hl1 & Hl2 & HL & He).
  destruct (pcm2adpcm_length (channel_samples 0 (shorts_of_bytes pcmbuf))
                             (4 * k)) as (oL & HoL & _);
    [lia | rewrite ceil_quarter; lia |].
  pose proof (pcm2adpcm_loop_app _ _ _ _
                (channel_samples 1 (shorts_of_bytes pcmbuf)) HoL) as Happ.
  fold (pcm2adpcm (channel_samples 0 (shorts_of_bytes pcmbuf)
                   ++ channel_samples 1 (shorts_of_bytes pcmbuf)) (4 * k))
    in Happ.
  rewrite H1 in Happ. injection Happ as <-.
  exists o1, o2. auto.
Qed.

Lemma stereo_channels_encoded_apart_witness :
  exists left right,
    pcm2adpcm (channel_samples 0 (shorts_of_bytes
                                    (bytes_of_shorts sample_pcm))) (4 * 2)
    = Some left
    /\ pcm2adpcm (channel_samples 1 (shorts_of_bytes
                                       (bytes_of_shorts sample_pcm))) (4 * 2)
       = Some right
    /\ Z.of_nat (List.length left) = 2 /\ Z.of_nat (List.length right) = 2
    /\ encode_payload 2 (Some (bytes_of_shorts sample_pcm)) (8 * 2)
                      (8 * 2 / 4)
       = Some (left ++ right).
Proof.
  apply (stereo_channels_encoded_apart 2 (bytes_of_shorts sample_pcm) 2).
  - reflexivity.
  - reflexivity.
  - lia.
Defined.

(** ** Container: reads of the encode path *)

Lemma advance_advance f a b : advance (advance f a) b = advance f (a + b).
Proof. unfold advance. cbn [content pos]. f_equal. lia. Qed.

Lemma advance_positioned f bs rest :
  positioned f (bs ++ rest) ->
  positioned (advance f (Z.of_nat (List.length bs))) rest.
Proof.
  intros (Hpos & Heof & Hrem).
  unfold positioned, remaining, advance in *. cbn [pos eof content].
  repeat split; [lia |].
  rewrite zdrop_skipn in *.
  replace (Z.to_nat (pos f + Z.of_nat (List.length bs)))
    with (List.length bs + Z.to_nat (pos f))%nat by lia.
  rewrite <- skipn_skipn, Hrem.
  rewrite skipn_app, skipn_all, Nat.sub_diag. reflexivity.
Qed.

(** A read of bytes that are there, with the stream it leaves. *)
Lemma fread_eq f bs rest size :
  positioned f (bs ++ rest) ->
  Z.of_nat (List.length bs) = size -> 0 < size ->
  fread f size = (advance f size, bs, 1).
Proof.
  intros (Hpos & Heof & Hrem) Hlen Hsize.
  unfold fread, advance.
  destruct (size <=? 0) eqn:E; [lia |].
  rewrite Hrem, ztake_firstn.
  replace (Z.to_nat size) with (List.length bs + 0)%nat by lia.
  rewrite firstn_app_2. cbn [firstn]. rewrite app_nil_r.
  replace (Z.of_nat (List.length bs) =? size) with true by lia.
  rewrite Heof. reflexivity.
Qed.

Lemma fread_u32_eq f old bs rest :
  positioned f (bs ++ rest) -> List.length bs = 4%nat ->
  fread_u32 f old = (advance f 4, le_decode bs).
Proof.
  intros Hf Hlen. unfold fread_u32.
  rewrite (fread_eq f bs rest 4 Hf) by lia.
  rewrite overlay_full by (rewrite le_bytes_length; assumption).
  reflexivity.
Qed.

Lemma fread_i32_eq f old bs rest :
  positioned f (bs ++ rest) -> List.length bs = 4%nat ->
  fread_i32 f old = (advance f 4, signed 32 (le_decode bs)).
Proof.
  intros Hf Hlen. unfold fread_i32.
  rewrite (fread_eq f bs rest 4 Hf) by lia.
  rewrite overlay_full by (rewrite le_bytes_length; assumption).
  reflexivity.
Qed.

Lemma fread_i16_eq f old bs rest :
  positioned f (bs ++ rest) -> List.length bs = 2%nat ->
  fread_i16 f old = (advance f 2, signed 16 (le_decode bs)).
Proof.
  intros Hf Hlen. unfold fread_i16.
  rewrite (fread_eq f bs rest 2 Hf) by lia.
  rewrite overlay_full by (rewrite le_bytes_length; assumption).
  reflexivity.
Qed.

Lemma fread_each_eq old :
  forall f bs rest,
    positioned f (bs ++ rest) -> List.length bs = List.length old ->
    fread_each f old = (advance f (Z.of_nat (List.length bs)), bs).
Proof.
  induction old as [| o old IH]; intros f bs rest Hf Hlen.
  - destruct bs; [| discriminate]. cbn [fread_each List.length].
    unfold advance. destruct Hf as (_ & Heof & _).
    destruct f as [c p e]. cbn in *. subst e.
    do 2 f_equal. lia.
  - destruct bs as [| b bs]; [discriminate |].
    change ((b :: bs) ++ rest) with ([b] ++ bs ++ rest) in Hf.
    cbn [fread_each].
    rewrite (fread_eq f [b] _ 1 Hf) by (cbn; lia).
    pose proof (advance_positioned f [b] _ Hf) as Hf1.
    change (Z.of_nat (List.length [b])) with 1 in Hf1.
    rewrite (IH _ bs rest Hf1) by (simpl in Hlen; lia).
    rewrite advance_advance. cbn [overlay List.length skipn app].
    do 2 f_equal. cbn [List.length]. lia.
Qed.

(** The chunk header read on a header that is there. *)
Lemma read_chunk_header_eq f l id lenb rest :
  positioned f (id ++ lenb ++ rest) ->
  List.length id = 4%nat -> List.length (dID l) = 4%nat ->
  List.length lenb = 4%nat ->
  read_chunk_header f l = (advance f 8, set_chunk l id (le_decode lenb))
  /\ positioned (advance f 8) rest.
Proof.
  intros Hf Hid HdID Hlen. unfold read_chunk_header.
  rewrite (fread_each_eq (dID l) f id _ Hf) by congruence.
  pose proof (advance_positioned f id _ Hf) as Hf1.
  rewrite (fread_u32_eq _ (len l) lenb rest Hf1 Hlen).
  pose proof (advance_positioned _ lenb _ Hf1) as Hf2.
  rewrite advance_advance in *. rewrite Hid, Hlen in *.
  change (Z.of_nat 4 + 4) with 8. change (Z.of_nat 4 + Z.of_nat 4) with 8 in Hf2.
  split; [reflexivity | exact Hf2].
Qed.

(** The turn on a chunk whose header is there, before the branch on the
    chunk id. *)
Lemma chunk_step_at f l id lenb rest :
  positioned f (id ++ lenb ++ rest) ->
  List.length id = 4%nat -> List.length (dID l) = 4%nat ->
  List.length lenb = 4%nat ->
  let f1 := advance f 8 in
  let l1 := set_start (set_chunk l id (le_decode lenb)) (u32 (pos f + 8)) in
  positioned f1 rest
  /\ chunk_step f l =
     if negb (memcmp id (lit "smpl") 4) then Break (smpl_chunk f1 l1)
     else
       match (if negb (memcmp id (lit "fmt ") 4) then fmt_chunk f1 l1
              else if negb (memcmp id (lit "data") 4) then data_chunk f1 l1
                   else inr (f1, l1)) with
       | inl msg => Fail msg
       | inr (f2, l2) => Next (fseek f2 (u32 (start l2 + len l2))) l2
       end.
Proof.
  intros Hf Hid HdID Hlen. cbv zeta.
  destruct (read_chunk_header_eq f l id lenb rest Hf Hid HdID Hlen)
    as [Hr Hf1].
  split; [exact Hf1 |].
  rewrite chunk_step_eq. unfold chunk_id. rewrite Hr. cbn [fst snd].
  reflexivity.
Qed.

(** ** Container: the turns of the chunk walk *)

(** The two ways a read of [size > 0] bytes ends. *)
Lemma fread_cases f size :
  0 <= pos f -> 0 < size ->
  let k := Z.of_nat (List.length (remaining f)) in
  (size <= k
   /\ fread f size
      = (mkFILE (content f) (pos f + size) (eof f),
         firstn (Z.to_nat size) (remaining f), 1)
   /\ remaining (mkFILE (content f) (pos f + size) (eof f))
      = skipn (Z.to_nat size) (remaining f))
  \/ (k < size
      /\ fread f size
         = (mkFILE (content f) (pos f + k) true, remaining f, 0)
      /\ remaining (mkFILE (content f) (pos f + k) true) = []).
Proof.
  intros Hpos Hsize. cbv zeta.
  assert (forall n, 0 <= n ->
            remaining (mkFILE (content f) (pos f + n) (eof f))
            = skipn (Z.to_nat n) (remaining f)) as Hrem.
  { intros n Hn. unfold remaining. cbn [pos content].
    rewrite !zdrop_skipn, skipn_skipn. f_equal. lia. }
  unfold fread. destruct (size <=? 0) eqn:E; [lia |].
  rewrite ztake_firstn, length_firstn.
  destruct (Z_le_gt_dec size (Z.of_nat (List.length (remaining f)))) as [H | H].
  - left. split; [assumption |].
    destruct (_ =? size) eqn:T; [| apply Z.eqb_neq in T; lia].
    split; [reflexivity |]. apply Hrem. lia.
  - right. split; [lia |].
    destruct (_ =? size) eqn:T; [apply Z.eqb_eq in T; lia |].
    rewrite firstn_all2 by lia.
    replace (Z.of_nat (Nat.min _ _))
      with (Z.of_nat (List.length (remaining f))) by lia.
    split; [reflexivity |].
    unfold remaining in *. cbn [pos content].
    rewrite !zdrop_skipn in *.
    apply skipn_all2. rewrite length_skipn in H. rewrite length_skipn in *. lia.
Qed.

(** What a read leaves to read, and when it sets the end-of-file
    indicator. *)
Lemma fread_count f size f' got r :
  0 <= pos f -> 0 < size ->
  fread f size = (f', got, r) ->
  0 <= pos f'
  /\ Z.of_nat (List.length (remaining f'))
     = Z.max 0 (Z.of_nat (List.length (remaining f)) - size)
  /\ eof f' = eof f || (Z.of_nat (List.length (remaining f)) <? size).
Proof.
  intros Hpos Hsize H.
  destruct (fread_cases f size Hpos Hsize) as [(Hk & E & Hr) | (Hk & E & Hr)];
    rewrite E in H; injection H as <- <- <-; rewrite Hr; cbn [pos eof].
  - split; [lia |]. rewrite length_skipn.
    split; [lia |].
    destruct (_ <? size) eqn:T; [apply Z.ltb_lt in T; lia |].
    rewrite orb_false_r. reflexivity.
  - split; [lia |]. cbn [List.length].
    split; [lia |].
    destruct (_ <? size) eqn:T; [| apply Z.ltb_ge in T; lia].
    rewrite orb_true_r. reflexivity.
Qed.

(** X7: a turn of the chunk walk that starts with fewer than eight bytes
    left to read, the size of a chunk header, ends the conversion with
    ["Invalid truncated WAVE header."], whatever these bytes are; so does in
    particular a turn that starts at the end of the file. *)
Theorem truncated_chunk_header (f : FILE) (l : locals) :
  0 <= pos f -> List.length (dID l) = 4%nat ->
  (List.length (remaining f) < 8)%nat ->
  chunk_step f l = Fail "Invalid truncated WAVE header.".
Proof.
  intros Hpos HdID Hk.
  rewrite chunk_step_eq. cbv zeta.
  replace (feof (fst (read_chunk_header f l))) with true; [reflexivity |].
  unfold read_chunk_header, feof.
  destruct (dID l) as [| a [| b [| c [| d [| ? ?]]]]]; try discriminate.
  cbn [fread_each].
  destruct (fread f 1) as [[f1 g1] r1] eqn:E1.
  destruct (fread f1 1) as [[f2 g2] r2] eqn:E2.
  destruct (fread f2 1) as [[f3 g3] r3] eqn:E3.
  destruct (fread f3 1) as [[f4 g4] r4] eqn:E4.
  unfold fread_u32.
  destruct (fread f4 4) as [[f5 g5] r5] eqn:E5.
  cbn [fst eof].
  apply fread_count in E1 as (P1 & K1 & F1); [| lia | lia].
  apply fread_count in E2 as (P2 & K2 & F2); [| lia | lia].
  apply fread_count in E3 as (P3 & K3 & F3); [| lia | lia].
  apply fread_count in E4 as (P4 & K4 & F4); [| lia | lia].
  apply fread_count in E5 as (P5 & K5 & F5); [| lia | lia].
  rewrite F5, F4, F3, F2, F1.
  destruct (eof f); [reflexivity |]. cbn [orb].
  destruct (_ <? 1) eqn:T1; [reflexivity |].
  destruct (Z.of_nat (List.length (remaining f1)) <? 1) eqn:T2; [reflexivity |].
  destruct (Z.of_nat (List.length (remaining f2)) <? 1) eqn:T3; [reflexivity |].
  destruct (Z.of_nat (List.length (remaining f3)) <? 1) eqn:T4; [reflexivity |].
  cbn [orb]. symmetry. apply Z.ltb_lt. lia.
Qed.

Lemma truncated_chunk_header_witness :
  chunk_step (fseek (fopen_rb wav_plain) 60) (wav2adpcm_entry zero_stack)
  = Fail "Invalid truncated WAVE header.".
Proof.
  apply truncated_chunk_header.
  - cbn. lia.
  - reflexivity.
  - vm_compute. lia.
Defined.

(** A turn on a [fmt ] chunk whose six fields are there. *)
Lemma fmt_chunk_turn f l lenb fmtb chb frb bpsb bszb btsb rest :
  positioned f (lit "fmt " ++ lenb ++ fmtb ++ chb ++ frb ++ bpsb ++ bszb
                ++ btsb ++ rest) ->
  List.length (dID l) = 4%nat -> List.length lenb = 4%nat ->
  List.length fmtb = 2%nat -> List.length chb = 2%nat ->
  List.length frb = 4%nat -> List.length bpsb = 4%nat ->
  List.length bszb = 2%nat -> List.length btsb = 2%nat ->
  let fmt := signed 16 (le_decode fmtb) in
  let ch := signed 16 (le_decode chb) in
  let h := wavhdr l in
  chunk_step f l
  = if have_fmt l || (negb (ch =? 1) && negb (ch =? 2)) || negb (fmt =? 1)
    then Fail "Unsupported format."
    else Next (fseek f (u32 (u32 (pos f + 8) + le_decode lenb)))
              (set_have_fmt
                 (set_wavhdr
                    (set_start (set_chunk l (lit "fmt ") (le_decode lenb))
                               (u32 (pos f + 8)))
                    (mkWavhdr (hdr1 h) (totalsize h) (hdr2 h) (hdrsize h)
                              fmt ch (signed 32 (le_decode frb))
                              (signed 32 (le_decode bpsb))
                              (signed 16 (le_decode bszb))
                              (signed 16 (le_decode btsb))
                              (hdr3 h) (datasize h)))
                 true).
Proof.
  intros Hf HdID Hlen Hfmt Hch Hfr Hbps Hbsz Hbts. cbv zeta.
  destruct (chunk_step_at f l (lit "fmt ") lenb _ Hf eq_refl HdID Hlen)
    as [Hf1 Hstep].
  change (negb (memcmp (lit "fmt ") (lit "smpl") 4)) with false in Hstep.
  change (negb (memcmp (lit "fmt ") (lit "fmt ") 4)) with true in Hstep.
  cbv iota in Hstep. rewrite Hstep. clear Hstep.
  remember (advance f 8) as f1 eqn:Ef1.
  remember (set_start (set_chunk l (lit "fmt ") (le_decode lenb))
                      (u32 (pos f + 8))) as l1 eqn:El1.
  assert (wavhdr l1 = wavhdr l /\ have_fmt l1 = have_fmt l
          /\ start l1 = u32 (pos f + 8) /\ len l1 = le_decode lenb)
    as (Hw & Hh & Hs & Hn) by (subst l1; repeat split).
  unfold fmt_chunk.
  rewrite (fread_i16_eq f1 _ fmtb _ Hf1 Hfmt).
  pose proof (advance_positioned _ _ _ Hf1) as Hf2. rewrite Hfmt in Hf2.
  rewrite (fread_i16_eq _ _ chb _ Hf2 Hch).
  pose proof (advance_positioned _ _ _ Hf2) as Hf3. rewrite Hch in Hf3.
  rewrite (fread_i32_eq _ _ frb _ Hf3 Hfr).
  pose proof (advance_positioned _ _ _ Hf3) as Hf4. rewrite Hfr in Hf4.
  rewrite (fread_i32_eq _ _ bpsb _ Hf4 Hbps).
  pose proof (advance_positioned _ _ _ Hf4) as Hf5. rewrite Hbps in Hf5.
  rewrite (fread_i16_eq _ _ bszb _ Hf5 Hbsz).
  pose proof (advance_positioned _ _ _ Hf5) as Hf6. rewrite Hbsz in Hf6.
  rewrite (fread_i16_eq _ _ btsb _ Hf6 Hbts).
  rewrite Hh, Hw.
  destruct (have_fmt l || _ || _); [reflexivity |].
  cbn [start len set_have_fmt set_wavhdr]. rewrite Hs, Hn.
  subst f1. reflexivity.
Qed.

(** X8: a turn on a [fmt ] chunk.  It ends the conversion with
    ["Unsupported format."] exactly when an earlier [fmt ] chunk was seen,
    the format tag is not 1 or the channel count is neither 1 nor 2.
    Otherwise the six fields of the chunk are taken into the header, the
    chunk is marked as seen, the loaded samples are left as they are and
    the walk goes on at the offset of the chunk body plus the chunk length,
    both taken modulo 2^32. *)
Theorem fmt_chunk_checked (f : FILE) (l : locals)
        (lenb fmtb chb frb bpsb bszb btsb rest : list byte) :
  positioned f (lit "fmt " ++ lenb ++ fmtb ++ chb ++ frb ++ bpsb ++ bszb
                ++ btsb ++ rest) ->
  List.length (dID l) = 4%nat -> List.length lenb = 4%nat ->
  List.length fmtb = 2%nat -> List.length chb = 2%nat ->
  List.length frb = 4%nat -> List.length bpsb = 4%nat ->
  List.length bszb = 2%nat -> List.length btsb = 2%nat ->
  let fmt := signed 16 (le_decode fmtb) in
  let ch := signed 16 (le_decode chb) in
  (chunk_step f l = Fail "Unsupported format."
   <-> have_fmt l = true \/ fmt <> 1 \/ (ch <> 1 /\ ch <> 2))
  /\ (have_fmt l = false -> fmt = 1 -> ch = 1 \/ ch = 2 ->
      exists l',
        chunk_step f l
        = Next (fseek f (u32 (u32 (pos f + 8) + le_decode lenb))) l'
        /\ have_fmt l' = true
        /\ format (wavhdr l') = 1 /\ channels (wavhdr l') = ch
        /\ freq (wavhdr l') = signed 32 (le_decode frb)
        /\ byte_per_sec (wavhdr l') = signed 32 (le_decode bpsb)
        /\ blocksize (wavhdr l') = signed 16 (le_decode bszb)
        /\ bits (wavhdr l') = signed 16 (le_decode btsb)
        /\ hdr1 (wavhdr l') = hdr1 (wavhdr l)
        /\ hdr2 (wavhdr l') = hdr2 (wavhdr l)
        /\ pcmbuf l' = pcmbuf l /\ pcmsize l' = pcmsize l
        /\ adpcmsize l' = adpcmsize l
        /\ nSampleLength l' = nSampleLength l
        /\ loopType l' = loopType l /\ startLoop l' = startLoop l
        /\ endLoop l' = endLoop l /\ haveLoop l' = haveLoop l).
Proof.
  intros Hf HdID Hlen Hfmt Hch Hfr Hbps Hbsz Hbts. cbv zeta.
  pose proof (fmt_chunk_turn f l lenb fmtb chb frb bpsb bszb btsb rest
                Hf HdID Hlen Hfmt Hch Hfr Hbps Hbsz Hbts) as Hstep.
  cbv zeta in Hstep.
  remember (signed 16 (le_decode fmtb)) as fmt eqn:Efmt.
  remember (signed 16 (le_decode chb)) as ch eqn:Ech.
  destruct (have_fmt l) eqn:Ehave.
  { cbn [orb] in Hstep. split; [| discriminate].
    rewrite Hstep. split; auto. }
  cbn [orb] in Hstep.
  destruct (fmt =? 1) eqn:T1.
  2:{ rewrite orb_true_r in Hstep. apply Z.eqb_neq in T1.
      split; [rewrite Hstep; split; auto | contradiction]. }
  apply Z.eqb_eq in T1. rewrite orb_false_r in Hstep.
  destruct (ch =? 1) eqn:T2; destruct (ch =? 2) eqn:T3;
    cbn [negb andb] in Hstep;
    rewrite ?Z.eqb_eq, ?Z.eqb_neq in T2, T3.
  1-3: split;
    [ rewrite Hstep; split; [discriminate | intros [? | [? | [? ?]]]];
      exfalso; first [discriminate | lia]
    | intros _ _ _; eexists; split;
      [ exact Hstep | cbn; repeat split; assumption ] ].
  split; [rewrite Hstep; split; auto |].
  intros _ _ [? | ?]; contradiction.
Qed.

Lemma fmt_chunk_checked_witness :
  exists l',
    chunk_step (fseek (fopen_rb wav_plain) 12) (wav2adpcm_entry zero_stack)
    = Next (fseek (fseek (fopen_rb wav_plain) 12) (u32 (u32 (12 + 8) + 16))) l'
    /\ have_fmt l' = true /\ channels (wavhdr l') = 1
    /\ freq (wavhdr l') = 44100 /\ blocksize (wavhdr l') = 2.
Proof.
  destruct (fmt_chunk_checked
              (fseek (fopen_rb wav_plain) 12) (wav2adpcm_entry zero_stack)
              (le_bytes 4 16) (le_bytes 2 1) (le_bytes 2 1)
              (le_bytes 4 44100) (le_bytes 4 88200) (le_bytes 2 2)
              (le_bytes 2 16)
              (riff_chunk "data" (bytes_of_shorts sample_pcm)))
    as [_ H].
  - repeat split. cbn. lia.
  - reflexivity.
  - reflexivity.
  - reflexivity.
  - reflexivity.
  - reflexivity.
  - reflexivity.
  - reflexivity.
  - reflexivity.
  - destruct H as (l' & H). 
    + reflexivity.
    + reflexivity.
    + left. reflexivity.
    + exists l'. repeat split; apply H.
Defined.

(** A turn on a [data] chunk. *)
Lemma data_chunk_turn f l lenb rest :
  positioned f (lit "data" ++ lenb ++ rest) ->
  List.length (dID l) = 4%nat -> List.length lenb = 4%nat ->
  let n := le_decode lenb in
  chunk_step f l
  = if negb (have_fmt l) || negb (blocksize (wavhdr l) =? 2)
    then Fail "Unsupported format."
    else if (n =? 0) || (Z.of_nat (List.length rest) <? n)
         then Fail "Cannot read data."
         else Next (fseek f (u32 (u32 (pos f + 8) + n)))
                   (set_pcm
                      (set_nSampleLength
                         (set_start (set_chunk l (lit "data") n)
                                    (u32 (pos f + 8)))
                         (Z.shiftr n 1))
                      n (n / 4) (Some (firstn (Z.to_nat n) rest))).
Proof.
  intros Hf HdID Hlen. cbv zeta.
  destruct (chunk_step_at f l (lit "data") lenb _ Hf eq_refl HdID Hlen)
    as [Hf1 Hstep].
  change (negb (memcmp (lit "data") (lit "smpl") 4)) with false in Hstep.
  change (negb (memcmp (lit "data") (lit "fmt ") 4)) with false in Hstep.
  change (negb (memcmp (lit "data") (lit "data") 4)) with true in Hstep.
  cbv iota in Hstep. rewrite Hstep. clear Hstep.
  pose proof (le_decode_nonneg lenb) as Hn0.
  remember (le_decode lenb) as n eqn:En.
  remember (advance f 8) as f1 eqn:Ef1.
  remember (set_start (set_chunk l (lit "data") n) (u32 (pos f + 8)))
    as l1 eqn:El1.
  unfold data_chunk.
  replace (have_fmt l1) with (have_fmt l) by (subst l1; reflexivity).
  replace (blocksize (wavhdr (set_nSampleLength l1 (Z.shiftr (len l1) 1))))
    with (blocksize (wavhdr l)) by (subst l1; reflexivity).
  replace (len (set_nSampleLength l1 (Z.shiftr (len l1) 1))) with n
    by (subst l1; reflexivity).
  replace (len l1) with n by (subst l1; reflexivity).
  destruct (have_fmt l); [| reflexivity]. cbn [negb orb].
  destruct (blocksize (wavhdr l) =? 2); [| reflexivity]. cbn [negb].
  destruct Hf1 as (Hp1 & He1 & Hr1).
  destruct (n =? 0) eqn:Tz.
  { apply Z.eqb_eq in Tz. rewrite Tz. reflexivity. }
  apply Z.eqb_neq in Tz. cbn [orb].
  destruct (fread_cases f1 n Hp1 ltac:(lia)) as [(Hk & E & _) | (Hk & E & _)];
    rewrite Hr1 in *; rewrite E; cbn [Z.eqb negb].
  - destruct (_ <? n) eqn:T; [apply Z.ltb_lt in T; lia |].
    subst l1 f1. reflexivity.
  - destruct (_ <? n) eqn:T; [| apply Z.ltb_ge in T; lia].
    reflexivity.
Qed.

(** X9: a turn on a [data] chunk of [n] bytes.  It ends the conversion
    with ["Unsupported format."] exactly when no [fmt ] chunk came before or
    the block alignment taken from it is not 2 - as it is for 16-bit stereo,
    where the field holds 4 -, and with ["Cannot read data."] exactly when,
    these tests passed, [n] is 0 or the file holds fewer than [n] bytes
    after the chunk header.  Otherwise the [n] bytes are loaded, the sizes
    are [n] and [n / 4], the sample count is [n / 2], and the walk goes on
    behind the chunk. *)
Theorem data_chunk_loaded (f : FILE) (l : locals) (lenb rest : list byte) :
  positioned f (lit "data" ++ lenb ++ rest) ->
  List.length (dID l) = 4%nat -> List.length lenb = 4%nat ->
  let n := le_decode lenb in
  (chunk_step f l = Fail "Unsupported format."
   <-> have_fmt l = false \/ blocksize (wavhdr l) <> 2)
  /\ (chunk_step f l = Fail "Cannot read data."
      <-> have_fmt l = true /\ blocksize (wavhdr l) = 2
          /\ (n = 0 \/ Z.of_nat (List.length rest) < n))
  /\ (have_fmt l = true -> blocksize (wavhdr l) = 2 ->
      0 < n <= Z.of_nat (List.length rest) ->
      exists l',
        chunk_step f l = Next (fseek f (u32 (u32 (pos f + 8) + n))) l'
        /\ pcmbuf l' = Some (firstn (Z.to_nat n) rest)
        /\ pcmsize l' = n /\ adpcmsize l' = n / 4
        /\ nSampleLength l' = n / 2
        /\ wavhdr l' = wavhdr l /\ have_fmt l' = true
        /\ loopType l' = loopType l /\ startLoop l' = startLoop l
        /\ endLoop l' = endLoop l /\ haveLoop l' = haveLoop l).
Proof.
  intros Hf HdID Hlen. cbv zeta.
  pose proof (data_chunk_turn f l lenb rest Hf HdID Hlen) as Hstep.
  cbv zeta in Hstep.
  pose proof (le_decode_nonneg lenb) as Hn0.
  remember (le_decode lenb) as n eqn:En.
  destruct (have_fmt l) eqn:Ehave; cbn [negb orb] in Hstep.
  2:{ rewrite Hstep. split; [split; auto |].
      split; [split; [discriminate | intros [? _]; discriminate] |].
      discriminate. }
  destruct (blocksize (wavhdr l) =? 2) eqn:Tb; cbn [negb] in Hstep.
  2:{ apply Z.eqb_neq in Tb. rewrite Hstep. split; [split; auto |].
      split; [split; [discriminate | intros (_ & ? & _); contradiction] |].
      intros _ ?. contradiction. }
  apply Z.eqb_eq in Tb.
  destruct (n =? 0) eqn:Tz; cbn [orb] in Hstep.
  { apply Z.eqb_eq in Tz. rewrite Hstep.
    split; [split; [discriminate | intros [? | ?]; congruence] |].
    split; [split; auto |]. intros _ _ ?. lia. }
  apply Z.eqb_neq in Tz.
  destruct (_ <? n) eqn:Tk;
    [apply Z.ltb_lt in Tk | apply Z.ltb_ge in Tk]; rewrite Hstep.
  - split; [split; [discriminate | intros [? | ?]; congruence] |].
    split; [split; [intros _; repeat split; auto | reflexivity] |].
    intros _ _ ?. lia.
  - split; [split; [discriminate | intros [? | ?]; congruence] |].
    split; [split; [discriminate | intros (_ & _ & [? | ?]); lia] |].
    intros _ _ _. eexists. split; [reflexivity |].
    assert (Z.shiftr n 1 = n / 2) as Hsh
      by (rewrite Z.shiftr_div_pow2 by lia; reflexivity).
    repeat split; try assumption; exact Hsh.
Qed.

Lemma data_chunk_loaded_witness :
  exists l',
    chunk_step (fseek (fopen_rb wav_plain) 36)
               (snd (turns 1 (fseek (fopen_rb wav_plain) 12)
                           (wav2adpcm_entry zero_stack)))
    = Next (fseek (fopen_rb wav_plain) 60) l'
    /\ pcmbuf l' = Some (bytes_of_shorts sample_pcm)
    /\ pcmsize l' = 16 /\ adpcmsize l' = 4 /\ nSampleLength l' = 8.
Proof.
  destruct (data_chunk_loaded
              (fseek (fopen_rb wav_plain) 36)
              (snd (turns 1 (fseek (fopen_rb wav_plain) 12)
                          (wav2adpcm_entry zero_stack)))
              (le_bytes 4 16) (bytes_of_shorts sample_pcm))
    as (_ & _ & H).
  - repeat split. cbn. lia.
  - reflexivity.
  - reflexivity.
  - destruct H as (l' & H).
    + reflexivity.
    + reflexivity.
    + vm_compute. split; [reflexivity | discriminate].
    + exists l'. destruct H as (E & Hb & Hp & Ha & Hs & _).
      rewrite E, Hb, Hp, Ha, Hs. repeat split.
Defined.

(** ** Container: walks that do not end, and walks that end well *)

(** A turn on a chunk that is none of the three the walk knows. *)
Lemma chunk_step_unknown f l id lenb rest :
  positioned f (id ++ lenb ++ rest) ->
  List.length id = 4%nat -> List.length (dID l) = 4%nat ->
  List.length lenb = 4%nat ->
  memcmp id (lit "smpl") 4 = true -> memcmp id (lit "fmt ") 4 = true ->
  memcmp id (lit "data") 4 = true ->
  chunk_step f l
  = Next (fseek f (u32 (u32 (pos f + 8) + le_decode lenb)))
         (set_start (set_chunk l id (le_decode lenb)) (u32 (pos f + 8))).
Proof.
  intros Hf Hid HdID Hlen Hs Hm Hd.
  destruct (chunk_step_at f l id lenb rest Hf Hid HdID Hlen) as [_ ->].
  rewrite Hs, Hm, Hd. reflexivity.
Qed.

(** A walk whose turn comes back to where it started takes every fuel. *)
Lemma chunk_walk_cycle f id lenb rest :
  positioned f (id ++ lenb ++ rest) ->
  List.length id = 4%nat -> List.length lenb = 4%nat ->
  memcmp id (lit "smpl") 4 = true -> memcmp id (lit "fmt ") 4 = true ->
  memcmp id (lit "data") 4 = true ->
  u32 (u32 (pos f + 8) + le_decode lenb) = pos f ->
  forall fuel l, List.length (dID l) = 4%nat -> chunk_walk fuel f l = None.
Proof.
  intros Hf Hid Hlen Hs Hm Hd Hback.
  induction fuel as [| fuel IH]; intros l HdID; [reflexivity |].
  cbn [chunk_walk].
  rewrite (chunk_step_unknown f l id lenb rest) by assumption.
  rewrite Hback.
  replace (fseek f (pos f)) with f.
  - apply IH. exact Hid.
  - destruct Hf as (_ & He & _). destruct f as [c p e]. cbn in *.
    subst e. reflexivity.
Qed.

(** X10: the converter does not return on a file whose first chunk is none
    of [smpl], [fmt ] and [data] and has the length [0xFFFFFFF8]: the offset
    of the next chunk, 20 + length computed in 32 bits, is 12, the offset
    of this chunk, so that the walk reads the same chunk header again at
    every turn. *)
Theorem chunk_walk_never_ends (stack : locals) (magic sz id rest : list byte)
        (fuel : nat) :
  List.length magic = 4%nat -> firstn 3 magic = lit "RIF" ->
  List.length sz = 4%nat -> List.length id = 4%nat ->
  id <> lit "smpl" -> id <> lit "fmt " -> id <> lit "data" ->
  wav2adpcm stack
            (Some (magic ++ sz ++ lit "WAVE" ++ id
                   ++ le_bytes 4 (2 ^ 32 - 8) ++ rest))
            fuel
  = None.
Proof.
  intros Hmagic Hrif Hsz Hid Hs Hm Hd.
  remember (magic ++ sz ++ lit "WAVE" ++ id ++ le_bytes 4 (2 ^ 32 - 8) ++ rest)
    as bytes eqn:Eb.
  assert (positioned (fopen_rb bytes)
            (magic ++ sz ++ lit "WAVE" ++ id ++ le_bytes 4 (2 ^ 32 - 8)
             ++ rest)) as H0
    by (rewrite <- Eb; apply fopen_rb_positioned).
  unfold wav2adpcm, read_riff.
  rewrite (fread_eq _ magic _ 4 H0) by lia.
  pose proof (advance_positioned _ _ _ H0) as H1. rewrite Hmagic in H1.
  change (Z.of_nat 4) with 4 in H1.
  cbn [negb Z.eqb Pos.eqb].
  rewrite (fread_eq _ sz _ 4 H1) by lia.
  pose proof (advance_positioned _ _ _ H1) as H2. rewrite Hsz in H2.
  change (Z.of_nat 4) with 4 in H2.
  cbn [negb Z.eqb Pos.eqb].
  change (lit "WAVE" ++ id ++ le_bytes 4 (2 ^ 32 - 8) ++ rest)
    with (lit "WAVE" ++ (id ++ le_bytes 4 (2 ^ 32 - 8) ++ rest)) in H2.
  rewrite (fread_eq _ (lit "WAVE") _ 4 H2) by reflexivity.
  pose proof (advance_positioned _ _ _ H2) as H3.
  change (Z.of_nat (List.length (lit "WAVE"))) with 4 in H3.
  cbn [negb Z.eqb Pos.eqb].
  cbn [wavhdr set_wavhdr hdr1 hdr2].
  replace (memcmp magic (lit "RIFF") 3) with false
    by (symmetry; apply memcmp_false; exact Hrif).
  match goal with
  | |- context [memcmp ?a (lit "WAVE") 4] =>
      replace (memcmp a (lit "WAVE") 4) with false
        by (symmetry; apply memcmp_false; reflexivity)
  end.
  cbn [orb].
  assert (forall a b : list byte,
            List.length a = 4%nat -> List.length b = 4%nat -> a <> b ->
            memcmp a b 4 = true) as Hne.
  { intros a b Ha Hb Hab. apply memcmp_true.
    rewrite !firstn_all2 by lia. exact Hab. }
  rewrite (chunk_walk_cycle _ id (le_bytes 4 (2 ^ 32 - 8)) rest H3);
    auto using le_bytes_length.
Qed.

Lemma chunk_walk_never_ends_witness :
  wav2adpcm zero_stack
            (Some (lit "RIFF" ++ le_bytes 4 12 ++ lit "WAVE" ++ lit "LIST"
                   ++ le_bytes 4 (2 ^ 32 - 8) ++ []))
            1000
  = None.
Proof.
  apply chunk_walk_never_ends.
  - reflexivity.
  - reflexivity.
  - reflexivity.
  - reflexivity.
  - discriminate.
  - discriminate.
  - discriminate.
Defined.

(** The walk reads one file. *)
Lemma fread_each_content old :
  forall f, content (fst (fread_each f old)) = content f.
Proof.
  induction old as [| o old IH]; intros f; [reflexivity |].
  cbn [fread_each].
  destruct (fread f 1) as [[f1 g1] r1] eqn:E1.
  specialize (IH f1). destruct (fread_each f1 old) as [f2 t].
  apply fread_stream in E1 as [E1 _]. cbn [fst] in *. congruence.
Qed.

Lemma read_chunk_header_content f l :
  content (fst (read_chunk_header f l)) = content f.
Proof.
  unfold read_chunk_header.
  pose proof (fread_each_content (dID l) f) as H.
  destruct (fread_each f (dID l)) as [f1 id]. cbn [fst] in H.
  unfold fread_u32.
  destruct (fread f1 4) as [[f2 g] r] eqn:E. cbn [fst].
  apply fread_stream in E as [E _]. congruence.
Qed.

Lemma fmt_chunk_content f l f' l' :
  fmt_chunk f l = inr (f', l') -> content f' = content f.
Proof.
  unfold fmt_chunk, fread_i16, fread_i32. intros H.
  repeat match type of H with
         | context [fread ?g ?n] =>
             let E := fresh "E" in
             destruct (fread g n) as [[? ?] ?] eqn:E;
             apply fread_stream in E as [E _]
         end.
  match type of H with
  | (if ?c then _ else _) = _ => destruct c; [discriminate |]
  end.
  injection H as <- _. congruence.
Qed.

Lemma data_chunk_content f l f' l' :
  data_chunk f l = inr (f', l') -> content f' = content f.
Proof.
  unfold data_chunk. intros H.
  destruct (negb (have_fmt l)); [discriminate |].
  match type of H with
  | (if ?c then _ else _) = _ => destruct c; [discriminate |]
  end.
  destruct (fread f _) as [[f1 got] r] eqn:E.
  destruct (negb (r =? 1)); [discriminate |].
  injection H as <- _. apply fread_stream in E as [E _]. exact E.
Qed.

Lemma chunk_step_content f l f' l' :
  chunk_step f l = Next f' l' -> content f' = content f.
Proof.
  rewrite chunk_step_eq. cbv zeta.
  pose proof (read_chunk_header_content f l) as Hc.
  destruct (feof _); [discriminate |].
  destruct (negb (memcmp (chunk_id f l) (lit "smpl") 4)); [discriminate |].
  destruct (negb (memcmp (chunk_id f l) (lit "fmt ") 4)).
  - destruct (fmt_chunk _ _) as [msg | [f2 l2]] eqn:E; [discriminate |].
    intros H. injection H as <- _. apply fmt_chunk_content in E.
    cbn [fseek content]. congruence.
  - destruct (negb (memcmp (chunk_id f l) (lit "data") 4)).
    + destruct (data_chunk _ _) as [msg | [f2 l2]] eqn:E; [discriminate |].
      intros H. injection H as <- _. apply data_chunk_content in E.
      cbn [fseek content]. congruence.
    + intros H. injection H as <- _. exact Hc.
Qed.

Lemma read_riff_content bytes l f0 l0 :
  read_riff (fopen_rb bytes) l = Some (f0, l0) -> content f0 = bytes.
Proof.
  unfold read_riff. intros H.
  destruct (fread (fopen_rb bytes) 4) as [[f1 g1] r1] eqn:E1.
  destruct (negb (r1 =? 1)); [discriminate |].
  destruct (fread f1 4) as [[f2 g2] r2] eqn:E2.
  destruct (negb (r2 =? 1)); [discriminate |].
  destruct (fread f2 4) as [[f3 g3] r3] eqn:E3.
  destruct (negb (r3 =? 1)); [discriminate |].
  injection H as <- _.
  apply fread_stream in E1 as [E1 _]. apply fread_stream in E2 as [E2 _].
  apply fread_stream in E3 as [E3 _]. rewrite E3, E2, E1. reflexivity.
Qed.

Lemma walking_content stack bytes f0 l0 f l :
  read_riff (fopen_rb bytes) (wav2adpcm_entry stack) = Some (f0, l0) ->
  walking f0 l0 f l -> content f = bytes.
Proof.
  intros H0 W. induction W as [| f l f' l' W IH Hstep].
  - exact (read_riff_content _ _ _ _ H0).
  - apply chunk_step_content in Hstep. congruence.
Qed.

(** The end-of-file indicator stays set through the byte reads. *)
Lemma fread_each_eof old :
  forall f, 0 <= pos f -> eof f = true -> eof (fst (fread_each f old)) = true.
Proof.
  induction old as [| o old IH]; intros f Hpos He; [exact He |].
  cbn [fread_each].
  destruct (fread f 1) as [[f1 g1] r1] eqn:E1.
  apply fread_count in E1 as (P1 & _ & F1); [| lia | lia].
  specialize (IH f1 P1). destruct (fread_each f1 old) as [f2 t].
  cbn [fst] in *. apply IH. rewrite F1, He. reflexivity.
Qed.

(** Byte reads that leave the indicator clear have read the next bytes of
    the file. *)
Lemma fread_each_full old :
  forall f,
    0 <= pos f -> eof (fst (fread_each f old)) = false ->
    snd (fread_each f old) = firstn (List.length old) (remaining f)
    /\ (List.length old <= List.length (remaining f))%nat.
Proof.
  induction old as [| o old IH]; intros f Hpos He.
  - split; [reflexivity | cbn; lia].
  - cbn [fread_each] in *.
    destruct (fread_cases f 1 Hpos ltac:(lia)) as [(Hk & E & Hr) | (Hk & E & Hr)];
      rewrite E in *.
    + assert (0 <= pos (mkFILE (content f) (pos f + 1) (eof f))) as P1
        by (cbn; lia).
      specialize (IH _ P1).
      destruct (fread_each _ old) as [f2 t]. cbn [fst snd] in *.
      destruct (IH He) as [-> Hl]. rewrite Hr in *.
      change (Z.to_nat 1) with 1%nat in *.
      destruct (remaining f) as [| x r]; [cbn in Hk; lia |].
      cbn [firstn skipn overlay List.length app] in Hl |- *.
      split; [reflexivity | lia].
    + assert (0 <= pos (mkFILE (content f)
                               (pos f + Z.of_nat (List.length (remaining f)))
                               true)) as P1 by (cbn; lia).
      pose proof (fread_each_eof old _ P1 eq_refl) as Ht.
      destruct (fread_each _ old) as [f2 t]. cbn [fst] in *. congruence.
Qed.

(** A chunk header read that does not meet the end of the file has read
    the chunk id from the file. *)
Lemma chunk_id_full f l :
  0 <= pos f -> List.length (dID l) = 4%nat ->
  feof (fst (read_chunk_header f l)) = false ->
  chunk_id f l = firstn 4 (remaining f).
Proof.
  intros Hpos HdID He. unfold chunk_id, read_chunk_header, feof in *.
  pose proof (fread_each_full (dID l) f Hpos) as Hfull.
  pose proof (fread_each_content (dID l) f) as Hc.
  destruct (fread_each f (dID l)) as [f1 id] eqn:E1. cbn [fst snd] in *.
  unfold fread_u32 in *.
  destruct (fread f1 4) as [[f2 g] r] eqn:E2. cbn [fst snd dID set_chunk] in *.
  destruct (eof f1) eqn:He1.
  - unfold fread in E2. cbn in E2.
    destruct (_ =? 4); injection E2 as <- _ _; cbn in He; congruence.
  - rewrite HdID in Hfull. apply Hfull. reflexivity.
Qed.

(** X11: a conversion that returns 0 has left the chunk walk at a [smpl]
    chunk: some turn of the walk started at an offset of the input file
    where the four bytes ["smpl"] stand.  A file that holds these bytes
    nowhere is not converted, whatever else it holds. *)
Theorem conversion_needs_smpl (stack : locals) (bytes : list byte)
        (fuel : nat) (e : exit) :
  wav2adpcm stack (Some bytes) fuel = Some (Exited e) ->
  status e = 0 ->
  exists f0 l0 f l,
    read_riff (fopen_rb bytes) (wav2adpcm_entry stack) = Some (f0, l0)
    /\ walking f0 l0 f l
    /\ firstn 4 (skipn (Z.to_nat (pos f)) bytes) = lit "smpl".
Proof.
  unfold wav2adpcm. intros H Hs.
  destruct (read_riff _ _) as [[f0 l0] |] eqn:Er;
    [| injection H as <-; discriminate].
  destruct (_ || _); [injection H as <-; discriminate |].
  destruct (chunk_walk fuel f0 l0) as [[msg | l'] |] eqn:Ew;
    [injection H as <-; discriminate | | discriminate].
  destruct (chunk_walk_walking _ _ _ _ Ew) as (f & l & W & Hb).
  apply chunk_step_Break in Hb as [Hb He].
  exists f0, l0, f, l. split; [reflexivity |]. split; [exact W |].
  pose proof (walking_inv _ _ _ _ _ _ Er W) as (_ & Hpos & _).
  pose proof (walking_dID _ _ _ _ _ _ Er W) as HdID.
  pose proof (walking_content _ _ _ _ _ _ Er W) as Hc.
  rewrite (chunk_id_full f l Hpos HdID He) in Hb.
  apply memcmp_false in Hb. rewrite firstn_firstn in Hb.
  unfold remaining in Hb. rewrite zdrop_skipn, Hc in Hb. exact Hb.
Qed.

Lemma conversion_needs_smpl_witness :
  exists f0 l0 f l,
    read_riff (fopen_rb wav_loop) (wav2adpcm_entry zero_stack) = Some (f0, l0)
    /\ walking f0 l0 f l
    /\ firstn 4 (skipn (Z.to_nat (pos f)) wav_loop) = lit "smpl".
Proof.
  apply (conversion_needs_smpl zero_stack wav_loop 3
           (mkExit 0 None
                   (match wav2adpcm zero_stack (Some wav_loop) 3 with
                    | Some (Exited e) => outfile e
                    | _ => None
                    end))).
  - vm_compute. reflexivity.
  - reflexivity.
Defined.

(** ** Object representations: round trips *)

Lemma Z_of_byte_lt b : Z_of_byte b < 256.
Proof.
  unfold Z_of_byte. pose proof (Byte.to_N_bounded b). lia.
Qed.

Lemma byte_of_Z_of_byte b : byte_of_Z (Z_of_byte b) = b.
Proof.
  unfold byte_of_Z.
  rewrite Z.mod_small by (pose proof (Z_of_byte_nonneg b);
                          pose proof (Z_of_byte_lt b); lia).
  unfold Z_of_byte. rewrite N2Z.id, Byte.of_to_N. reflexivity.
Qed.

Lemma Z_of_byte_of_Z z : Z_of_byte (byte_of_Z z) = z mod 256.
Proof.
  unfold byte_of_Z, Z_of_byte.
  pose proof (Z.mod_pos_bound z 256 ltac:(lia)) as Hb.
  destruct (Byte.of_N (Z.to_N (z mod 256))) as [b |] eqn:E.
  - apply Byte.to_of_N in E. rewrite E. lia.
  - apply Byte.of_N_None_iff in E. lia.
Qed.

Lemma byte_of_Z_mod z k : byte_of_Z (z + k * 256) = byte_of_Z z.
Proof. unfold byte_of_Z. rewrite Z.mod_add by lia. reflexivity. Qed.

(** The value of an object of [n] bytes holding [z]. *)
Lemma le_decode_le_bytes n :
  forall z, le_decode (le_bytes n z) = z mod 2 ^ (8 * Z.of_nat n).
Proof.
  induction n as [| n IH]; intros z.
  - cbn. rewrite Z.mod_1_r. reflexivity.
  - cbn [le_bytes le_decode]. rewrite IH, Z_of_byte_of_Z.
    replace (8 * Z.of_nat (S n)) with (8 + 8 * Z.of_nat n) by lia.
    rewrite Z.pow_add_r by lia. change (2 ^ 8) with 256.
    rewrite Z.rem_mul_r by lia. reflexivity.
Qed.

Lemma le_decode_le_bytes_small n z :
  0 <= z < 2 ^ (8 * Z.of_nat n) -> le_decode (le_bytes n z) = z.
Proof.
  intros H. rewrite le_decode_le_bytes. apply Z.mod_small. exact H.
Qed.

(** The bytes of an object are those of its value. *)
Lemma le_bytes_le_decode bs : le_bytes (List.length bs) (le_decode bs) = bs.
Proof.
  induction bs as [| b bs IH]; [reflexivity |].
  cbn [List.length le_bytes le_decode].
  pose proof (Z_of_byte_nonneg b). pose proof (Z_of_byte_lt b).
  f_equal.
  - rewrite Z.mul_comm, byte_of_Z_mod. apply byte_of_Z_of_byte.
  - rewrite Z.mul_comm, Z.div_add, Z.div_small by lia. exact IH.
Qed.

Lemma le_bytes_mod n :
  forall z k, le_bytes n (z + k * 2 ^ (8 * Z.of_nat n)) = le_bytes n z.
Proof.
  induction n as [| n IH]; intros z k; [reflexivity |].
  cbn [le_bytes].
  replace (8 * Z.of_nat (S n)) with (8 * Z.of_nat n + 8) by lia.
  rewrite Z.pow_add_r by lia. change (2 ^ 8) with 256.
  rewrite Z.mul_assoc. f_equal.
  - apply byte_of_Z_mod.
  - rewrite Z.div_add by lia. apply IH.
Qed.

(** Also when the value is read as a signed one. *)
Lemma le_bytes_signed n z :
  le_bytes n (signed (8 * Z.of_nat n) z) = le_bytes n z.
Proof.
  unfold signed. destruct (z <? _); [reflexivity |].
  replace (z - 2 ^ (8 * Z.of_nat n)) with (z + (-1) * 2 ^ (8 * Z.of_nat n))
    by lia.
  apply le_bytes_mod.
Qed.

Lemma le_bytes_signed_decode bs n :
  List.length bs = n ->
  le_bytes n (signed (8 * Z.of_nat n) (le_decode bs)) = bs.
Proof.
  intros <-. rewrite le_bytes_signed. apply le_bytes_le_decode.
Qed.

(** A signed value that fits comes back from its object. *)
Lemma signed_decode_le_bytes n z :
  (0 < n)%nat ->
  - 2 ^ (8 * Z.of_nat n - 1) <= z < 2 ^ (8 * Z.of_nat n - 1) ->
  signed (8 * Z.of_nat n) (le_decode (le_bytes n z)) = z.
Proof.
  intros Hn Hz. rewrite le_decode_le_bytes. unfold signed.
  assert (2 ^ (8 * Z.of_nat n) = 2 * 2 ^ (8 * Z.of_nat n - 1)) as Hp.
  { rewrite <- Z.pow_succ_r by lia. f_equal. lia. }
  remember (2 ^ (8 * Z.of_nat n - 1)) as h eqn:Eh.
  rewrite Hp.
  destruct (Z_lt_ge_dec z 0) as [Hneg | Hpos].
  - replace (z mod (2 * h)) with (z + 2 * h).
    + destruct (_ <? h) eqn:T; [apply Z.ltb_lt in T; lia | lia].
    + symmetry. rewrite <- (Z.mod_add _ 1) by lia.
      rewrite Z.mul_1_l. apply Z.mod_small. lia.
  - rewrite Z.mod_small by lia.
    destruct (_ <? h) eqn:T; [reflexivity | apply Z.ltb_ge in T; lia].
Qed.



(** ** Container: the converted file *)

Lemma fseek_positioned f pre rest off :
  content f = pre ++ rest -> Z.of_nat (List.length pre) = off ->
  positioned (fseek f off) rest.
Proof.
  intros Hc Hoff. unfold positioned, remaining, fseek. cbn [pos eof content].
  repeat split; [lia |].
  rewrite zdrop_skipn, Hc, <- Hoff, Nat2Z.id.
  rewrite skipn_app, skipn_all, Nat.sub_diag. reflexivity.
Qed.

(** The RIFF header read on a file that has the twelve bytes. *)
Lemma read_riff_eq bytes l magic sz w rest :
  bytes = magic ++ sz ++ w ++ rest ->
  List.length magic = 4%nat -> List.length sz = 4%nat ->
  List.length w = 4%nat ->
  let h := wavhdr l in
  read_riff (fopen_rb bytes) l
  = Some (fseek (fopen_rb bytes) 12,
          set_wavhdr l
            (mkWavhdr magic (signed 32 (le_decode sz))
                      (overlay (hdr2 h) w) (hdrsize h) (format h)
                      (channels h) (freq h) (byte_per_sec h) (blocksize h)
                      (bits h) (hdr3 h) (datasize h))).
Proof.
  intros Eb Hmagic Hsz Hw. cbv zeta.
  assert (positioned (fopen_rb bytes) (magic ++ sz ++ w ++ rest)) as H0
    by (rewrite <- Eb; apply fopen_rb_positioned).
  unfold read_riff.
  rewrite (fread_eq _ magic _ 4 H0) by lia.
  pose proof (advance_positioned _ _ _ H0) as H1. rewrite Hmagic in H1.
  change (Z.of_nat 4) with 4 in H1.
  cbn [negb Z.eqb Pos.eqb].
  rewrite (fread_eq _ sz _ 4 H1) by lia.
  pose proof (advance_positioned _ _ _ H1) as H2. rewrite Hsz in H2.
  change (Z.of_nat 4) with 4 in H2.
  cbn [negb Z.eqb Pos.eqb].
  rewrite (fread_eq _ w _ 4 H2) by lia.
  cbn [negb Z.eqb Pos.eqb].
  reflexivity.
Qed.

(** The [smpl] branch leaves the header alone. *)
Lemma smpl_chunk_wavhdr f l : wavhdr (smpl_chunk f l) = wavhdr l.
Proof.
  unfold smpl_chunk.
  repeat match goal with
         | |- context [let '(_, _) := ?e in _] => destruct e
         end.
  reflexivity.
Qed.

(** The default loop touches the loop variables only. *)
Lemma default_loop_rest l :
  wavhdr (default_loop l) = wavhdr l
  /\ pcmbuf (default_loop l) = pcmbuf l
  /\ pcmsize (default_loop l) = pcmsize l
  /\ adpcmsize (default_loop l) = adpcmsize l.
Proof. unfold default_loop. destruct (endLoop l =? 0); repeat split. Qed.

(** What is written once the payload is encoded. *)
Lemma wav2adpcm_finish_eq l enc :
  encode_payload (channels (wavhdr l)) (pcmbuf l) (pcmsize l) (adpcmsize l)
  = Some enc ->
  0 < adpcmsize l < 2 ^ 30 ->
  let h := wavhdr l in
  wav2adpcm_finish l
  = Exited (mkExit 0 None
       (Some (wavhdr_bytes
                (mkWavhdr (hdr1 h) (adpcmsize l + 36)
                          (firstn 4 (hdr2 h) ++ lit "fmt ") 16 20
                          (channels h) (freq h) (byte_per_sec h)
                          (blocksize h) 4 (lit "data") (adpcmsize l))
              ++ bytes_of_uchars enc ++ smpl_out (default_loop l)))).
Proof.
  intros Henc Ha. cbv zeta. unfold wav2adpcm_finish.
  destruct (default_loop_rest l) as (-> & -> & -> & ->).
  rewrite Henc.
  rewrite (wrap32_id (adpcmsize l)) by (unfold fits_int; lia).
  replace (usize (adpcmsize l + 44 - 8)) with (adpcmsize l + 36)
    by (unfold usize; rewrite Z.mod_small by lia; lia).
  rewrite (wrap32_id (adpcmsize l + 36)) by (unfold fits_int; lia).
  unfold fwrite. cbn [Z.leb Z.compare Z.eqb Pos.eqb negb orb].
  destruct (adpcmsize l <=? 0) eqn:T; [apply Z.leb_le in T; lia |].
  cbn [Z.eqb Pos.eqb negb orb app]. rewrite <- app_assoc. reflexivity.
Qed.

(** The run of the converter on a file of the usual layout, the header
    written as an object. *)
Lemma wav2adpcm_canonical_run (stack : locals)
        (magic sz chb frb bpsb btsb payload slen hdr ty s e tail : list byte)
        (enc : list Z) (fuel : nat) :
  let n := Z.of_nat (List.length payload) in
  let ch := signed 16 (le_decode chb) in
  List.length magic = 4%nat -> firstn 3 magic = lit "RIF" ->
  List.length sz = 4%nat ->
  List.length chb = 2%nat -> ch = 1 \/ ch = 2 ->
  List.length frb = 4%nat -> List.length bpsb = 4%nat ->
  List.length btsb = 2%nat ->
  4 <= n -> n + 44 < 2 ^ 32 ->
  List.length slen = 4%nat -> List.length hdr = 40%nat ->
  List.length ty = 4%nat -> List.length s = 4%nat ->
  List.length e = 4%nat ->
  encode_payload ch (Some payload) n (n / 4) = Some enc ->
  wav2adpcm stack
    (Some (magic ++ sz ++ lit "WAVE"
           ++ lit "fmt " ++ le_bytes 4 16 ++ le_bytes 2 1 ++ chb ++ frb
           ++ bpsb ++ le_bytes 2 2 ++ btsb
           ++ lit "data" ++ le_bytes 4 n ++ payload
           ++ lit "smpl" ++ slen ++ hdr ++ ty ++ s ++ e ++ tail))
    (3 + fuel)
  = Some (Exited (mkExit 0 None (Some
      (wavhdr_bytes
         (mkWavhdr magic (n / 4 + 36) (lit "WAVEfmt ") 16 20 ch
                   (signed 32 (le_decode frb)) (signed 32 (le_decode bpsb))
                   2 4 (lit "data") (n / 4))
       ++ bytes_of_uchars enc
       ++ (if (le_decode ty =? 0) && (0 <? le_decode e)
           then riff_chunk "smpl"
                  (smpl_body 0
                     (if n / 2 <? le_decode s then 0 else le_decode s)
                     (Z.min (le_decode e) (n / 2)))
           else []))))).
Proof.
  intros n ch Hmagic Hrif Hsz Hchb Hch Hfrb Hbpsb Hbtsb Hn4 Hn32
         Hslen Hhdr Hty Hs He Henc.
  assert (n = Z.of_nat (List.length payload)) as En by reflexivity.
  assert (ch = signed 16 (le_decode chb)) as Ech by reflexivity.
  clearbody n ch.
  remember (lit "smpl" ++ slen ++ hdr ++ ty ++ s ++ e ++ tail) as c3 eqn:Ec3.
  remember (lit "data" ++ le_bytes 4 n ++ payload ++ c3) as c2 eqn:Ec2.
  remember (lit "fmt " ++ le_bytes 4 16 ++ le_bytes 2 1 ++ chb ++ frb
            ++ bpsb ++ le_bytes 2 2 ++ btsb ++ c2) as c1 eqn:Ec1.
  remember (magic ++ sz ++ lit "WAVE" ++ c1) as bytes eqn:Eb.
  unfold wav2adpcm.
  rewrite (read_riff_eq bytes _ magic sz (lit "WAVE") c1 Eb Hmagic Hsz eq_refl).
  cbn [wavhdr set_wavhdr hdr1 hdr2].
  replace (memcmp magic (lit "RIFF") 3) with false
    by (symmetry; apply memcmp_false; exact Hrif).
  match goal with
  | |- context [memcmp ?a (lit "WAVE") 4] =>
      replace (memcmp a (lit "WAVE") 4) with false
        by (symmetry; apply memcmp_false; reflexivity)
  end.
  cbn [orb].
  remember (set_wavhdr (wav2adpcm_entry stack) _) as l0 eqn:El0.
  assert (List.length (dID l0) = 4%nat /\ have_fmt l0 = false
          /\ hdr1 (wavhdr l0) = magic
          /\ firstn 4 (hdr2 (wavhdr l0)) = lit "WAVE"
          /\ haveLoop l0 = false /\ nSampleLength l0 = 0)
    as (HdID0 & Hhave0 & Hh1 & Hh2 & Hloop0 & Hns0)
    by (subst l0; repeat split).
  clear El0.
  (* the fmt chunk *)
  assert (positioned (fseek (fopen_rb bytes) 12) c1) as P1.
  { apply (fseek_positioned _ (magic ++ sz ++ lit "WAVE")).
    - cbn [fopen_rb content]. rewrite Eb, <- !app_assoc. reflexivity.
    - rewrite !length_app, Hmagic, Hsz. reflexivity. }
  change (3 + fuel)%nat with (S (S (S fuel))). cbn [chunk_walk].
  rewrite Ec1 in P1.
  rewrite (fmt_chunk_turn _ l0 (le_bytes 4 16) (le_bytes 2 1) chb frb bpsb
             (le_bytes 2 2) btsb c2 P1 HdID0 eq_refl eq_refl Hchb Hfrb
             Hbpsb eq_refl Hbtsb).
  cbv zeta. rewrite Hhave0, <- Ech.
  replace (negb (ch =? 1) && negb (ch =? 2)) with false
    by (destruct Hch as [-> | ->]; reflexivity).
  change (signed 16 (le_decode (le_bytes 2 1))) with 1.
  change (signed 16 (le_decode (le_bytes 2 2))) with 2.
  change (le_decode (le_bytes 4 16)) with 16.
  cbn [orb negb Z.eqb Pos.eqb].
  change (u32 (u32 (pos (fseek (fopen_rb bytes) 12) + 8) + 16)) with 36.
  change (u32 (pos (fseek (fopen_rb bytes) 12) + 8)) with 20.
  remember (set_have_fmt _ true) as l1 eqn:El1.
  assert (List.length (dID l1) = 4%nat /\ have_fmt l1 = true
          /\ hdr1 (wavhdr l1) = magic
          /\ firstn 4 (hdr2 (wavhdr l1)) = lit "WAVE"
          /\ channels (wavhdr l1) = ch
          /\ freq (wavhdr l1) = signed 32 (le_decode frb)
          /\ byte_per_sec (wavhdr l1) = signed 32 (le_decode bpsb)
          /\ blocksize (wavhdr l1) = 2
          /\ haveLoop l1 = false)
    as (HdID1 & Hhave1 & Hh11 & Hh21 & Hch1 & Hfr1 & Hbps1 & Hbsz1 & Hloop1)
    by (subst l1; cbn; repeat split; assumption).
  clear El1 HdID0 Hhave0 Hh1 Hh2 Hloop0 Hns0 l0.
  (* the data chunk *)
  assert (positioned (fseek (fseek (fopen_rb bytes) 12) 36) c2) as P2.
  { apply (fseek_positioned _ (magic ++ sz ++ lit "WAVE" ++ lit "fmt "
                               ++ le_bytes 4 16 ++ le_bytes 2 1 ++ chb
                               ++ frb ++ bpsb ++ le_bytes 2 2 ++ btsb)).
    - cbn [fseek fopen_rb content]. rewrite Eb, Ec1, <- !app_assoc.
      reflexivity.
    - rewrite !length_app, !le_bytes_length, Hmagic, Hsz, Hchb, Hfrb, Hbpsb,
        Hbtsb. reflexivity. }
  assert (le_decode (le_bytes 4 n) = n) as Hdec
    by (apply le_decode_le_bytes_small; change (2 ^ (8 * Z.of_nat 4))
          with (2 ^ 32); lia).
  rewrite Ec2 in P2.
  rewrite (data_chunk_turn _ l1 (le_bytes 4 n) (payload ++ c3) P2 HdID1
             (le_bytes_length 4 n)).
  cbv zeta. rewrite Hhave1, Hbsz1, Hdec.
  cbn [negb orb Z.eqb Pos.eqb].
  replace (n =? 0) with false by (symmetry; apply Z.eqb_neq; lia).
  replace (Z.of_nat (List.length (payload ++ c3)) <? n) with false
    by (symmetry; apply Z.ltb_ge; rewrite length_app; lia).
  cbn [orb].
  replace (firstn (Z.to_nat n) (payload ++ c3)) with payload
    by (rewrite En, Nat2Z.id, firstn_app, Nat.sub_diag, firstn_all;
        cbn [firstn]; rewrite app_nil_r; reflexivity).
  change (pos (fseek (fseek (fopen_rb bytes) 12) 36) + 8) with 44.
  change (u32 44) with 44.
  replace (u32 (44 + n)) with (44 + n)
    by (unfold u32; rewrite Z.mod_small by lia; reflexivity).
  remember (set_pcm _ n (n / 4) (Some payload)) as l2 eqn:El2.
  assert (Z.shiftr n 1 = n / 2) as Hsh
    by (rewrite Z.shiftr_div_pow2 by lia; reflexivity).
  assert (List.length (dID l2) = 4%nat
          /\ hdr1 (wavhdr l2) = magic
          /\ firstn 4 (hdr2 (wavhdr l2)) = lit "WAVE"
          /\ channels (wavhdr l2) = ch
          /\ freq (wavhdr l2) = signed 32 (le_decode frb)
          /\ byte_per_sec (wavhdr l2) = signed 32 (le_decode bpsb)
          /\ blocksize (wavhdr l2) = 2
          /\ haveLoop l2 = false /\ nSampleLength l2 = n / 2
          /\ pcmbuf l2 = Some payload /\ pcmsize l2 = n
          /\ adpcmsize l2 = n / 4)
    as (HdID2 & Hh12 & Hh22 & Hch2 & Hfr2 & Hbps2 & Hbsz2 & Hloop2 & Hns2
        & Hbuf2 & Hps2 & Has2)
    by (subst l2; cbn; repeat split; assumption).
  clear El2 HdID1 Hhave1 Hh11 Hh21 Hch1 Hfr1 Hbps1 Hbsz1 Hloop1 l1.
  (* the smpl chunk *)
  assert (positioned (fseek (fseek (fseek (fopen_rb bytes) 12) 36) (44 + n))
                     c3) as P3.
  { apply (fseek_positioned _ (magic ++ sz ++ lit "WAVE" ++ lit "fmt "
                               ++ le_bytes 4 16 ++ le_bytes 2 1 ++ chb
                               ++ frb ++ bpsb ++ le_bytes 2 2 ++ btsb
                               ++ lit "data" ++ le_bytes 4 n ++ payload)).
    - cbn [fseek fopen_rb content]. rewrite Eb, Ec1, Ec2, <- !app_assoc.
      reflexivity.
    - rewrite !length_app, !le_bytes_length, Hmagic, Hsz, Hchb, Hfrb, Hbpsb,
        Hbtsb.
      change (List.length (lit "WAVE")) with 4%nat.
      change (List.length (lit "fmt ")) with 4%nat.
      change (List.length (lit "data")) with 4%nat.
      lia. }
  rewrite Ec3 in P3.
  destruct (chunk_step_at _ l2 (lit "smpl") slen _ P3 eq_refl HdID2 Hslen)
    as [P4 ->].
  change (negb (memcmp (lit "smpl") (lit "smpl") 4)) with true. cbv iota.
  remember (set_start _ _) as l2' eqn:El2'.
  assert (wavhdr l2' = wavhdr l2 /\ haveLoop l2' = haveLoop l2
          /\ nSampleLength l2' = nSampleLength l2
          /\ pcmbuf l2' = pcmbuf l2 /\ pcmsize l2' = pcmsize l2
          /\ adpcmsize l2' = adpcmsize l2)
    as (Hw' & Hl' & Hn' & Hb' & Hp' & Ha') by (subst l2'; repeat split).
  clear El2'.
  pose proof (smpl_chunk_wavhdr (advance (fseek (fseek (fseek (fopen_rb bytes)
                12) 36) (44 + n)) 8) l2') as Hw3.
  pose proof (smpl_chunk_fields _ l2' hdr ty s e tail P4 Hhdr Hty Hs He) as F.
  cbv zeta in F.
  remember (smpl_chunk _ l2') as l3 eqn:El3. clear El3.
  destruct F as (Fty & Fs & Fe & Fhave & Fn & Fbuf & Fps & Fas).
  rewrite Hn', Hns2 in *. rewrite Hl', Hloop2 in Fhave.
  rewrite Hb', Hbuf2 in Fbuf. rewrite Hp', Hps2 in Fps.
  rewrite Ha', Has2 in Fas. rewrite Hw' in Hw3.
  assert (0 < n / 4 < 2 ^ 30) as Hq.
  { split.
    - apply Z.div_str_pos. lia.
    - apply Z.div_lt_upper_bound; lia. }
  assert (0 < n / 2) as Hhalf by (apply Z.div_str_pos; lia).
  rewrite (wav2adpcm_finish_eq l3 enc);
    [| rewrite Hw3, Hch2, Fbuf, Fps, Fas; exact Henc | rewrite Fas; exact Hq].
  cbv zeta. rewrite Hw3, Hh12, Hh22, Hch2, Hfr2, Hbps2, Hbsz2, Fas.
  assert (smpl_out (default_loop l3)
          = (if (le_decode ty =? 0) && (0 <? le_decode e)
             then riff_chunk "smpl"
                    (smpl_body 0
                       (if n / 2 <? le_decode s then 0 else le_decode s)
                       (Z.min (le_decode e) (n / 2)))
             else [])) as Hout.
  {   pose proof (le_decode_nonneg e) as He0.
    pose proof (le_decode_nonneg s) as Hs0.
    unfold smpl_out, default_loop. rewrite Fe.
    destruct (le_decode ty =? 0) eqn:Tty; cbn [andb] in *.
    - destruct (le_decode e >? 0) eqn:Te.
      + replace (0 <? le_decode e) with true
          by (symmetry; apply Z.ltb_lt; lia).
        assert ((if le_decode e >? n / 2 then n / 2 else le_decode e)
                = Z.min (le_decode e) (n / 2)) as Hmin
          by (destruct (le_decode e >? n / 2) eqn:T; lia).
        rewrite Hmin.
        destruct (Z.min (le_decode e) (n / 2) =? 0) eqn:T0;
          [apply Z.eqb_eq in T0; lia |].
        rewrite Fhave. unfold smpl_bytes. rewrite Fty, Fs, Fe, Hmin.
        apply Z.eqb_eq in Tty. rewrite Tty.
        replace (le_decode s >? n / 2) with (n / 2 <? le_decode s)
          by (rewrite Z.gtb_ltb; reflexivity).
        reflexivity.
      + replace (0 <? le_decode e) with false
          by (symmetry; apply Z.ltb_ge; lia).
        match goal with
        | |- context [if ?c =? 0 then set_loop _ _ _ _ _ else _] =>
            destruct (c =? 0)
        end; [reflexivity | rewrite Fhave; reflexivity].
    - match goal with
      | |- context [if ?c =? 0 then set_loop _ _ _ _ _ else _] =>
          destruct (c =? 0)
      end; [reflexivity | rewrite Fhave; reflexivity]. }
  rewrite Hout. reflexivity.
Qed.

(** The encoding step on a payload whose size suits the channel count. *)
Lemma encode_payload_defined (ch : Z) (payload : list byte) :
  let n := Z.of_nat (List.length payload) in
  (ch = 1 /\ n mod 4 = 0) \/ (ch = 2 /\ n mod 8 = 0) ->
  0 < n < 2 ^ 32 ->
  exists enc,
    encode_payload ch (Some payload) n (n / 4) = Some enc
    /\ Z.of_nat (List.length enc) = n / 4.
Proof.
  intros n Hdiv Hn.
  assert (n = Z.of_nat (List.length payload)) as En by reflexivity.
  clearbody n.
  destruct Hdiv as [[-> Hm] | [-> Hm]].
  - pose proof (Z.div_mod n 4 ltac:(lia)) as Hdm. rewrite Hm in Hdm.
    destruct (encode_payload_mono payload (n / 4)) as (out & _ & Hsome & Hl);
      [lia | lia |].
    replace (4 * (n / 4)) with n in Hsome by lia.
    exists out. split; [exact Hsome | exact Hl].
  - pose proof (Z.div_mod n 8 ltac:(lia)) as Hdm. rewrite Hm in Hdm.
    destruct (encode_payload_channels 2 payload (n / 8))
      as (o1 & o2 & _ & _ & Hl1 & Hl2 & _ & Hsome);
      [reflexivity | lia | lia |].
    replace (8 * (n / 8)) with n in Hsome by lia.
    exists (o1 ++ o2). split; [exact Hsome |].
    rewrite length_app, Nat2Z.inj_add, Hl1, Hl2.
    replace n with (2 * (n / 8) * 4) at 3 by lia.
    rewrite Z_div_mult by lia. lia.
Qed.

(** X12: the converted file.  The input is a RIFF file with a [fmt ] chunk
    of 16 bytes (format tag 1, one or two channels, block alignment field
    2), a [data] chunk of [n > 0] bytes, [n] a multiple of 4 for one channel
    and of 8 for two, with [n + 44 < 2^32], and a [smpl] chunk.  The
    encoding step makes [n / 4] bytes [enc] of the payload; the conversion
    returns 0 and writes the magic bytes of the input, the size
    [n / 4 + 36], the header fields of the input with format tag 20 and 4
    bits per sample, [n / 4] as the data size, the bytes of [enc], and a
    [smpl] chunk exactly when the loop type read is 0 and the loop end is
    not; this chunk holds the loop start, or 0 when it was beyond [n / 2],
    and the loop end bounded by [n / 2]. *)
Theorem wav2adpcm_output (stack : locals)
        (magic sz chb frb bpsb btsb payload slen hdr ty s e tail : list byte)
        (fuel : nat) :
  let n := Z.of_nat (List.length payload) in
  let ch := signed 16 (le_decode chb) in
  List.length magic = 4%nat -> firstn 3 magic = lit "RIF" ->
  List.length sz = 4%nat ->
  List.length chb = 2%nat ->
  (ch = 1 /\ n mod 4 = 0) \/ (ch = 2 /\ n mod 8 = 0) ->
  List.length frb = 4%nat -> List.length bpsb = 4%nat ->
  List.length btsb = 2%nat ->
  0 < n -> n + 44 < 2 ^ 32 ->
  List.length slen = 4%nat -> List.length hdr = 40%nat ->
  List.length ty = 4%nat -> List.length s = 4%nat ->
  List.length e = 4%nat ->
  exists enc,
    encode_payload ch (Some payload) n (n / 4) = Some enc
    /\ Z.of_nat (List.length enc) = n / 4
    /\ wav2adpcm stack
         (Some (magic ++ sz ++ lit "WAVE"
                ++ lit "fmt " ++ le_bytes 4 16 ++ le_bytes 2 1 ++ chb ++ frb
                ++ bpsb ++ le_bytes 2 2 ++ btsb
                ++ lit "data" ++ le_bytes 4 n ++ payload
                ++ lit "smpl" ++ slen ++ hdr ++ ty ++ s ++ e ++ tail))
         (3 + fuel)
       = Some (Exited (mkExit 0 None (Some
           (magic ++ le_bytes 4 (n / 4 + 36) ++ lit "WAVEfmt "
            ++ le_bytes 4 16 ++ le_bytes 2 20 ++ chb ++ frb ++ bpsb
            ++ le_bytes 2 2 ++ le_bytes 2 4
            ++ lit "data" ++ le_bytes 4 (n / 4)
            ++ bytes_of_uchars enc
            ++ (if (le_decode ty =? 0) && (0 <? le_decode e)
                then riff_chunk "smpl"
                       (smpl_body 0
                          (if n / 2 <? le_decode s then 0 else le_decode s)
                          (Z.min (le_decode e) (n / 2)))
                else []))))).
Proof.
  intros n ch Hmagic Hrif Hsz Hchb Hdiv Hfrb Hbpsb Hbtsb Hn0 Hn32
         Hslen Hhdr Hty Hs He.
  destruct (encode_payload_defined ch payload Hdiv) as (enc & Henc & Hl);
    [fold n; lia |].
  fold n in Henc, Hl.
  exists enc. split; [exact Henc |]. split; [exact Hl |].
  assert (ch = 1 \/ ch = 2) as Hch by (destruct Hdiv as [[? _] | [? _]]; auto).
  assert (4 <= n) as Hn4.
  { assert (n = Z.of_nat (List.length payload)) as En by reflexivity.
    clearbody n.
    destruct Hdiv as [[_ Hm] | [_ Hm]].
    - pose proof (Z.div_mod n 4 ltac:(lia)). lia.
    - pose proof (Z.div_mod n 8 ltac:(lia)). lia. }
  subst n ch.
  rewrite (wav2adpcm_canonical_run stack magic sz chb frb bpsb btsb payload
             slen hdr ty s e tail enc fuel Hmagic Hrif Hsz Hchb Hch Hfrb
             Hbpsb Hbtsb Hn4 Hn32 Hslen Hhdr Hty Hs He Henc).
  unfold wavhdr_bytes.
  cbn [hdr1 totalsize hdr2 hdrsize format channels freq byte_per_sec
       blocksize bits hdr3 datasize].
  pose proof (le_bytes_signed_decode chb 2 Hchb) as Rc.
  pose proof (le_bytes_signed_decode frb 4 Hfrb) as Rf.
  pose proof (le_bytes_signed_decode bpsb 4 Hbpsb) as Rb.
  change (8 * Z.of_nat 2) with 16 in Rc.
  change (8 * Z.of_nat 4) with 32 in Rf, Rb.
  rewrite Rc, Rf, Rb, <- !app_assoc. reflexivity.
Qed.

Lemma wav2adpcm_output_witness :
  exists enc,
    encode_payload 1 (Some (bytes_of_shorts sample_pcm)) 16 4 = Some enc
    /\ Z.of_nat (List.length enc) = 4
    /\ wav2adpcm zero_stack (Some wav_loop) 3
       = Some (Exited (mkExit 0 None (Some
           (lit "RIFF" ++ le_bytes 4 40 ++ lit "WAVEfmt "
            ++ le_bytes 4 16 ++ le_bytes 2 20 ++ le_bytes 2 1
            ++ le_bytes 4 44100 ++ le_bytes 4 88200
            ++ le_bytes 2 2 ++ le_bytes 2 4
            ++ lit "data" ++ le_bytes 4 4
            ++ bytes_of_uchars enc
            ++ riff_chunk "smpl" (smpl_body 0 2 6))))).
Proof.
  refine (wav2adpcm_output zero_stack (lit "RIFF") (le_bytes 4 120)
            (le_bytes 2 1) (le_bytes 4 44100) (le_bytes 4 88200)
            (le_bytes 2 16) (bytes_of_shorts sample_pcm) (le_bytes 4 60)
            (repeat x00 36 ++ le_bytes 4 0) (le_bytes 4 0) (le_bytes 4 2)
            (le_bytes 4 6) (le_bytes 4 0 ++ le_bytes 4 0)
            0 _ _ _ _ _ _ _ _ _ _ _ _ _ _ _).
  - reflexivity.
  - reflexivity.
  - reflexivity.
  - reflexivity.
  - left. split; reflexivity.
  - reflexivity.
  - reflexivity.
  - reflexivity.
  - reflexivity.
  - vm_compute. reflexivity.
  - reflexivity.
  - reflexivity.
  - reflexivity.
  - reflexivity.
  - reflexivity.
Defined.

(** ** Container: payload sizes the encoding step cannot take *)

Lemma wav2adpcm_finish_Undefined l :
  wav2adpcm_finish l = Undefined
  <-> encode_payload (channels (wavhdr l)) (pcmbuf l) (pcmsize l)
                     (adpcmsize l) = None.
Proof.
  unfold wav2adpcm_finish.
  destruct (default_loop_rest l) as (-> & -> & -> & ->).
  destruct (encode_payload _ _ _ _) as [enc |].
  - cbv zeta. destruct (fwrite [] _ 44) as [out r1].
    destruct (if r1 =? 1 then _ else _) as [out' r2].
    destruct (_ || _); split; discriminate.
  - split; reflexivity.
Qed.

(** X13: a mono [data] chunk is encoded without a fault exactly when its
    length is a multiple of 4.  The encoder is given the byte count [n] as
    its length and reads [2 * ceil (n / 4)] samples, while the buffer holds
    [n / 2] of them and the output buffer [n / 4] bytes: for any other
    length it reads beyond the loaded samples and the run has no defined
    behaviour. *)
Theorem mono_payload_multiple_of_four (l : locals) (payload : list byte) :
  let n := Z.of_nat (List.length payload) in
  channels (wavhdr l) = 1 -> pcmbuf l = Some payload ->
  pcmsize l = n -> adpcmsize l = n / 4 ->
  0 < n < 2 ^ 32 ->
  (wav2adpcm_finish l = Undefined <-> n mod 4 <> 0).
Proof.
  intros n Hch Hbuf Hps Has Hn.
  assert (n = Z.of_nat (List.length payload)) as En by reflexivity.
  clearbody n.
  rewrite wav2adpcm_finish_Undefined, Hch, Hbuf, Hps, Has.
  pose proof (Z.div_mod n 4 ltac:(lia)) as Hdm.
  pose proof (Z.mod_pos_bound n 4 ltac:(lia)) as Hr.
  split.
  - intros Hnone Hmod. rewrite Hmod in Hdm.
    destruct (encode_payload_mono payload (n / 4)) as (out & _ & Hsome & _);
      [lia | lia |].
    replace (4 * (n / 4)) with n in Hsome by lia. congruence.
  - intros Hmod.
    destruct (encode_payload 1 (Some payload) n (n / 4)) as [enc |] eqn:E;
      [| reflexivity].
    exfalso. unfold encode_payload in E. cbn [Z.eqb Pos.eqb] in E.
    destruct (pcm2adpcm (shorts_of_bytes payload) n) as [out |] eqn:Ep;
      [| discriminate].
    unfold pcm2adpcm in Ep.
    assert (usize (n + 3) = n + 3) as Hu
      by (unfold usize; apply Z.mod_small; lia).
    rewrite Hu in Ep.
    pose proof (Z.div_mod (n + 3) 4 ltac:(lia)) as Hdm3.
    pose proof (Z.mod_pos_bound (n + 3) 4 ltac:(lia)) as Hr3.
    apply pcm2adpcm_loop_Some in Ep as [Hsrc _]; [| lia].
    destruct ((n + 3) / 4 =? 0) eqn:T; [apply Z.eqb_eq in T; lia |].
    rewrite shorts_of_bytes_length, <- En in Hsrc.
    pose proof (Z.div_mod n 2 ltac:(lia)) as Hdm2.
    pose proof (Z.mod_pos_bound n 2 ltac:(lia)) as Hr2.
    lia.
Qed.

Lemma mono_payload_multiple_of_four_witness :
  wav2adpcm_finish
    (set_pcm (set_wavhdr zero_stack (mkWavhdr [] 0 [] 0 1 1 0 0 2 16 [] 0))
             6 1 (Some (bytes_of_shorts [0; 100; -100])))
  = Undefined.
Proof.
  apply (mono_payload_multiple_of_four
           (set_pcm (set_wavhdr zero_stack
                                (mkWavhdr [] 0 [] 0 1 1 0 0 2 16 [] 0))
                    6 1 (Some (bytes_of_shorts [0; 100; -100])))
           (bytes_of_shorts [0; 100; -100])).
  - reflexivity.
  - reflexivity.
  - reflexivity.
  - reflexivity.
  - vm_compute. split; reflexivity.
  - vm_compute. discriminate.
Defined.

(** ** Container: the decoded file *)

Lemma wavhdr_bytes_length h :
  List.length (hdr1 h) = 4%nat -> List.length (hdr2 h) = 8%nat ->
  List.length (hdr3 h) = 4%nat ->
  List.length (wavhdr_bytes h) = 44%nat.
Proof.
  intros H1 H2 H3. unfold wavhdr_bytes.
  rewrite !length_app, !le_bytes_length, H1, H2, H3. reflexivity.
Qed.

Lemma signed32_le_bytes z :
  fits_int z -> signed 32 (le_decode (le_bytes 4 z)) = z.
Proof.
  intros H. apply (signed_decode_le_bytes 4 z); [lia |].
  unfold fits_int in H. change (8 * Z.of_nat 4 - 1) with 31. lia.
Qed.

Lemma signed16_le_bytes z :
  fits_short z -> signed 16 (le_decode (le_bytes 2 z)) = z.
Proof.
  intros H. apply (signed_decode_le_bytes 2 z); [lia |].
  unfold fits_short in H. change (8 * Z.of_nat 2 - 1) with 15.
  change (2 ^ 15) with 32768. lia.
Qed.

(** A header read back from its object representation. *)
Lemma wavhdr_of_bytes_bytes h :
  wavhdr_valid h -> wavhdr_of_bytes (wavhdr_bytes h) = h.
Proof.
  intros (H1 & H2 & H3 & Ht & Hs & Hf & Hc & Hfr & Hb & Hbs & Hbt & Hd).
  destruct h as [h1 ts h2 hs fm ch fr bps bsz bts h3 ds]. cbn in *.
  destruct h1 as [| a1 [| a2 [| a3 [| a4 [| ? ?]]]]]; try discriminate.
  destruct h2 as [| b1 [| b2 [| b3 [| b4 [| b5 [| b6 [| b7 [| b8 [| ? ?]]]]]]]]];
    try discriminate.
  destruct h3 as [| c1 [| c2 [| c3 [| c4 [| ? ?]]]]]; try discriminate.
  unfold wavhdr_of_bytes, wavhdr_bytes.
  cbn [hdr1 totalsize hdr2 hdrsize format channels freq byte_per_sec
       blocksize bits hdr3 datasize].
  cbn [le_bytes app].
  change (Z.to_nat 0) with 0%nat. change (Z.to_nat 2) with 2%nat.
  change (Z.to_nat 4) with 4%nat. change (Z.to_nat 8) with 8%nat.
  change (Z.to_nat 16) with 16%nat. change (Z.to_nat 20) with 20%nat.
  change (Z.to_nat 22) with 22%nat. change (Z.to_nat 24) with 24%nat.
  change (Z.to_nat 28) with 28%nat. change (Z.to_nat 32) with 32%nat.
  change (Z.to_nat 34) with 34%nat. change (Z.to_nat 36) with 36%nat.
  change (Z.to_nat 40) with 40%nat.
  cbn [firstn skipn].
  change [byte_of_Z ts; byte_of_Z (ts / 256); byte_of_Z (ts / 256 / 256);
          byte_of_Z (ts / 256 / 256 / 256)] with (le_bytes 4 ts).
  change [byte_of_Z hs; byte_of_Z (hs / 256); byte_of_Z (hs / 256 / 256);
          byte_of_Z (hs / 256 / 256 / 256)] with (le_bytes 4 hs).
  change [byte_of_Z fr; byte_of_Z (fr / 256); byte_of_Z (fr / 256 / 256);
          byte_of_Z (fr / 256 / 256 / 256)] with (le_bytes 4 fr).
  change [byte_of_Z bps; byte_of_Z (bps / 256); byte_of_Z (bps / 256 / 256);
          byte_of_Z (bps / 256 / 256 / 256)] with (le_bytes 4 bps).
  change [byte_of_Z ds; byte_of_Z (ds / 256); byte_of_Z (ds / 256 / 256);
          byte_of_Z (ds / 256 / 256 / 256)] with (le_bytes 4 ds).
  change [byte_of_Z fm; byte_of_Z (fm / 256)] with (le_bytes 2 fm).
  change [byte_of_Z ch; byte_of_Z (ch / 256)] with (le_bytes 2 ch).
  change [byte_of_Z bsz; byte_of_Z (bsz / 256)] with (le_bytes 2 bsz).
  change [byte_of_Z bts; byte_of_Z (bts / 256)] with (le_bytes 2 bts).
  rewrite !signed32_le_bytes, !signed16_le_bytes by assumption.
  reflexivity.
Qed.

Lemma le_bytes_wrap32 z : le_bytes 4 (wrap32 z) = le_bytes 4 z.
Proof.
  unfold wrap32.
  pose proof (Z.div_mod (z + 2 ^ 31) (2 ^ 32) ltac:(lia)) as H.
  replace ((z + 2 ^ 31) mod 2 ^ 32 - 2 ^ 31)
    with (z + (- ((z + 2 ^ 31) / 2 ^ 32)) * 2 ^ (8 * Z.of_nat 4))
    by (change (2 ^ (8 * Z.of_nat 4)) with (2 ^ 32); lia).
  apply le_bytes_mod.
Qed.

(** The decoder on a file that starts with the object representation of a
    header it accepts. *)
Lemma adpcm2wav_eq h payload rest dec :
  wavhdr_valid h ->
  adpcm2wav_refuses h = false ->
  datasize h = Z.of_nat (List.length payload) ->
  0 < datasize h /\ 4 * datasize h + 36 < 2 ^ 31 ->
  decode_payload (channels h) (uchars_of_bytes payload)
                 (4 * datasize h) (datasize h) = Some dec ->
  adpcm2wav (Some (wavhdr_bytes h ++ payload ++ rest))
  = Exited (mkExit 0 None
      (Some (wavhdr_bytes
               (mkWavhdr (hdr1 h) (4 * datasize h + 36) (hdr2 h) (hdrsize h)
                         1 (channels h) (freq h)
                         (wrap32 (freq h * wrap16 (channels h * 2)))
                         (wrap16 (channels h * 2)) 16 (hdr3 h)
                         (4 * datasize h))
             ++ bytes_of_shorts dec))).
Proof.
  intros Hv Href Hlen Ha Hdec.
  pose proof Hv as (H1 & H2 & H3 & _ & _ & _ & Hc & _).
  unfold adpcm2wav.
  pose proof (fopen_rb_positioned (wavhdr_bytes h ++ payload ++ rest)) as P0.
  rewrite (fread_eq _ (wavhdr_bytes h) _ 44 P0)
    by (rewrite ?wavhdr_bytes_length by assumption; lia).
  pose proof (advance_positioned _ _ _ P0) as P1.
  rewrite wavhdr_bytes_length in P1 by assumption.
  change (Z.of_nat 44) with 44 in P1.
  cbn [negb Z.eqb Pos.eqb].
  rewrite (wavhdr_of_bytes_bytes h Hv), Href.
  assert (usize (datasize h) = datasize h) as Ua
    by (unfold usize; apply Z.mod_small; lia).
  rewrite Ua.
  assert (usize (datasize h * 4) = 4 * datasize h) as Up
    by (unfold usize; rewrite Z.mod_small by lia; lia).
  rewrite Up.
  rewrite (fread_eq _ payload rest (datasize h) P1) by lia.
  replace (malloc_null (datasize h)) with false
    by (symmetry; apply Z.leb_gt; lia).
  cbn [andb].
  cbn [negb Z.eqb Pos.eqb].
  rewrite Hdec.
  assert (usize (channels h * 2) = channels h * 2) as Uc.
  { unfold adpcm2wav_refuses in Href.
    rewrite !orb_false_iff in Href.
    destruct Href as ((((((_ & _) & _) & _) & _) & Hch) & _).
    unfold usize.
    destruct (channels h =? 1) eqn:T1;
      [apply Z.eqb_eq in T1; rewrite T1; reflexivity |].
    destruct (channels h =? 2) eqn:T2;
      [apply Z.eqb_eq in T2; rewrite T2; reflexivity | discriminate]. }
  rewrite Uc.
  rewrite (wrap32_id (4 * datasize h)) by (unfold fits_int; lia).
  replace (usize (4 * datasize h + 44 - 8)) with (4 * datasize h + 36)
    by (unfold usize; rewrite Z.mod_small by lia; lia).
  rewrite (wrap32_id (4 * datasize h + 36)) by (unfold fits_int; lia).
  unfold fwrite. cbn [Z.leb Z.compare Z.eqb Pos.eqb negb orb app].
  destruct (4 * datasize h <=? 0) eqn:T; [apply Z.leb_le in T; lia |].
  cbn [Z.eqb Pos.eqb negb orb]. reflexivity.
Qed.

(** The decoder on an accepted header whose data size field is negative:
    the size is 2^64 - 2^31 or more as a [size_t], [malloc] gives a null
    pointer and [fread] stores through it whatever follows the header. *)
Lemma adpcm2wav_negative_size h rest :
  wavhdr_valid h ->
  adpcm2wav_refuses h = false ->
  datasize h < 0 ->
  Z.of_nat (List.length rest) < 2 ^ 63 ->
  adpcm2wav (Some (wavhdr_bytes h ++ rest))
  = match rest with
    | [] => failed "Cannot read data." None
    | _ :: _ => Undefined
    end.
Proof.
  intros Hv Href Hneg Hrest.
  pose proof Hv as (H1 & H2 & H3 & _ & _ & _ & _ & _ & _ & _ & _ & Hd).
  unfold adpcm2wav.
  pose proof (fopen_rb_positioned (wavhdr_bytes h ++ rest)) as P0.
  rewrite (fread_eq _ (wavhdr_bytes h) _ 44 P0)
    by (rewrite ?wavhdr_bytes_length by assumption; lia).
  pose proof (advance_positioned _ _ _ P0) as P1.
  rewrite wavhdr_bytes_length in P1 by assumption.
  change (Z.of_nat 44) with 44 in P1.
  cbn [negb Z.eqb Pos.eqb].
  rewrite (wavhdr_of_bytes_bytes h Hv), Href.
  assert (usize (datasize h) = datasize h + 2 ^ 64) as Ua.
  { unfold usize, fits_int in *.
    rewrite <- (Z.mod_add _ 1) by lia.
    apply Z.mod_small. lia. }
  rewrite Ua.
  replace (malloc_null (datasize h + 2 ^ 64)) with true
    by (symmetry; apply Z.leb_le; unfold fits_int in Hd; lia).
  destruct P1 as (_ & _ & Hrem).
  unfold fread. rewrite Hrem.
  destruct (datasize h + 2 ^ 64 <=? 0) eqn:T;
    [apply Z.leb_le in T; unfold fits_int in Hd; lia |].
  rewrite ztake_firstn, firstn_all2 by (unfold fits_int in Hd; lia).
  destruct (Z.of_nat (List.length rest) =? datasize h + 2 ^ 64) eqn:T2;
    [apply Z.eqb_eq in T2; unfold fits_int in Hd; lia |].
  destruct rest as [| b rest]; [reflexivity |].
  cbn [andb]. 
  replace (0 <? Z.of_nat (List.length (b :: rest))) with true
    by (symmetry; apply Z.ltb_lt; cbn [List.length]; lia).
  reflexivity.
Qed.

(** ** The decoding step *)

Lemma written_app_None (l : list Z) (t : list (option Z)) :
  written (map Some l ++ None :: t) = None.
Proof.
  induction l as [| x l IH]; [reflexivity |].
  cbn [map app written]. rewrite IH. reflexivity.
Qed.

Lemma skipn_repeat_sub (A : Type) (x : A) n :
  forall k, skipn k (repeat x n) = repeat x (n - k).
Proof.
  induction n as [| n IH]; intros [| k]; try reflexivity.
  cbn [repeat skipn]. rewrite IH. reflexivity.
Qed.

(** The first store of a codec call into a fresh buffer. *)
Lemma store_at_fresh (n : Z) (data : list Z) :
  Z.of_nat (List.length data) <= n ->
  store_at (malloc n) 0 data
  = Some (map Some data
          ++ repeat None (Z.to_nat n - List.length data)).
Proof.
  intros H. unfold store_at, malloc. rewrite repeat_length.
  replace ((0 <=? 0) && (0 + Z.of_nat (List.length data)
                         <=? Z.of_nat (Z.to_nat n)))
    with true by (symmetry; apply andb_true_iff; split; apply Z.leb_le; lia).
  unfold memcpy. change (Z.to_nat 0) with 0%nat. cbn [firstn Nat.add app].
  rewrite length_map, skipn_repeat_sub. reflexivity.
Qed.

Lemma adpcm2pcm_firstn src n :
  0 < n < 2 ^ 64 -> n <= Z.of_nat (List.length src) ->
  exists out,
    adpcm2pcm (firstn (Z.to_nat n) src) n = Some out
    /\ adpcm2pcm src n = Some out
    /\ Z.of_nat (List.length out) = 2 * n.
Proof.
  intros Hn Hlen. unfold adpcm2pcm.
  destruct (adpcm2pcm_loop_length (firstn (Z.to_nat n) src) n init_state Hn)
    as (out & Ho & Hl).
  { rewrite length_firstn. lia. }
  exists out. split; [exact Ho |]. split; [| exact Hl].
  rewrite <- (firstn_skipn (Z.to_nat n) src).
  apply adpcm2pcm_loop_app. exact Ho.
Qed.

(** The decoding step on a stereo payload of an even number [a] of bytes,
    up to the call of [interleave]: each half is decoded by its own run. *)
Lemma decode_payload_halves (channels : Z) (adpcm : list Z) :
  let a := Z.of_nat (List.length adpcm) in
  (channels =? 1) = false -> 0 < a < 2 ^ 31 -> Z.even a = true ->
  exists left right,
    adpcm2pcm (firstn (Z.to_nat (a / 2)) adpcm) (a / 2) = Some left
    /\ adpcm2pcm (skipn (Z.to_nat (a / 2)) adpcm) (a / 2) = Some right
    /\ Z.of_nat (List.length left) = a
    /\ Z.of_nat (List.length right) = a
    /\ decode_payload channels adpcm (4 * a) a
       = interleave (left ++ right) (4 * a).
Proof.
  intros a Hch Ha Heven.
  assert (a = Z.of_nat (List.length adpcm)) as Ea by reflexivity.
  clearbody a.
  pose proof (Z.div_mod a 2 ltac:(lia)) as Hdm.
  pose proof (Z.mod_pos_bound a 2 ltac:(lia)) as Hr.
  unfold decode_payload. rewrite Hch.
  replace (4 * a / 2) with (2 * a)
    by (replace (4 * a) with (2 * a * 2) by lia;
        rewrite Z_div_mult by lia; reflexivity).
  replace (4 * a / 4) with a by (symmetry; apply quarter).
  remember (a / 2) as m eqn:Em.
  rewrite Zeven_mod in Heven.
  assert (a mod 2 = 0) as Hm
    by (destruct (a mod 2 =? 0) eqn:T;
        [apply Z.eqb_eq in T; exact T | discriminate]).
  rewrite Hm in Hdm.
  destruct (adpcm2pcm_firstn adpcm m) as (L & HL1 & HL2 & HL);
    [lia | lia |].
  destruct (adpcm2pcm_firstn (skipn (Z.to_nat m) adpcm) m)
    as (R & _ & HR2 & HR); [lia | rewrite length_skipn; lia |].
  exists L, R.
  split; [exact HL1 |]. split; [exact HR2 |].
  split; [lia |]. split; [lia |].
  rewrite HL2, HR2.
  rewrite store_at_fresh by lia.
  unfold store_at.
  rewrite length_app, length_map, repeat_length.
  replace ((0 <=? a)
           && (a + Z.of_nat (List.length R)
               <=? Z.of_nat (List.length L
                             + (Z.to_nat (2 * a) - List.length L))))
    with true
    by (symmetry; apply andb_true_iff; split; apply Z.leb_le; lia).
  unfold memcpy.
  rewrite firstn_app, length_map.
  rewrite firstn_all2 by (rewrite length_map; lia).
  replace (Z.to_nat a - List.length L)%nat with 0%nat by lia.
  cbn [firstn]. rewrite app_nil_r.
  rewrite skipn_all2
    by (rewrite length_app, !length_map, repeat_length; lia).
  rewrite app_nil_r, <- map_app, written_map_Some.
  reflexivity.
Qed.

(** The decoding step on a stereo payload of an odd number of bytes. *)
Lemma decode_payload_odd (channels : Z) (adpcm : list Z) :
  let a := Z.of_nat (List.length adpcm) in
  (channels =? 1) = false -> 0 < a < 2 ^ 31 -> Z.odd a = true ->
  decode_payload channels adpcm (4 * a) a = None.
Proof.
  intros a Hch Ha Hodd.
  assert (a = Z.of_nat (List.length adpcm)) as Ea by reflexivity.
  clearbody a.
  pose proof (Z.div_mod a 2 ltac:(lia)) as Hdm.
  pose proof (Z.mod_pos_bound a 2 ltac:(lia)) as Hr.
  unfold decode_payload. rewrite Hch.
  replace (4 * a / 2) with (2 * a)
    by (replace (4 * a) with (2 * a * 2) by lia;
        rewrite Z_div_mult by lia; reflexivity).
  replace (4 * a / 4) with a by (symmetry; apply quarter).
  remember (a / 2) as m eqn:Em.
  rewrite Zodd_mod in Hodd.
  assert (a mod 2 = 1) as Hm
    by (destruct (a mod 2 =? 1) eqn:T;
        [apply Z.eqb_eq in T; exact T | discriminate]).
  rewrite Hm in Hdm.
  destruct (Z.eq_dec m 0) as [Hz | Hz].
  - rewrite Hz.
    destruct (adpcm2pcm adpcm 0) as [out |] eqn:E; [| reflexivity].
    unfold adpcm2pcm in E.
    apply adpcm2pcm_loop_Some in E as [E _]; [| lia].
    cbn [Z.eqb] in E. lia.
  - destruct (adpcm2pcm_firstn adpcm m) as (L & _ & -> & HL);
      [lia | lia |].
    destruct (adpcm2pcm_firstn (skipn (Z.to_nat m) adpcm) m)
      as (R & _ & -> & HR); [lia | rewrite length_skipn; lia |].
    rewrite store_at_fresh by lia.
    unfold store_at.
    rewrite length_app, length_map, repeat_length.
    replace ((0 <=? a)
             && (a + Z.of_nat (List.length R)
                 <=? Z.of_nat (List.length L
                               + (Z.to_nat (2 * a) - List.length L))))
      with true
      by (symmetry; apply andb_true_iff; split; apply Z.leb_le; lia).
    unfold memcpy.
    rewrite firstn_app, length_map.
    rewrite firstn_all2 by (rewrite length_map; lia).
    replace (Z.to_nat a - List.length L)%nat with 1%nat by lia.
    replace (Z.to_nat (2 * a) - List.length L)%nat
      with (S (Z.to_nat (2 * a) - List.length L - 1))%nat by lia.
    cbn [repeat firstn]. rewrite <- app_assoc.
    cbn [app]. rewrite written_app_None. reflexivity.
Qed.

(** The decoding step on a stereo payload of an even number of bytes, at
    most 2^30: the frames it makes. *)
Lemma decode_payload_stereo (channels : Z) (adpcm : list Z) :
  let a := Z.of_nat (List.length adpcm) in
  (channels =? 1) = false -> 0 < a <= 2 ^ 30 -> Z.even a = true ->
  exists left right frames,
    adpcm2pcm (firstn (Z.to_nat (a / 2)) adpcm) (a / 2) = Some left
    /\ adpcm2pcm (skipn (Z.to_nat (a / 2)) adpcm) (a / 2) = Some right
    /\ decode_payload channels adpcm (4 * a) a = Some frames
    /\ Z.of_nat (List.length frames) = 2 * a
    /\ channel_samples 0 frames = left
    /\ channel_samples 1 frames = right.
Proof.
  intros a Hch Ha Heven.
  destruct (decode_payload_halves channels adpcm Hch) as
    (L & R & HL & HR & HlL & HlR & Hd); [fold a; lia | exact Heven |].
  fold a in HL, HR, HlL, HlR, Hd.
  assert (a = Z.of_nat (List.length adpcm)) as Ea by reflexivity.
  clearbody a.
  assert (List.length L = List.length R) as HLR by lia.
  destruct (interleave_frames L R HLR) as (frames & Hi & Hf & H0 & H1);
    [lia |].
  exists L, R, frames.
  split; [exact HL |]. split; [exact HR |].
  rewrite Hd.
  replace (4 * a) with (4 * Z.of_nat (List.length L)) by lia.
  rewrite Hi.
  repeat split; [lia | exact H0 | exact H1].
Qed.

(** X15: the decoding step on a stereo payload of [a] bytes, [a] being a
    positive [int].  For an even [a = 2 m] of at most 2^30 the first [m]
    bytes are decoded into the left channel and the other [m] bytes into
    the right channel, each by a run of the decoder that starts from the
    initial predictor state, and the output holds the two as interleaved
    frames.  For an odd [a] two samples of the output buffer are never
    written (or, for [a = 1], the decoder is called with a length of 0):
    what is written to the file is not determined.  Above 2^30 the [int]
    index of [interleave] leaves its range, and nothing is determined
    either. *)
Theorem stereo_channels_decoded_apart (channels : Z) (adpcm : list Z) :
  let a := Z.of_nat (List.length adpcm) in
  (channels =? 1) = false -> 0 < a < 2 ^ 31 ->
  (Z.odd a = true -> decode_payload channels adpcm (4 * a) a = None)
  /\ (Z.even a = true -> a <= 2 ^ 30 ->
      exists left right frames,
        adpcm2pcm (firstn (Z.to_nat (a / 2)) adpcm) (a / 2) = Some left
        /\ adpcm2pcm (skipn (Z.to_nat (a / 2)) adpcm) (a / 2) = Some right
        /\ decode_payload channels adpcm (4 * a) a = Some frames
        /\ Z.of_nat (List.length frames) = 2 * a
        /\ channel_samples 0 frames = left
        /\ channel_samples 1 frames = right)
  /\ (2 ^ 30 < a -> decode_payload channels adpcm (4 * a) a = None).
Proof.
  intros a Hch Ha.
  split; [| split].
  - intros Hodd. apply decode_payload_odd; assumption.
  - intros Heven Hb. apply decode_payload_stereo; [assumption | | assumption].
    fold a. lia.
  - intros Hb.
    destruct (Z.even a) eqn:Heven.
    + destruct (decode_payload_halves channels adpcm Hch Ha Heven) as
        (L & R & _ & _ & _ & _ & Hd).
      fold a in Hd. rewrite Hd.
      apply interleave_overflow.
      replace (4 * a) with (a * 4) by lia.
      rewrite Z_div_mult by lia. exact Hb.
    + apply decode_payload_odd; [assumption | assumption |].
      rewrite <- Z.negb_even. fold a. rewrite Heven. reflexivity.
Qed.

Lemma stereo_channels_decoded_apart_witness :
  exists left right frames,
    adpcm2pcm (firstn 2 [32; 78; 92; 76]) 2 = Some left
    /\ adpcm2pcm (skipn 2 [32; 78; 92; 76]) 2 = Some right
    /\ decode_payload 2 [32; 78; 92; 76] 16 4 = Some frames
    /\ Z.of_nat (List.length frames) = 8
    /\ channel_samples 0 frames = left
    /\ channel_samples 1 frames = right.
Proof.
  apply (stereo_channels_decoded_apart 2 [32; 78; 92; 76]).
  - reflexivity.
  - vm_compute. split; reflexivity.
  - reflexivity.
  - vm_compute. discriminate.
Defined.

(** ** Container: there and back *)



(** The decoding step on a mono payload. *)
Lemma decode_payload_mono adpcm k out :
  adpcm2pcm adpcm k = Some out -> Z.of_nat (List.length out) = 2 * k ->
  decode_payload 1 adpcm (4 * k) k = Some out.
Proof.
  intros H Hl. unfold decode_payload. cbn [Z.eqb Pos.eqb]. rewrite H.
  replace (4 * k / 2) with (2 * k)
    by (replace (4 * k) with (2 * k * 2) by lia;
        rewrite Z_div_mult by lia; reflexivity).
  rewrite store_at_all by (rewrite malloc_length; lia).
  apply written_map_Some.
Qed.

(** The decoding step on a payload whose size suits the channel count. *)
Lemma decode_payload_defined (ch : Z) (adpcm : list Z) :
  let a := Z.of_nat (List.length adpcm) in
  ch = 1 \/ (ch = 2 /\ Z.even a = true) ->
  0 < a <= 2 ^ 30 ->
  exists dec,
    decode_payload ch adpcm (4 * a) a = Some dec
    /\ Z.of_nat (List.length dec) = 2 * a.
Proof.
  intros a Hch Ha.
  destruct Hch as [-> | [-> Heven]].
  - destruct (adpcm2pcm_firstn adpcm a) as (out & _ & Ho & Hl);
      [lia | unfold a; lia |].
    exists out. split; [| exact Hl].
    apply decode_payload_mono; assumption.
  - destruct (decode_payload_stereo 2 adpcm eq_refl Ha Heven)
      as (L & R & frames & _ & _ & Hd & Hl & _).
    exists frames. split; assumption.
Qed.

(** X14: the decoded file.  The input starts with the 44-byte header that
    the decoder accepts (["RIFF"], ["WAVEfmt "], header size 16, format tag
    20, one or two channels, 4 bits, ["data"]) with a data size [a > 0],
    even for two channels and such that the size [4 a + 36] of the output
    fits an [int], followed by at least [a] bytes.  The decoding step makes
    [2 a] samples [dec] of the first [a] of them; the conversion returns 0
    and writes a header with the size [4 a + 36], format tag 1, the channel
    count and sample rate of the input, the byte rate
    [rate * 2 * channels], the block alignment [2 * channels], 16 bits and
    the data size [4 a], followed by the samples of [dec]; the size, byte
    rate and block alignment fields of the input and the bytes after the
    payload have no influence. *)
Theorem adpcm2wav_output (sz chb frb bpsb bszb payload rest : list byte) :
  let a := Z.of_nat (List.length payload) in
  let ch := signed 16 (le_decode chb) in
  let fr := signed 32 (le_decode frb) in
  List.length sz = 4%nat -> List.length chb = 2%nat ->
  ch = 1 \/ (ch = 2 /\ Z.even a = true) ->
  List.length frb = 4%nat -> fits_int (fr * (2 * ch)) ->
  List.length bpsb = 4%nat -> List.length bszb = 2%nat ->
  0 < a -> 4 * a + 36 < 2 ^ 31 ->
  exists dec,
    decode_payload ch (uchars_of_bytes payload) (4 * a) a = Some dec
    /\ Z.of_nat (List.length dec) = 2 * a
    /\ adpcm2wav
         (Some (lit "RIFF" ++ sz ++ lit "WAVEfmt " ++ le_bytes 4 16
                ++ le_bytes 2 20 ++ chb ++ frb ++ bpsb ++ bszb ++ le_bytes 2 4
                ++ lit "data" ++ le_bytes 4 a ++ payload ++ rest))
       = Exited (mkExit 0 None (Some
           (lit "RIFF" ++ le_bytes 4 (4 * a + 36) ++ lit "WAVEfmt "
            ++ le_bytes 4 16 ++ le_bytes 2 1 ++ chb ++ frb
            ++ le_bytes 4 (fr * (2 * ch)) ++ le_bytes 2 (2 * ch)
            ++ le_bytes 2 16 ++ lit "data" ++ le_bytes 4 (4 * a)
            ++ bytes_of_shorts dec))).
Proof.
  intros a ch fr Hsz Hchb Hch' Hfrb Hbr Hbpsb Hbszb Ha0 Ha.
  assert (Z.of_nat (List.length (uchars_of_bytes payload)) = a) as Hul
      by (unfold uchars_of_bytes; rewrite length_map; reflexivity).
  destruct (decode_payload_defined ch (uchars_of_bytes payload))
    as (dec & Hdec & Hdl); [rewrite Hul; exact Hch' | rewrite Hul; lia |].
  rewrite Hul in Hdec, Hdl.
  exists dec. split; [exact Hdec |]. split; [exact Hdl |].
  assert (ch = 1 \/ ch = 2) as Hch by (destruct Hch' as [? | [? _]]; auto).
  clear Hch' Hul Hdl.
  assert (a = Z.of_nat (List.length payload)) as Ea by reflexivity.
  assert (ch = signed 16 (le_decode chb)) as Ech by reflexivity.
  assert (fr = signed 32 (le_decode frb)) as Efr by reflexivity.
  clearbody a ch fr.
  pose proof (le_bytes_signed_decode sz 4 Hsz) as Rs.
  pose proof (le_bytes_signed_decode chb 2 Hchb) as Rc.
  pose proof (le_bytes_signed_decode frb 4 Hfrb) as Rf.
  pose proof (le_bytes_signed_decode bpsb 4 Hbpsb) as Rb.
  pose proof (le_bytes_signed_decode bszb 2 Hbszb) as Rz.
  change (8 * Z.of_nat 2) with 16 in Rc, Rz.
  change (8 * Z.of_nat 4) with 32 in Rs, Rf, Rb.
  rewrite <- Ech in Rc. rewrite <- Efr in Rf.
  assert (forall bs, List.length bs = 4%nat ->
                     fits_int (signed 32 (le_decode bs))) as Fi.
  { intros bs Hl. unfold fits_int, signed.
    pose proof (le_decode_nonneg bs).
    assert (le_decode bs < 2 ^ 32).
    { rewrite <- (le_bytes_le_decode bs), Hl, le_decode_le_bytes.
      apply Z.mod_pos_bound. reflexivity. }
    destruct (_ <? _) eqn:T;
      [apply Z.ltb_lt in T | apply Z.ltb_ge in T];
      change (2 ^ (32 - 1)) with (2 ^ 31) in T; lia. }
  assert (forall bs, List.length bs = 2%nat ->
                     fits_short (signed 16 (le_decode bs))) as Fs.
  { intros bs Hl. unfold fits_short, signed.
    pose proof (le_decode_nonneg bs).
    assert (le_decode bs < 2 ^ 16).
    { rewrite <- (le_bytes_le_decode bs), Hl, le_decode_le_bytes.
      apply Z.mod_pos_bound. reflexivity. }
    destruct (_ <? _) eqn:T;
      [apply Z.ltb_lt in T | apply Z.ltb_ge in T];
      change (2 ^ (16 - 1)) with 32768 in T; change (2 ^ 16) with 65536 in *;
      lia. }
  remember (mkWavhdr (lit "RIFF") (signed 32 (le_decode sz)) (lit "WAVEfmt ")
                     16 20 ch fr (signed 32 (le_decode bpsb))
                     (signed 16 (le_decode bszb)) 4 (lit "data") a)
    as h eqn:Eh.
  assert (wavhdr_valid h) as Hv.
  { pose proof (Fi sz Hsz) as V1. pose proof (Fi bpsb Hbpsb) as V2.
    pose proof (Fs bszb Hbszb) as V3.
    pose proof (Fs chb Hchb) as V4. rewrite <- Ech in V4.
    pose proof (Fi frb Hfrb) as V5. rewrite <- Efr in V5.
    assert (fits_int 16 /\ fits_short 20 /\ fits_short 4 /\ fits_int a)
      as (V6 & V7 & V8 & V9) by (unfold fits_int, fits_short; lia).
    assert (List.length (lit "RIFF") = 4%nat
            /\ List.length (lit "WAVEfmt ") = 8%nat
            /\ List.length (lit "data") = 4%nat) as (V10 & V11 & V12)
      by (repeat split).
    subst h. unfold wavhdr_valid.
    cbn [hdr1 totalsize hdr2 hdrsize format channels freq byte_per_sec
         blocksize bits hdr3 datasize].
    tauto. }
  assert (lit "RIFF" ++ sz ++ lit "WAVEfmt " ++ le_bytes 4 16
          ++ le_bytes 2 20 ++ chb ++ frb ++ bpsb ++ bszb ++ le_bytes 2 4
          ++ lit "data" ++ le_bytes 4 a ++ payload ++ rest
          = wavhdr_bytes h ++ payload ++ rest) as ->.
  { subst h. unfold wavhdr_bytes.
    cbn [hdr1 totalsize hdr2 hdrsize format channels freq byte_per_sec
         blocksize bits hdr3 datasize].
    rewrite Rs, Rc, Rf, Rb, Rz, <- !app_assoc. reflexivity. }
  assert (adpcm2wav_refuses h = false) as Href.
  { subst h. unfold adpcm2wav_refuses. cbn.
    destruct Hch as [-> | ->]; reflexivity. }
  rewrite (adpcm2wav_eq h payload rest dec Hv Href);
    [| subst h; exact Ea | subst h; cbn [datasize]; lia | subst h; exact Hdec].
  subst h.
  cbn [hdr1 totalsize hdr2 hdrsize format channels freq byte_per_sec
       blocksize bits hdr3 datasize].
  replace (wrap16 (ch * 2)) with (2 * ch)
    by (destruct Hch as [-> | ->]; reflexivity).
  unfold wavhdr_bytes.
  cbn [hdr1 totalsize hdr2 hdrsize format channels freq byte_per_sec
       blocksize bits hdr3 datasize].
  rewrite le_bytes_wrap32, Rc, Rf, <- !app_assoc. reflexivity.
Qed.

Lemma adpcm2wav_output_witness :
  exists dec,
    decode_payload 1 (uchars_of_bytes (bytes_of_uchars [32; 78; 92; 76]))
                   16 4 = Some dec
    /\ Z.of_nat (List.length dec) = 8
    /\ adpcm2wav
         (Some (lit "RIFF" ++ le_bytes 4 100 ++ lit "WAVEfmt "
                ++ le_bytes 4 16
                ++ le_bytes 2 20 ++ le_bytes 2 1 ++ le_bytes 4 44100
                ++ le_bytes 4 88200 ++ le_bytes 2 2 ++ le_bytes 2 4
                ++ lit "data" ++ le_bytes 4 4
                ++ bytes_of_uchars [32; 78; 92; 76]
                ++ riff_chunk "smpl" (smpl_body 0 2 6)))
       = Exited (mkExit 0 None (Some
           (lit "RIFF" ++ le_bytes 4 52 ++ lit "WAVEfmt "
            ++ le_bytes 4 16 ++ le_bytes 2 1 ++ le_bytes 2 1
            ++ le_bytes 4 44100
            ++ le_bytes 4 88200 ++ le_bytes 2 2
            ++ le_bytes 2 16 ++ lit "data" ++ le_bytes 4 16
            ++ bytes_of_shorts dec))).
Proof.
  refine (adpcm2wav_output (le_bytes 4 100) (le_bytes 2 1) (le_bytes 4 44100)
            (le_bytes 4 88200) (le_bytes 2 2)
            (bytes_of_uchars [32; 78; 92; 76])
            (riff_chunk "smpl" (smpl_body 0 2 6)) _ _ _ _ _ _ _ _ _).
  - reflexivity.
  - reflexivity.
  - left. reflexivity.
  - reflexivity.
  - vm_compute. split; [discriminate | reflexivity].
  - reflexivity.
  - reflexivity.
  - reflexivity.
  - reflexivity.
Defined.



(** ** Sound effect channels: allocation *)

Section SfxAlloc.

Variable shl_undef : Z -> Z -> Z.

Local Abbreviation inuse_test := (Sfx.inuse_test shl_undef).
Local Abbreviation alloc_loop := (SfxMgr.alloc_loop shl_undef).

(** Where the loop of [snd_sfx_chn_alloc] stops. *)
Lemma alloc_loop_stops n :
  forall chn sfx_inuse,
    let r := alloc_loop n chn sfx_inuse in
    chn <= r <= chn + Z.of_nat n
    /\ (forall c, chn <= c < r -> inuse_test sfx_inuse c <> 0)
    /\ (r < chn + Z.of_nat n -> inuse_test sfx_inuse r = 0).
Proof.
  induction n as [| n IH]; intros chn m; cbv zeta.
  - cbn [SfxMgr.alloc_loop].
    split; [lia |]. split; [intros c Hc; lia | intros H; lia].
  - cbn [SfxMgr.alloc_loop].
    destruct (Sfx.inuse_test shl_undef m chn =? 0) eqn:E.
    + apply Z.eqb_eq in E.
      split; [lia |]. split; [intros c Hc; lia | intros _; exact E].
    + apply Z.eqb_neq in E.
      destruct (IH (chn + 1) m) as (Hr & Hbusy & Hfree).
      split; [lia |]. split.
      * intros c Hc. destruct (Z.eq_dec c chn) as [-> | Hne]; [exact E |].
        apply Hbusy. lia.
      * intros H. apply Hfree. lia.
Qed.

Lemma alloc_loop_lowest n chn sfx_inuse c :
  chn <= c < chn + Z.of_nat n ->
  (forall i, chn <= i < c -> inuse_test sfx_inuse i <> 0) ->
  inuse_test sfx_inuse c = 0 ->
  alloc_loop n chn sfx_inuse = c.
Proof.
  intros Hc Hbusy Hfree.
  destruct (alloc_loop_stops n chn sfx_inuse) as (Hr & Hb & Hf).
  cbv zeta in *.
  remember (SfxMgr.alloc_loop shl_undef n chn sfx_inuse) as r eqn:Er.
  destruct (Z.lt_trichotomy r c) as [Hlt | [Heq | Hgt]].
  - exfalso. apply (Hbusy r); [lia |]. apply Hf. lia.
  - exact Heq.
  - exfalso. apply (Hb c); [lia | exact Hfree].
Qed.

(** [1 << c] for a channel below 31, also as the mask is combined with
    it. *)
Lemma shl_int_low c :
  0 <= c < 31 -> Sfx.shl_int shl_undef 1 c = 2 ^ c.
Proof.
  intros Hc. unfold Sfx.shl_int.
  replace ((0 <=? c) && (c <? 32)) with true by tests_hold.
  rewrite Z.mul_1_l.
  assert (0 < 2 ^ c < 2 ^ 31) as Hp.
  { split; [apply Z.pow_pos_nonneg; lia |].
    apply Z.pow_lt_mono_r; lia. }
  apply wrap32_id. unfold fits_int. lia.
Qed.

Lemma shl_low c :
  0 <= c < 31 -> u64 (Sfx.shl_int shl_undef 1 c) = 2 ^ c.
Proof.
  intros Hc. rewrite shl_int_low by assumption.
  assert (0 < 2 ^ c < 2 ^ 31) as Hp.
  { split; [apply Z.pow_pos_nonneg; lia |].
    apply Z.pow_lt_mono_r; lia. }
  unfold u64. apply Z.mod_small. lia.
Qed.

Lemma testbit_high (m i : Z) :
  0 <= m < 2 ^ 64 -> 64 <= i -> Z.testbit m i = false.
Proof.
  intros Hm Hi. rewrite <- (Z.mod_small m (2 ^ 64)) by assumption.
  apply Z.mod_pow2_bits_high. lia.
Qed.

(** X17: allocation of a channel below 31 and its release.  When [c <= 30]
    is the lowest channel whose bit is clear in the mask,
    [snd_sfx_chn_alloc] returns [c] and sets the bit of [c] and no other,
    and [snd_sfx_chn_free (c)] after it gives the mask back as it was. *)
Theorem chn_alloc_lowest_free (sfx_inuse c : Z) :
  0 <= sfx_inuse < 2 ^ 64 -> 0 <= c < 31 ->
  Z.testbit sfx_inuse c = false ->
  (forall i, 0 <= i < c -> Z.testbit sfx_inuse i = true) ->
  let '(chn, sfx_inuse') := SfxMgr.snd_sfx_chn_alloc shl_undef sfx_inuse in
  chn = c
  /\ (forall i, 0 <= i ->
         Z.testbit sfx_inuse' i
         = if i =? c then true else Z.testbit sfx_inuse i)
  /\ SfxMgr.snd_sfx_chn_free shl_undef c sfx_inuse' = sfx_inuse.
Proof.
  intros Hm Hc Hfree Hbusy.
  unfold SfxMgr.snd_sfx_chn_alloc.
  rewrite (alloc_loop_lowest 64 0 sfx_inuse c).
  - replace (64 <=? c) with false by (symmetry; apply Z.leb_gt; lia).
    cbv iota. rewrite shl_low by assumption.
    split; [reflexivity |]. split.
    + intros i Hi. rewrite Z.lor_spec, Z.pow2_bits_eqb by lia.
      rewrite (Z.eqb_sym c i).
      destruct (i =? c); [apply orb_true_r | apply orb_false_r].
    + unfold SfxMgr.snd_sfx_chn_free. rewrite shl_int_low by assumption.
      apply Z.bits_inj'. intros i Hi.
      rewrite Z.land_spec, Z.lor_spec, Z.pow2_bits_eqb by lia.
      destruct (Z_lt_ge_dec i 64) as [Hlow | Hhigh].
      * unfold u64. rewrite Z.mod_pow2_bits_low by lia.
        rewrite Z.lnot_spec, Z.pow2_bits_eqb by lia.
        destruct (Z.eqb_spec c i) as [<- | Hne].
        -- rewrite Hfree. reflexivity.
        -- cbn [negb]. rewrite orb_false_r, andb_true_r. reflexivity.
      * unfold u64. rewrite Z.mod_pow2_bits_high by lia.
        rewrite andb_false_r. symmetry. apply testbit_high; [assumption | lia].
  - lia.
  - intros i Hi. rewrite (inuse_test_low shl_undef) by lia.
    rewrite Hbusy by lia. discriminate.
  - apply (inuse_test_low shl_undef); [lia | exact Hfree].
Qed.

End SfxAlloc.

Lemma chn_alloc_lowest_free_witness :
  SfxMgr.snd_sfx_chn_alloc Sfx.shl_mod32 11 = (2, 15)
  /\ SfxMgr.snd_sfx_chn_free Sfx.shl_mod32 2 15 = 11.
Proof.
  pose proof (chn_alloc_lowest_free Sfx.shl_mod32 11 2) as H.
  destruct (SfxMgr.snd_sfx_chn_alloc Sfx.shl_mod32 11) as [chn m] eqn:E.
  destruct H as (H1 & _ & H3).
  - lia.
  - lia.
  - reflexivity.
  - intros i Hi. assert (i = 0 \/ i = 1) as [-> | ->] by lia; reflexivity.
  - vm_compute in E. injection E as <- <-. split; [reflexivity | exact H3].
Defined.

(** With the shift of the SH-4 the test on channel [c + 32] is the test on
    channel [c]. *)
Lemma inuse_test_mod32 sfx_inuse c :
  0 <= c < 32 ->
  Sfx.inuse_test Sfx.shl_mod32 sfx_inuse (c + 32)
  = Sfx.inuse_test Sfx.shl_mod32 sfx_inuse c.
Proof.
  intros Hc. unfold Sfx.inuse_test, Sfx.shl_int, Sfx.shl_mod32.
  replace ((0 <=? c + 32) && (c + 32 <? 32)) with false
    by (symmetry; apply andb_false_iff; right; apply Z.ltb_ge; lia).
  replace ((0 <=? c) && (c <? 32)) with true by tests_hold.
  replace ((c + 32) mod 32) with c; [reflexivity |].
  rewrite <- (Z.mul_1_l 32) at 1. rewrite Z.mod_add by lia.
  symmetry. apply Z.mod_small. lia.
Qed.

(** X18: the channels above 31.  With the shift of the SH-4, which takes
    the count modulo 32, [snd_sfx_chn_alloc] returns -1 or a channel from 0
    to 31, whatever the mask: the channels 32 to 63 are never allocated.
    And with any shift, an allocation that returns channel 31 sets the bits
    31 to 63 of the mask together, [1 << 31] being negative as an [int]. *)
Theorem chn_alloc_upper_channels (sfx_inuse : Z) :
  (let chn := fst (SfxMgr.snd_sfx_chn_alloc Sfx.shl_mod32 sfx_inuse) in
   chn = -1 \/ 0 <= chn < 32)
  /\ (forall shl_undef,
         fst (SfxMgr.snd_sfx_chn_alloc shl_undef sfx_inuse) = 31 ->
         forall i, 31 <= i < 64 ->
           Z.testbit (snd (SfxMgr.snd_sfx_chn_alloc shl_undef sfx_inuse)) i
           = true).
Proof.
  split.
  - cbv zeta. unfold SfxMgr.snd_sfx_chn_alloc.
    destruct (alloc_loop_stops Sfx.shl_mod32 64 0 sfx_inuse)
      as (Hr & Hbusy & Hfree).
    cbv zeta in *.
    remember (SfxMgr.alloc_loop Sfx.shl_mod32 64 0 sfx_inuse) as r eqn:Er.
    destruct (64 <=? r) eqn:T; cbn [fst]; [left; reflexivity | right].
    apply Z.leb_gt in T.
    destruct (Z_lt_ge_dec r 32) as [Hlow | Hhigh]; [lia | exfalso].
    apply (Hbusy (r - 32)); [lia |].
    rewrite <- (inuse_test_mod32 sfx_inuse (r - 32)) by lia.
    replace (r - 32 + 32) with r by lia. apply Hfree. lia.
  - intros shl_undef. unfold SfxMgr.snd_sfx_chn_alloc.
    destruct (64 <=? _) eqn:T; cbn [fst snd]; [discriminate |].
    intros -> i Hi.
    rewrite Z.lor_spec.
    change (u64 (Sfx.shl_int shl_undef 1 31)) with (2 ^ 64 - 2 ^ 31).
    replace (2 ^ 64 - 2 ^ 31) with (Z.ones 33 * 2 ^ 31)
      by (rewrite Z.ones_equiv; reflexivity).
    rewrite Z.mul_pow2_bits by lia.
    rewrite Z.ones_spec_low by lia. apply orb_true_r.
Qed.

Lemma chn_alloc_upper_channels_witness :
  fst (SfxMgr.snd_sfx_chn_alloc Sfx.shl_mod32 (2 ^ 31 - 1)) = 31
  /\ Z.testbit (snd (SfxMgr.snd_sfx_chn_alloc Sfx.shl_mod32 (2 ^ 31 - 1))) 40
     = true.
Proof.
  split; [reflexivity |].
  apply (proj2 (chn_alloc_upper_channels (2 ^ 31 - 1)) Sfx.shl_mod32).
  - reflexivity.
  - lia.
Defined.

(** ** Sound effect channels: playing *)

Section SfxPlay.

Variable AICA_CMDSTR_CHANNEL_SIZE : Z.
Variable shl_undef : Z -> Z -> Z.

Local Abbreviation inuse_test := (Sfx.inuse_test shl_undef).
Local Abbreviation play_loop := (SfxMgr.play_loop shl_undef).

(** The channel that is [j] channels after [c], going round. *)
Lemma next_channel c j :
  0 <= c < 64 -> 0 <= j < 64 ->
  Z.rem (iadd ((c + j) mod 64) 1) 64 = (c + (j + 1)) mod 64
  /\ ((c + (j + 1)) mod 64 = c <-> j = 63)
  /\ ((c + j) mod 64 = c <-> j = 0).
Proof.
  intros Hc Hj.
  pose proof (Z.mod_pos_bound (c + j) 64 ltac:(lia)) as Hb.
  unfold iadd. rewrite wrap32_id by (unfold fits_int; lia).
  rewrite Z.rem_mod_nonneg by lia.
  rewrite Z.add_mod_idemp_l by lia.
  replace (c + j + 1) with (c + (j + 1)) by lia.
  split; [reflexivity |].
  pose proof (Z.div_mod (c + (j + 1)) 64 ltac:(lia)) as H1.
  pose proof (Z.mod_pos_bound (c + (j + 1)) 64 ltac:(lia)) as H2.
  pose proof (Z.div_mod (c + j) 64 ltac:(lia)) as H3.
  split; split; intros H; lia.
Qed.

(** The loop of [snd_sfx_play] entered [j] channels after [sfx_nextchan],
    the channels before being in use. *)
Lemma play_loop_stops sfx_nextchan sfx_inuse :
  0 <= sfx_nextchan < 64 ->
  forall fuel j,
    0 <= j < 64 -> (64 - Z.to_nat j <= fuel)%nat ->
    (forall i, 0 <= i < j ->
               inuse_test sfx_inuse ((sfx_nextchan + i) mod 64) <> 0) ->
    (play_loop fuel sfx_nextchan sfx_inuse ((sfx_nextchan + j) mod 64) j
     = Some (sfx_nextchan, 63)
     /\ forall i, 0 <= i < 64 ->
                  inuse_test sfx_inuse ((sfx_nextchan + i) mod 64) <> 0)
    \/ exists j',
        j <= j' < 64
        /\ play_loop fuel sfx_nextchan sfx_inuse
                     ((sfx_nextchan + j) mod 64) j
           = Some ((sfx_nextchan + j') mod 64, j')
        /\ inuse_test sfx_inuse ((sfx_nextchan + j') mod 64) = 0
        /\ forall i, 0 <= i < j' ->
                     inuse_test sfx_inuse ((sfx_nextchan + i) mod 64) <> 0.
Proof.
  intros Hc.
  induction fuel as [| fuel IH]; intros j Hj Hfuel Hbusy; [lia |].
  cbn [SfxMgr.play_loop].
  destruct (Sfx.inuse_test shl_undef sfx_inuse ((sfx_nextchan + j) mod 64)
            =? 0) eqn:E; cbn [negb].
  - apply Z.eqb_eq in E. right. exists j. repeat split; try lia; assumption.
  - apply Z.eqb_neq in E.
    destruct (next_channel sfx_nextchan j Hc Hj) as (-> & Hround & _).
    assert (forall i, 0 <= i < j + 1 ->
              Sfx.inuse_test shl_undef sfx_inuse ((sfx_nextchan + i) mod 64)
              <> 0) as Hbusy'.
    { intros i Hi. destruct (Z.eq_dec i j) as [-> | Hne]; [exact E |].
      apply Hbusy. lia. }
    destruct (sfx_nextchan =? (sfx_nextchan + (j + 1)) mod 64) eqn:T.
    + apply Z.eqb_eq in T. symmetry in T. pose proof T as T'.
      apply Hround in T'. left. rewrite T. subst j.
      split; [reflexivity |].
      intros i Hi. apply Hbusy'. lia.
    + apply Z.eqb_neq in T.
      assert (j <> 63) as Hne by (intros ->; apply T; symmetry;
                                  apply Hround; reflexivity).
      replace (iadd j 1) with (j + 1)
        by (unfold iadd; rewrite wrap32_id by (unfold fits_int; lia);
            reflexivity).
      destruct (IH (j + 1) ltac:(lia) ltac:(lia) Hbusy')
        as [[Hl Hall] | (j' & Hj' & Hl & Hfree & Hb)].
      * left. split; assumption.
      * right. exists j'. repeat split; try lia; assumption.
Qed.

(** X19: [snd_sfx_play] takes the first channel from [sfx_nextchan] on,
    going round the 64 channels, on which the in-use test of the loop is 0,
    sends the start packets of [snd_sfx_play_chn] for it and moves
    [sfx_nextchan] two channels further; when the test is not 0 on any of
    the 64 channels it returns -1, sends nothing and leaves [sfx_nextchan].
    The loop ends within 64 turns. *)
Theorem snd_sfx_play_channel (sfx_nextchan sfx_inuse : Z)
        (t : SfxMgr.snd_effect_t) (vol pan : Z) :
  0 <= sfx_nextchan < 64 ->
  exists chn nextchan' sent,
    (forall fuel, (64 <= fuel)%nat ->
       SfxMgr.snd_sfx_play AICA_CMDSTR_CHANNEL_SIZE shl_undef fuel
                           sfx_nextchan sfx_inuse t vol pan
       = Some (chn, nextchan', sent))
    /\ ((chn = -1 /\ nextchan' = sfx_nextchan /\ sent = []
         /\ forall c, 0 <= c < 64 -> inuse_test sfx_inuse c <> 0)
        \/ (exists j,
              0 <= j < 64 /\ chn = (sfx_nextchan + j) mod 64
              /\ inuse_test sfx_inuse chn = 0
              /\ (forall i, 0 <= i < j ->
                    inuse_test sfx_inuse ((sfx_nextchan + i) mod 64) <> 0)
              /\ nextchan' = (chn + 2) mod 64
              /\ sent = SfxMgr.snd_sfx_play_chn AICA_CMDSTR_CHANNEL_SIZE
                                                chn t vol pan)).
Proof.
  intros Hc.
  assert (forall fuel, (64 <= fuel)%nat ->
            (play_loop fuel sfx_nextchan sfx_inuse sfx_nextchan 0
             = Some (sfx_nextchan, 63)
             /\ forall i, 0 <= i < 64 ->
                  inuse_test sfx_inuse ((sfx_nextchan + i) mod 64) <> 0)
            \/ exists j',
                0 <= j' < 64
                /\ play_loop fuel sfx_nextchan sfx_inuse sfx_nextchan 0
                   = Some ((sfx_nextchan + j') mod 64, j')
                /\ inuse_test sfx_inuse ((sfx_nextchan + j') mod 64) = 0
                /\ forall i, 0 <= i < j' ->
                     inuse_test sfx_inuse ((sfx_nextchan + i) mod 64) <> 0)
    as Hloop.
  { intros fuel Hfuel.
    pose proof (play_loop_stops sfx_nextchan sfx_inuse Hc fuel 0
                  ltac:(lia) ltac:(lia) ltac:(intros i Hi; lia)) as H.
    replace ((sfx_nextchan + 0) mod 64) with sfx_nextchan in H
      by (rewrite Z.add_0_r, Z.mod_small by lia; reflexivity).
    exact H. }
  destruct (Hloop 64%nat ltac:(lia))
    as [[_ Hall] | (j & Hj & _ & Hfree & Hbusy)].
  - exists (-1), sfx_nextchan, []. split.
    + intros fuel Hfuel. unfold SfxMgr.snd_sfx_play.
      destruct (Hloop fuel Hfuel) as [[-> _] | (j & Hj & _ & Hfree & _)].
      * rewrite Z.eqb_refl. reflexivity.
      * exfalso. apply (Hall j Hj). exact Hfree.
    + left. repeat split. intros c Hcc.
      specialize (Hall ((c - sfx_nextchan) mod 64)
                       (Z.mod_pos_bound _ 64 ltac:(lia))).
      rewrite Z.add_mod_idemp_r in Hall by lia.
      replace (sfx_nextchan + (c - sfx_nextchan)) with c in Hall by lia.
      rewrite Z.mod_small in Hall by lia. exact Hall.
  - pose proof (Z.mod_pos_bound (sfx_nextchan + j) 64 ltac:(lia)) as Hb.
    exists ((sfx_nextchan + j) mod 64),
           (((sfx_nextchan + j) mod 64 + 2) mod 64),
           (SfxMgr.snd_sfx_play_chn AICA_CMDSTR_CHANNEL_SIZE
                                    ((sfx_nextchan + j) mod 64) t vol pan).
    split.
    + intros fuel Hfuel. unfold SfxMgr.snd_sfx_play.
      destruct (Hloop fuel Hfuel)
        as [[_ Hall] | (j' & Hj' & -> & Hfree' & Hbusy')].
      * exfalso. apply (Hall j Hj). exact Hfree.
      * assert (j' = j) as ->.
        { destruct (Z.lt_trichotomy j' j) as [Hlt | [Heq | Hgt]];
            [| exact Heq |].
          - exfalso. apply (Hbusy j'); [lia | exact Hfree'].
          - exfalso. apply (Hbusy' j); [lia | exact Hfree]. }
        destruct (next_channel sfx_nextchan j Hc Hj) as (_ & _ & Hzero).
        replace (negb (j =? 0) && ((sfx_nextchan + j) mod 64 =? sfx_nextchan))
          with false.
        -- unfold iadd. rewrite wrap32_id by (unfold fits_int; lia).
           rewrite Z.rem_mod_nonneg by lia. reflexivity.
        -- symmetry. destruct (j =? 0) eqn:T0; [reflexivity |]. cbn [negb andb].
           apply Z.eqb_neq. apply Z.eqb_neq in T0. intros H.
           apply T0. apply Hzero. exact H.
    + right. exists j. repeat split; try lia; assumption.
Qed.

End SfxPlay.

Lemma snd_sfx_play_channel_witness :
  let t := SfxMgr.mkEffect 4096 8192 70000 44100 true 0 in
  exists chn nextchan' sent,
    (forall fuel, (64 <= fuel)%nat ->
       SfxMgr.snd_sfx_play 2 Sfx.shl_mod32 fuel 62 (2 ^ 62 + 2 ^ 30)
                           t 200 128
       = Some (chn, nextchan', sent))
    /\ ((chn = -1 /\ nextchan' = 62 /\ sent = []
         /\ forall c, 0 <= c < 64 ->
              Sfx.inuse_test Sfx.shl_mod32 (2 ^ 62 + 2 ^ 30) c <> 0)
        \/ (exists j,
              0 <= j < 64 /\ chn = (62 + j) mod 64
              /\ Sfx.inuse_test Sfx.shl_mod32 (2 ^ 62 + 2 ^ 30) chn = 0
              /\ (forall i, 0 <= i < j ->
                    Sfx.inuse_test Sfx.shl_mod32 (2 ^ 62 + 2 ^ 30)
                                   ((62 + i) mod 64) <> 0)
              /\ nextchan' = (chn + 2) mod 64
              /\ sent = SfxMgr.snd_sfx_play_chn 2 chn t 200 128)).
Proof.
  apply (snd_sfx_play_channel 2 Sfx.shl_mod32 62 (2 ^ 62 + 2 ^ 30)).
  lia.
Defined.

(** ** Sound effects from memory *)

Lemma skipn_store (A : Type) (l : list A) :
  forall i v, skipn (S i) (store l i v) = skipn (S i) l.
Proof.
  induction l as [| x l IH]; intros [| i] v; try reflexivity.
  cbn [store]. change (skipn (S i) (store l i v) = skipn (S i) l).
  apply IH.
Qed.

Lemma nth_skipn_add (A : Type) (l : list A) (d : A) :
  forall a b, nth (a + b) l d = nth b (skipn a l) d.
Proof.
  induction l as [| x l IH]; intros [| a] b; try reflexivity.
  - destruct b; reflexivity.
  - cbn [Nat.add nth skipn]. apply IH.
Qed.

Lemma nth_firstn_lt (A : Type) (l : list A) (d : A) :
  forall m k, (k < m)%nat -> nth k (firstn m l) d = nth k l d.
Proof.
  induction l as [| x l IH]; intros [| m] [| k] H; try reflexivity; try lia.
  cbn [firstn nth]. apply IH. lia.
Qed.

(** The first loop of the stereo PCM branch gathers the odd elements. *)
Lemma right_loop_closed n :
  forall j W sepbuf,
    List.length sepbuf = (j + n)%nat ->
    (2 * (j + n) <= List.length W)%nat ->
    SfxLoad.right_loop n (2 * j) W sepbuf
    = Some (firstn j sepbuf ++ map (fun k => nth (k * 2 + 1) W 0) (seq j n)).
Proof.
  induction n as [| n IH]; intros j W sepbuf Hs HW.
  - cbn [SfxLoad.right_loop seq map]. rewrite app_nil_r.
    rewrite firstn_all2 by lia. reflexivity.
  - cbn [SfxLoad.right_loop].
    replace (Nat.div (2 * j) 2) with j
      by (symmetry; rewrite Nat.mul_comm; apply Nat.div_mul; lia).
    replace (Nat.ltb (2 * j + 1) (List.length W)) with true
      by (symmetry; apply Nat.ltb_lt; lia).
    replace (Nat.ltb j (List.length sepbuf)) with true
      by (symmetry; apply Nat.ltb_lt; lia).
    cbn [andb].
    replace (2 * j + 2)%nat with (2 * S j)%nat by lia.
    rewrite IH by (rewrite ?store_length; lia).
    rewrite firstn_store by lia.
    cbn [seq map]. rewrite <- app_assoc.
    replace (2 * j + 1)%nat with (j * 2 + 1)%nat by lia. reflexivity.
Qed.

(** The second loop moves the even elements to the front, in place. *)
Lemma left_loop_closed n :
  forall j W0 W,
    List.length W = List.length W0 -> skipn j W = skipn j W0 ->
    (2 * (j + n) <= List.length W0)%nat ->
    SfxLoad.left_loop n (2 * j) W
    = Some (firstn j W ++ map (fun k => nth (k * 2 + 0) W0 0) (seq j n)
            ++ skipn (j + n) W0).
Proof.
  induction n as [| n IH]; intros j W0 W Hl Hsk HW.
  - cbn [SfxLoad.left_loop seq map app]. rewrite Nat.add_0_r, <- Hsk.
    rewrite firstn_skipn. reflexivity.
  - cbn [SfxLoad.left_loop].
    replace (Nat.div (2 * j) 2) with j
      by (symmetry; rewrite Nat.mul_comm; apply Nat.div_mul; lia).
    replace (Nat.ltb (2 * j) (List.length W)) with true
      by (symmetry; apply Nat.ltb_lt; lia).
    replace (2 * j + 2)%nat with (2 * S j)%nat by lia.
    assert (nth (2 * j) W 0 = nth (j * 2 + 0) W0 0) as Hread.
    { replace (2 * j)%nat with (j + j)%nat by lia.
      replace (j * 2 + 0)%nat with (j + j)%nat by lia.
      rewrite !nth_skipn_add, Hsk. reflexivity. }
    rewrite (IH (S j) W0).
    + rewrite firstn_store by lia. rewrite Hread.
      cbn [seq map]. rewrite <- !app_assoc.
      replace (S j + n)%nat with (j + S n)%nat by lia. reflexivity.
    + rewrite store_length. exact Hl.
    + rewrite skipn_store.
      rewrite <- (Nat.add_1_l j), <- !skipn_skipn, Hsk. reflexivity.
    + lia.
Qed.

Lemma uint16s_of_bytes_length bs :
  List.length (SfxLoad.uint16s_of_bytes bs) = Nat.div (List.length bs) 2.
Proof.
  induction bs as [| x | x y l IH] using list_pair_ind; try reflexivity.
  cbn [SfxLoad.uint16s_of_bytes List.length]. rewrite IH.
  change (S (S (List.length l))) with (1 * 2 + List.length l)%nat.
  rewrite Nat.div_add_l by lia. reflexivity.
Qed.

(** The bytes of a buffer are those of its elements and of the odd byte. *)
Lemma bytes_of_uint16s_of_bytes bs :
  SfxLoad.bytes_of_uint16s (SfxLoad.uint16s_of_bytes bs)
  ++ skipn (2 * List.length (SfxLoad.uint16s_of_bytes bs)) bs = bs.
Proof.
  induction bs as [| x | x y l IH] using list_pair_ind; try reflexivity.
  cbn [SfxLoad.uint16s_of_bytes List.length].
  unfold SfxLoad.bytes_of_uint16s in *. cbn [flat_map].
  pose proof (le_bytes_le_decode [x; y]) as Hxy.
  change (List.length [x; y]) with 2%nat in Hxy. rewrite Hxy.
  replace (2 * S (List.length (SfxLoad.uint16s_of_bytes l)))%nat
    with (S (S (2 * List.length (SfxLoad.uint16s_of_bytes l)))) by lia.
  cbn [app skipn]. rewrite IH. reflexivity.
Qed.

Lemma bytes_of_uint16s_length l :
  List.length (SfxLoad.bytes_of_uint16s l) = (2 * List.length l)%nat.
Proof.
  unfold SfxLoad.bytes_of_uint16s.
  induction l as [| x l IH]; [reflexivity |].
  cbn [flat_map]. rewrite length_app, le_bytes_length, IH.
  cbn [List.length]. lia.
Qed.

Lemma bytes_of_uint16s_app l1 l2 :
  SfxLoad.bytes_of_uint16s (l1 ++ l2)
  = SfxLoad.bytes_of_uint16s l1 ++ SfxLoad.bytes_of_uint16s l2.
Proof. apply flat_map_app. Qed.

Lemma uint16s_of_bytes_firstn bs :
  forall n,
    SfxLoad.uint16s_of_bytes (firstn (2 * n) bs)
    = firstn n (SfxLoad.uint16s_of_bytes bs).
Proof.
  induction bs as [| x | x y l IH] using list_pair_ind; intros n.
  - rewrite !firstn_nil. reflexivity.
  - destruct n as [| n]; [reflexivity |].
    replace (2 * S n)%nat with (S (S (2 * n))) by lia.
    cbn [firstn SfxLoad.uint16s_of_bytes]. rewrite ?firstn_nil. reflexivity.
  - destruct n as [| n]; [reflexivity |].
    replace (2 * S n)%nat with (S (S (2 * n))) by lia.
    cbn [firstn SfxLoad.uint16s_of_bytes]. rewrite IH. reflexivity.
Qed.

(** A buffer for the right channel that is one element short. *)
Lemma right_loop_short n :
  forall j W sepbuf,
    (List.length sepbuf < j + S n)%nat ->
    SfxLoad.right_loop (S n) (2 * j) W sepbuf = None.
Proof.
  induction n as [| n IH]; intros j W sepbuf Hs;
    cbn [SfxLoad.right_loop];
    replace (Nat.div (2 * j) 2) with j
      by (symmetry; rewrite Nat.mul_comm; apply Nat.div_mul; lia);
    destruct (Nat.ltb (2 * j + 1) (List.length W)); try reflexivity;
    destruct (Nat.ltb j (List.length sepbuf)) eqn:T; try reflexivity;
    cbn [andb]; apply Nat.ltb_lt in T.
  - lia.
  - replace (2 * j + 2)%nat with (2 * S j)%nat by lia.
    apply IH. rewrite store_length. lia.
Qed.

Lemma channel_samples_firstn (c : nat) (W : list Z) (n : nat) :
  (c < 2)%nat -> (2 * n <= List.length W)%nat ->
  channel_samples c (firstn (2 * n) W)
  = map (fun k => nth (k * 2 + c) W 0) (seq 0 n).
Proof.
  intros Hc Hn. unfold channel_samples.
  rewrite length_firstn, Nat.min_l by lia.
  replace (Nat.div (2 * n) 2) with n
    by (symmetry; rewrite Nat.mul_comm; apply Nat.div_mul; lia).
  apply map_ext_in. intros k Hk. apply in_seq in Hk.
  apply nth_firstn_lt. lia.
Qed.

Section SfxLoader.

Variable AICA_SM_16BIT AICA_SM_8BIT AICA_SM_ADPCM : Z.

Local Abbreviation snd_sfx_load_mem :=
  (SfxLoad.snd_sfx_load_mem AICA_SM_16BIT AICA_SM_8BIT AICA_SM_ADPCM).

(** X20: a 16-bit stereo sample loaded from memory.  For a length of
    [4 q] bytes the call copies the left channel, the elements at even
    positions, to the first sound buffer and the right channel to the
    second, and records [q] as the length of the effect; it also moves the
    left channel to the front of the caller's buffer, whose first half no
    longer holds what was passed in.  For a length whose half is odd the
    loop that gathers the right channel stores beyond the buffer it has
    allocated, and the call has no defined behaviour. *)
Theorem load_mem_stereo_pcm (sample : list byte)
        (freq q locl_addr locr_addr : Z) :
  0 < q -> 4 * q <= Z.of_nat (List.length sample) ->
  locl_addr <> 0 -> locr_addr <> 0 ->
  let frames :=
    SfxLoad.uint16s_of_bytes (firstn (Z.to_nat (4 * q)) sample) in
  let left := SfxLoad.bytes_of_uint16s (channel_samples 0 frames) in
  let right := SfxLoad.bytes_of_uint16s (channel_samples 1 frames) in
  snd_sfx_load_mem (Some sample) AICA_SM_16BIT freq 1 (4 * q) true true
                   locl_addr locr_addr
  = Some (Some (SfxLoad.mkLoaded
                  (SfxMgr.mkEffect locl_addr locr_addr q freq true
                                   (AICA_SM_16BIT mod 4))
                  [(locl_addr, left); (locr_addr, right)]
                  (left ++ skipn (Z.to_nat (2 * q)) sample)))
  /\ forall len,
       0 < len -> Z.odd (len / 2) = true ->
       snd_sfx_load_mem (Some sample) AICA_SM_16BIT freq 1 len true true
                        locl_addr locr_addr
       = None.
Proof.
  intros Hq Hlen Hl Hr. cbv zeta. split.
  - unfold SfxLoad.snd_sfx_load_mem.
    replace (4 * q =? 0) with false by (symmetry; apply Z.eqb_neq; lia).
    cbn [negb Z.eqb Pos.eqb andb Z.odd]. rewrite Z.eqb_refl.
    replace (4 * q / 2) with (2 * q)
      by (replace (4 * q) with (2 * q * 2) by lia;
          rewrite Z_div_mult by lia; reflexivity).
    replace ((2 * q + 1) / 2) with q
      by (replace (2 * q + 1) with (q * 2 + 1) by lia;
          rewrite Z.div_add_l by lia; change (1 / 2) with 0; lia).
    replace (2 * q / 2) with q
      by (rewrite Z.mul_comm, Z_div_mult by lia; reflexivity).
    replace (4 * q / 4) with q
      by (rewrite Z.mul_comm, Z_div_mult by lia; reflexivity).
    remember (Z.to_nat q) as n eqn:En.
    remember (SfxLoad.uint16s_of_bytes sample) as W eqn:EW.
    assert (2 * (2 * n) <= List.length sample)%nat as Hsample by lia.
    assert (2 * n <= List.length W)%nat as HW.
    { rewrite EW, uint16s_of_bytes_length.
      apply Nat.div_le_lower_bound; lia. }
    change 0%nat with (2 * 0)%nat at 1 2.
    rewrite (right_loop_closed n 0 W)
      by (rewrite ?repeat_length; lia).
    rewrite (left_loop_closed n 0 W W eq_refl eq_refl) by lia.
    cbn [firstn app Nat.add].
    replace (Z.to_nat (4 * q)) with (2 * (2 * n))%nat by lia.
    rewrite uint16s_of_bytes_firstn, <- EW.
    rewrite !channel_samples_firstn by lia.
    remember (map (fun k => nth (k * 2 + 0) W 0) (seq 0 n)) as L eqn:EL.
    remember (map (fun k => nth (k * 2 + 1) W 0) (seq 0 n)) as R eqn:ER.
    assert (List.length L = n /\ List.length R = n) as [HL HR]
      by (subst L R; rewrite !length_map, !length_seq; auto).
    assert (overlay sample (SfxLoad.bytes_of_uint16s (L ++ skipn n W))
            = SfxLoad.bytes_of_uint16s L ++ skipn (2 * n) sample) as Hov.
    { unfold overlay.
      rewrite bytes_of_uint16s_app, <- app_assoc. f_equal.
      rewrite length_app, !bytes_of_uint16s_length, HL, length_skipn.
      replace (2 * n + 2 * (List.length W - n))%nat
        with (2 * List.length W)%nat by lia.
      pose proof (bytes_of_uint16s_of_bytes sample) as Hb.
      rewrite <- EW in Hb.
      rewrite <- (firstn_skipn n W) in Hb at 1.
      rewrite bytes_of_uint16s_app, <- app_assoc in Hb.
      rewrite <- Hb at 2.
      rewrite skipn_app.
      rewrite (skipn_all2 (SfxLoad.bytes_of_uint16s (firstn n W)))
        by (rewrite bytes_of_uint16s_length, length_firstn; lia).
      rewrite bytes_of_uint16s_length, length_firstn, Nat.min_l by lia.
      replace (2 * n - 2 * n)%nat with 0%nat by lia. reflexivity. }
    rewrite Hov.
    unfold SfxLoad.spu_memload.
    replace (locl_addr =? 0) with false by (symmetry; apply Z.eqb_neq; lia).
    replace (locr_addr =? 0) with false by (symmetry; apply Z.eqb_neq; lia).
    rewrite length_app, !bytes_of_uint16s_length, length_skipn, HL, HR.
    replace (2 * q <=? Z.of_nat (2 * n + (List.length sample - 2 * n)))
      with true by (symmetry; apply Z.leb_le; lia).
    replace (2 * q <=? Z.of_nat (2 * n))
      with true by (symmetry; apply Z.leb_le; lia).
    rewrite !ztake_firstn.
    replace (Z.to_nat (2 * q)) with (2 * n)%nat by lia.
    rewrite firstn_app, (firstn_all2 (SfxLoad.bytes_of_uint16s L))
      by (rewrite bytes_of_uint16s_length; lia).
    rewrite bytes_of_uint16s_length, HL.
    replace (2 * n - 2 * n)%nat with 0%nat by lia.
    cbn [firstn]. rewrite app_nil_r.
    rewrite firstn_all2 by (rewrite bytes_of_uint16s_length; lia).
    reflexivity.
  - intros len Hpos Hodd. unfold SfxLoad.snd_sfx_load_mem.
    replace (len =? 0) with false by (symmetry; apply Z.eqb_neq; lia).
    cbn [negb Z.eqb Pos.eqb andb Z.odd]. rewrite Z.eqb_refl.
    pose proof (Z.div_mod (len / 2) 2 ltac:(lia)) as Hdm.
    rewrite Zodd_mod in Hodd.
    assert ((len / 2) mod 2 = 1) as Hm
      by (destruct ((len / 2) mod 2 =? 1) eqn:T;
          [apply Z.eqb_eq in T; exact T | discriminate]).
    rewrite Hm in Hdm.
    assert (0 <= len / 2) as Hh by (apply Z.div_pos; lia).
    assert (0 <= len / 2 / 2) as Hh2 by (apply Z.div_pos; lia).
    replace ((len / 2 + 1) / 2) with (len / 2 / 2 + 1).
    + replace (Z.to_nat (len / 2 / 2 + 1))
        with (S (Z.to_nat (len / 2 / 2))) by lia.
      change 0%nat with (2 * 0)%nat at 1.
      rewrite right_loop_short; [reflexivity |].
      rewrite repeat_length. lia.
    + rewrite Hdm at 2.
      replace (2 * (len / 2 / 2) + 1 + 1) with ((len / 2 / 2 + 1) * 2) by lia.
      rewrite Z_div_mult by lia. reflexivity.
Qed.

End SfxLoader.

Lemma load_mem_stereo_pcm_witness :
  SfxLoad.snd_sfx_load_mem 0 1 2
    (Some (SfxLoad.bytes_of_uint16s [10; 20; 11; 21; 12; 22; 13; 23]))
    0 44100 1 16 true true 4096 8192
  = Some (Some (SfxLoad.mkLoaded
                  (SfxMgr.mkEffect 4096 8192 4 44100 true 0)
                  [(4096, SfxLoad.bytes_of_uint16s [10; 11; 12; 13]);
                   (8192, SfxLoad.bytes_of_uint16s [20; 21; 22; 23])]
                  (SfxLoad.bytes_of_uint16s
                     [10; 11; 12; 13; 12; 22; 13; 23]))).
Proof.
  refine (proj1 (load_mem_stereo_pcm 0 1 2
                   (SfxLoad.bytes_of_uint16s [10; 20; 11; 21; 12; 22; 13; 23])
                   44100 4 4096 8192 _ _ _ _)).
  - lia.
  - vm_compute. discriminate.
  - discriminate.
  - discriminate.
Defined.

Section SfxLoaderAdpcm.

Variable AICA_SM_16BIT AICA_SM_8BIT AICA_SM_ADPCM : Z.

Local Abbreviation snd_sfx_load_mem :=
  (SfxLoad.snd_sfx_load_mem AICA_SM_16BIT AICA_SM_8BIT AICA_SM_ADPCM).

(** X21: from the converter to the sound buffers.  The payload that
    [wav2adpcm] makes of a stereo PCM payload of [8 k] bytes, loaded as a
    stereo ADPCM sample of [2 k] bytes, is split where the converter
    joined it: the first sound buffer receives the encoding of the left
    channel of the PCM data and the second that of the right channel; the
    effect has the length [2 k] and the caller's buffer is left as it
    was. *)
Theorem load_mem_stereo_adpcm (channels : Z) (pcmbuf rest : list byte)
        (k freq locl_addr locr_addr : Z) :
  (channels =? 1) = false ->
  Z.of_nat (List.length pcmbuf) = 8 * k -> 0 < k < 2 ^ 29 ->
  AICA_SM_ADPCM <> AICA_SM_16BIT ->
  locl_addr <> 0 -> locr_addr <> 0 ->
  exists left right,
    pcm2adpcm (channel_samples 0 (shorts_of_bytes pcmbuf)) (4 * k)
    = Some left
    /\ pcm2adpcm (channel_samples 1 (shorts_of_bytes pcmbuf)) (4 * k)
       = Some right
    /\ encode_payload channels (Some pcmbuf) (8 * k) (8 * k / 4)
       = Some (left ++ right)
    /\ snd_sfx_load_mem (Some (bytes_of_uchars (left ++ right) ++ rest))
                        AICA_SM_ADPCM freq 1 (2 * k) true true
                        locl_addr locr_addr
       = Some (Some (SfxLoad.mkLoaded
                       (SfxMgr.mkEffect locl_addr locr_addr (2 * k) freq
                                        true (AICA_SM_ADPCM mod 4))
                       [(locl_addr, bytes_of_uchars left);
                        (locr_addr, bytes_of_uchars right)]
                       (bytes_of_uchars (left ++ right) ++ rest))).
Proof.
  intros Hch Hlen Hk Hfmt Hl Hr.
  destruct (encode_payload_channels channels pcmbuf k Hch Hlen Hk)
    as (o1 & o2 & H1 & H2 & Hl1 & Hl2 & HL & He).
  destruct (pcm2adpcm_length (channel_samples 0 (shorts_of_bytes pcmbuf))
                             (4 * k)) as (oL & HoL & _);
    [lia | rewrite ceil_quarter; lia |].
  pose proof (pcm2adpcm_loop_app _ _ _ _
                (channel_samples 1 (shorts_of_bytes pcmbuf)) HoL) as Happ.
  fold (pcm2adpcm (channel_samples 0 (shorts_of_bytes pcmbuf)
                   ++ channel_samples 1 (shorts_of_bytes pcmbuf)) (4 * k))
    in Happ.
  rewrite H1 in Happ. injection Happ as <-.
  exists o1, o2.
  split; [exact HoL |]. split; [exact H2 |]. split; [exact He |].
  unfold SfxLoad.snd_sfx_load_mem.
  replace (2 * k =? 0) with false by (symmetry; apply Z.eqb_neq; lia).
  cbn [negb Z.eqb Pos.eqb andb Z.odd].
  replace (AICA_SM_ADPCM =? AICA_SM_16BIT) with false
    by (symmetry; apply Z.eqb_neq; exact Hfmt).
  rewrite Z.eqb_refl.
  replace (2 * k / 2) with k
    by (rewrite Z.mul_comm, Z_div_mult by lia; reflexivity).
  unfold bytes_of_uchars. rewrite map_app, <- app_assoc.
  remember (map byte_of_Z o1) as bl eqn:Ebl.
  remember (map byte_of_Z o2) as br eqn:Ebr.
  assert (List.length bl = Z.to_nat k /\ List.length br = Z.to_nat k)
    as [Hbl Hbr] by (subst bl br; rewrite !length_map; lia).
  assert (ztake k (bl ++ br ++ rest) = bl) as T1.
  { rewrite ztake_firstn, firstn_app, Hbl, Nat.sub_diag, firstn_all2 by lia.
    cbn [firstn]. apply app_nil_r. }
  assert (zdrop k (bl ++ br ++ rest) = br ++ rest) as T2.
  { rewrite zdrop_skipn, skipn_app, skipn_all2, Hbl, Nat.sub_diag by lia.
    reflexivity. }
  assert (ztake k (br ++ rest) = br) as T3.
  { rewrite ztake_firstn, firstn_app, Hbr, Nat.sub_diag, firstn_all2 by lia.
    cbn [firstn]. apply app_nil_r. }
  assert (ztake k br = br) as T4
    by (rewrite ztake_firstn; apply firstn_all2; lia).
  unfold SfxLoad.spu_memload.
  rewrite T2, T3, T1, T4, !length_app, Hbl, Hbr.
  replace (locl_addr =? 0) with false by (symmetry; apply Z.eqb_neq; lia).
  replace (locr_addr =? 0) with false by (symmetry; apply Z.eqb_neq; lia).
  replace (k + k <=? Z.of_nat (Z.to_nat k
                               + (Z.to_nat k + List.length rest)))
    with true by (symmetry; apply Z.leb_le; lia).
  replace (k <=? Z.of_nat (Z.to_nat k + (Z.to_nat k + List.length rest)))
    with true by (symmetry; apply Z.leb_le; lia).
  replace (k <=? Z.of_nat (Z.to_nat k))
    with true by (symmetry; apply Z.leb_le; lia).
  reflexivity.
Qed.

End SfxLoaderAdpcm.

Lemma load_mem_stereo_adpcm_witness :
  exists left right,
    pcm2adpcm (channel_samples 0 (shorts_of_bytes
                                    (bytes_of_shorts sample_pcm))) (4 * 2)
    = Some left
    /\ pcm2adpcm (channel_samples 1 (shorts_of_bytes
                                       (bytes_of_shorts sample_pcm))) (4 * 2)
       = Some right
    /\ encode_payload 2 (Some (bytes_of_shorts sample_pcm)) (8 * 2)
                      (8 * 2 / 4)
       = Some (left ++ right)
    /\ SfxLoad.snd_sfx_load_mem 0 1 2
         (Some (bytes_of_uchars (left ++ right) ++ [])) 2 44100 1 (2 * 2)
         true true 4096 8192
       = Some (Some (SfxLoad.mkLoaded
                       (SfxMgr.mkEffect 4096 8192 (2 * 2) 44100 true
                                        (2 mod 4))
                       [(4096, bytes_of_uchars left);
                        (8192, bytes_of_uchars right)]
                       (bytes_of_uchars (left ++ right) ++ []))).
Proof.
  apply (load_mem_stereo_adpcm 0 1 2 2 (bytes_of_shorts sample_pcm) []
                               2 44100 4096 8192).
  - reflexivity.
  - reflexivity.
  - lia.
  - discriminate.
  - discriminate.
  - discriminate.
Defined.

(** ** Sound effects from files *)

(** A read of bytes that are there. *)
Lemma fs_read_at c e off n pre bs rest :
  c = pre ++ bs ++ rest ->
  Z.of_nat (List.length pre) = off -> Z.of_nat (List.length bs) = n ->
  SfxFile.fs_read (mkFILE c off e) n = (mkFILE c (off + n) e, bs).
Proof.
  intros Hc Hoff Hn. unfold SfxFile.fs_read, remaining.
  cbn [content pos eof].
  assert (ztake n (zdrop off c) = bs) as ->.
  { rewrite ztake_firstn, zdrop_skipn, Hc, <- Hoff, <- Hn, !Nat2Z.id.
    rewrite skipn_app, skipn_all, Nat.sub_diag. cbn [skipn app].
    rewrite firstn_app, firstn_all, Nat.sub_diag. cbn [firstn].
    apply app_nil_r. }
  rewrite Hn. reflexivity.
Qed.

(** Two adjacent 16-bit fields read as one 32-bit object. *)
Lemma le_decode_app a b :
  le_decode (a ++ b)
  = le_decode a + 2 ^ (8 * Z.of_nat (List.length a)) * le_decode b.
Proof.
  induction a as [| x a IH].
  - cbn [app le_decode List.length]. change (2 ^ (8 * Z.of_nat 0)) with 1.
    lia.
  - cbn [app le_decode List.length]. rewrite IH.
    replace (8 * Z.of_nat (S (List.length a)))
      with (8 + 8 * Z.of_nat (List.length a)) by lia.
    rewrite Z.pow_add_r by lia. change (2 ^ 8) with 256. lia.
Qed.

Lemma le_decode_bound bs :
  le_decode bs < 2 ^ (8 * Z.of_nat (List.length bs)).
Proof.
  rewrite <- (le_bytes_le_decode bs) at 1. rewrite le_decode_le_bytes.
  apply Z.mod_pos_bound. apply Z.pow_pos_nonneg; lia.
Qed.

Section SfxFileLoader.

Variable AICA_SM_16BIT AICA_SM_8BIT AICA_SM_ADPCM : Z.

Local Abbreviation snd_sfx_load :=
  (SfxFile.snd_sfx_load AICA_SM_16BIT AICA_SM_8BIT AICA_SM_ADPCM).

(** X22: the sample size of a mono PCM file.  [snd_sfx_load] reads four
    bytes at offset 0x20 into [blockAlign], the block alignment field and
    the bits per sample field behind it, and takes the samples to be
    16 bits wide when the value is 2: the effect is marked 16-bit, with
    half the byte count as its length, exactly when the block alignment
    field is 2 and the bits per sample field is 0.  A mono file with 16
    in its bits per sample field is loaded as 8-bit samples, with the byte
    count as its length. *)
Theorem load_mono_pcm_sample_size (stack : SfxFile.locals)
        (pre mid fmtb hzb avgb bab bitsb tag lenb data : list byte)
        (mapped malloc_tmp malloc_buf : bool) (locl_addr locr_addr : Z) :
  List.length pre = 8%nat -> List.length mid = 8%nat ->
  List.length fmtb = 2%nat -> List.length hzb = 4%nat ->
  List.length avgb = 4%nat -> List.length bab = 2%nat ->
  List.length bitsb = 2%nat -> List.length tag = 4%nat ->
  List.length lenb = 4%nat ->
  le_decode fmtb <> 20 ->
  le_decode lenb <= Z.of_nat (List.length data) ->
  mapped = true \/ malloc_tmp = true ->
  locl_addr <> 0 ->
  let len := le_decode lenb in
  let sixteen := (le_decode bab =? 2) && (le_decode bitsb =? 0) in
  exists r,
    snd_sfx_load (Some (pre ++ lit "WAVE" ++ mid ++ fmtb ++ le_bytes 2 1
                        ++ hzb ++ avgb ++ bab ++ bitsb ++ tag ++ lenb
                        ++ data))
                 stack mapped malloc_tmp true malloc_buf
                 locl_addr locr_addr
    = Some (Some r)
    /\ SfxLoad.effect r
       = SfxMgr.mkEffect locl_addr 0 (if sixteen then len / 2 else len)
                         (le_decode hzb mod 2 ^ 16) false
                         ((if sixteen then AICA_SM_16BIT else AICA_SM_8BIT)
                          mod 4)
    /\ SfxLoad.uploads r = [(locl_addr, firstn (Z.to_nat len) data)].
Proof.
  intros Hpre Hmid Hfmtb Hhzb Havgb Hbab Hbitsb Htag Hlenb Hfmt Hlen Hbuf Hl.
  cbv zeta.
  remember (pre ++ lit "WAVE" ++ mid ++ fmtb ++ le_bytes 2 1 ++ hzb ++ avgb
            ++ bab ++ bitsb ++ tag ++ lenb ++ data) as bytes eqn:Eb.
  unfold SfxFile.snd_sfx_load, SfxFile.fs_seek, fopen_rb.
  cbn [content pos eof].
  rewrite (fs_read_at bytes false 8 4 pre (lit "WAVE")
             (mid ++ fmtb ++ le_bytes 2 1 ++ hzb ++ avgb ++ bab ++ bitsb
              ++ tag ++ lenb ++ data))
    by (try (rewrite Hpre; reflexivity); try reflexivity; exact Eb).
  cbn [content pos eof].
  change (memcmp (overlay (le_bytes 4 0) (lit "WAVE")) (lit "WAVE") 4)
    with false.
  cbv iota.
  rewrite (fs_read_at bytes false 20 2 (pre ++ lit "WAVE" ++ mid) fmtb
             (le_bytes 2 1 ++ hzb ++ avgb ++ bab ++ bitsb ++ tag ++ lenb
              ++ data));
    [| rewrite Eb, <- !app_assoc; reflexivity
     | rewrite !length_app, Hpre, Hmid; reflexivity
     | rewrite Hfmtb; reflexivity].
  cbn [content pos eof].
  rewrite (fs_read_at bytes false (20 + 2) 2
             (pre ++ lit "WAVE" ++ mid ++ fmtb) (le_bytes 2 1)
             (hzb ++ avgb ++ bab ++ bitsb ++ tag ++ lenb ++ data));
    [| rewrite Eb, <- !app_assoc; reflexivity
     | rewrite !length_app, Hpre, Hmid, Hfmtb; reflexivity
     | reflexivity].
  cbn [content pos eof].
  rewrite (fs_read_at bytes false (20 + 2 + 2) 4
             (pre ++ lit "WAVE" ++ mid ++ fmtb ++ le_bytes 2 1) hzb
             (avgb ++ bab ++ bitsb ++ tag ++ lenb ++ data));
    [| rewrite Eb, <- !app_assoc; reflexivity
     | rewrite !length_app, Hpre, Hmid, Hfmtb; reflexivity
     | rewrite Hhzb; reflexivity].
  cbn [content pos eof].
  rewrite (fs_read_at bytes false (20 + 2 + 2 + 4) 4
             (pre ++ lit "WAVE" ++ mid ++ fmtb ++ le_bytes 2 1 ++ hzb) avgb
             (bab ++ bitsb ++ tag ++ lenb ++ data));
    [| rewrite Eb, <- !app_assoc; reflexivity
     | rewrite !length_app, Hpre, Hmid, Hfmtb, Hhzb; reflexivity
     | rewrite Havgb; reflexivity].
  cbn [content pos eof].
  rewrite (fs_read_at bytes false (20 + 2 + 2 + 4 + 4) 4
             (pre ++ lit "WAVE" ++ mid ++ fmtb ++ le_bytes 2 1 ++ hzb
              ++ avgb) (bab ++ bitsb)
             (tag ++ lenb ++ data));
    [| rewrite Eb, <- !app_assoc; reflexivity
     | rewrite !length_app, Hpre, Hmid, Hfmtb, Hhzb, Havgb; reflexivity
     | rewrite !length_app, Hbab, Hbitsb; reflexivity].
  cbn [content pos eof].
  rewrite (fs_read_at bytes false 34 2
             (pre ++ lit "WAVE" ++ mid ++ fmtb ++ le_bytes 2 1 ++ hzb
              ++ avgb ++ bab) bitsb
             (tag ++ lenb ++ data));
    [| rewrite Eb, <- !app_assoc; reflexivity
     | rewrite !length_app, Hpre, Hmid, Hfmtb, Hhzb, Havgb, Hbab; reflexivity
     | rewrite Hbitsb; reflexivity].
  cbn [content pos eof].
  rewrite (fs_read_at bytes false 40 4
             (pre ++ lit "WAVE" ++ mid ++ fmtb ++ le_bytes 2 1 ++ hzb
              ++ avgb ++ bab ++ bitsb ++ tag) lenb data);
    [| rewrite Eb, <- !app_assoc; reflexivity
     | rewrite !length_app, Hpre, Hmid, Hfmtb, Hhzb, Havgb, Hbab, Hbitsb,
         Htag; reflexivity
     | rewrite Hlenb; reflexivity].
  cbn [content pos eof].
  rewrite !overlay_full
    by (rewrite ?le_bytes_length, ?length_app; try assumption;
        try reflexivity; rewrite Hbab, Hbitsb; reflexivity).
  change (le_decode (le_bytes 2 1)) with 1.
  unfold SfxFile.snd_sfx_load_body.
  pose proof (le_decode_nonneg lenb) as Hlen0.
  remember (le_decode lenb) as len eqn:Elen.
  assert (remaining (mkFILE bytes (40 + 4) false) = data) as Hrem.
  { unfold remaining. cbn [content pos]. rewrite zdrop_skipn, Eb.
    rewrite !app_assoc. rewrite skipn_app, skipn_all2
      by (rewrite !length_app, Hpre, Hmid, Hfmtb, Hhzb, Havgb, Hbab, Hbitsb,
            Htag, Hlenb; cbn; lia).
    rewrite !length_app, Hpre, Hmid, Hfmtb, Hhzb, Havgb, Hbab, Hbitsb,
      Htag, Hlenb.
    reflexivity. }
  assert (exists tmp,
            (if mapped then Some (remaining (mkFILE bytes (40 + 4) false))
             else if malloc_tmp || (len =? 0)
                  then Some (snd (SfxFile.fs_read
                                    (mkFILE bytes (40 + 4) false) len))
                  else None) = Some tmp
            /\ len <= Z.of_nat (List.length tmp)
            /\ ztake len tmp = firstn (Z.to_nat len) data) as
      (tmp & -> & Htl & Htake).
  { destruct mapped.
    - exists data. rewrite Hrem. split; [reflexivity |].
      split; [exact Hlen | apply ztake_firstn].
    - destruct Hbuf as [Hbuf | Hbuf]; [discriminate |]. rewrite Hbuf.
      cbn [orb]. unfold SfxFile.fs_read. rewrite Hrem. cbn [snd].
      exists (ztake len data). split; [reflexivity |].
      rewrite !ztake_firstn, length_firstn, firstn_firstn.
      split; [lia |]. f_equal. lia. }
  cbn [negb Z.eqb Pos.eqb Z.odd Z.sub Z.add Z.opp Z.pos_sub].
  unfold SfxLoad.spu_memload.
  replace (locl_addr =? 0) with false by (symmetry; apply Z.eqb_neq; lia).
  replace (len <=? Z.of_nat (List.length tmp)) with true
    by (symmetry; apply Z.leb_le; lia).
  replace (le_decode fmtb =? 20) with false
    by (symmetry; apply Z.eqb_neq; exact Hfmt).
  rewrite orb_false_r, Htake.
  assert ((le_decode (bab ++ bitsb) =? 2)
          = (le_decode bab =? 2) && (le_decode bitsb =? 0)) as ->.
  { rewrite le_decode_app, Hbab. change (2 ^ (8 * Z.of_nat 2)) with 65536.
    pose proof (le_decode_nonneg bab). pose proof (le_decode_nonneg bitsb).
    pose proof (le_decode_bound bab) as Hb. rewrite Hbab in Hb.
    change (2 ^ (8 * Z.of_nat 2)) with 65536 in Hb.
    destruct (le_decode bab =? 2) eqn:T1;
      destruct (le_decode bitsb =? 0) eqn:T2; cbn [andb];
      rewrite ?Z.eqb_eq, ?Z.eqb_neq in *; lia. }
  destruct ((le_decode bab =? 2) && (le_decode bitsb =? 0)).
  - eexists. split; [reflexivity |]. cbn [SfxLoad.effect SfxLoad.uploads].
    rewrite Z.shiftr_div_pow2 by lia. split; reflexivity.
  - eexists. split; [reflexivity |]. split; reflexivity.
Qed.

End SfxFileLoader.

Lemma load_mono_pcm_sample_size_witness :
  exists r,
    SfxFile.snd_sfx_load 0 1 2 (Some wav_plain)
                         (SfxFile.mkLocals 0 0 0 0 0 0)
                         false true true true 4096 8192
    = Some (Some r)
    /\ SfxLoad.effect r = SfxMgr.mkEffect 4096 0 16 44100 false 1
    /\ SfxLoad.uploads r = [(4096, bytes_of_shorts sample_pcm)].
Proof.
  apply (load_mono_pcm_sample_size 0 1 2 (SfxFile.mkLocals 0 0 0 0 0 0)
           (lit "RIFF" ++ le_bytes 4 52) (lit "fmt " ++ le_bytes 4 16)
           (le_bytes 2 1) (le_bytes 4 44100) (le_bytes 4 88200)
           (le_bytes 2 2) (le_bytes 2 16) (lit "data") (le_bytes 4 16)
           (bytes_of_shorts sample_pcm) false true true 4096 8192).
  - reflexivity.
  - reflexivity.
  - reflexivity.
  - reflexivity.
  - reflexivity.
  - reflexivity.
  - reflexivity.
  - reflexivity.
  - reflexivity.
  - discriminate.
  - vm_compute. discriminate.
  - right. reflexivity.
  - discriminate.
Defined.
